(** * pybotters.ws: a shallow embedding of the WebSocket layer

    The development follows [src/pybotters/ws.py].  Part I embeds the code:
    Python values, the per-host hook registries, the supervisor
    ([WebSocketApp]), the message dispatcher, and the managed connection
    ([ClientWebSocketResponse]) with its hooks written as coroutines over an
    explicit effect signature.  Part II states and proves the properties.

    Conventions.
    - A Python [float] is an exact rational ([Q]); [int(x)] is truncation
      toward zero.
    - A Python [dict] whose serialisation order matters (JSON payloads) is an
      association list in insertion order; the read-only registries and the
      credential store are finite maps.
    - What the standard library or aiohttp computes (HMAC, [json.dumps],
      [str()], [msg.json()]) is a [Variable] of the enclosing section. *)

From Stdlib Require Import ZArith QArith Qround Qpower Lia Lqa List Permutation Sorted.
From stdpp Require Import base list strings gmap.

Local Open Scope string_scope.
Local Open Scope list_scope.

(* ===================================================================== *)
(** * Part I.  The embedding                                              *)
(* ===================================================================== *)

(** ** Python values *)

#[local] Set Warnings "-register-all".

(** Identifier of a caller-supplied callback. *)
Definition handler := nat.

Inductive pyval : Type :=
| PyNone
| PyBool (b : bool)
| PyInt (z : Z)
| PyStr (s : string)
| PyBytes (b : string)
| PyList (l : list pyval)
| PyDict (d : list (string * pyval))
| PyCallable (h : handler).

Definition isinstance_str (v : pyval) : bool :=
  match v with PyStr _ => true | _ => false end.
Definition isinstance_bytes (v : pyval) : bool :=
  match v with PyBytes _ => true | _ => false end.
Definition isinstance_dict (v : pyval) : bool :=
  match v with PyDict _ => true | _ => false end.
Definition callable (v : pyval) : bool :=
  match v with PyCallable _ => true | _ => false end.
Definition is_None (v : pyval) : bool :=
  match v with PyNone => true | _ => false end.

(** [bool(v)]: Python truthiness. *)
Definition py_truthy (v : pyval) : bool :=
  match v with
  | PyNone => false
  | PyBool b => b
  | PyInt z => negb (Z.eqb z 0)
  | PyStr s => negb (String.eqb s "")
  | PyBytes s => negb (String.eqb s "")
  | PyList l => match l with [] => false | _ => true end
  | PyDict d => match d with [] => false | _ => true end
  | PyCallable _ => true
  end.

(** [d.get(k)] / [d[k]] and [d[k] = v] on an insertion-ordered dict. *)
Fixpoint dict_get (k : string) (d : list (string * pyval)) : option pyval :=
  match d with
  | [] => None
  | (k', v) :: d' => if String.eqb k k' then Some v else dict_get k d'
  end.

Fixpoint dict_set (k : string) (v : pyval) (d : list (string * pyval))
  : list (string * pyval) :=
  match d with
  | [] => [(k, v)]
  | (k', v') :: d' =>
      if String.eqb k k' then (k', v) :: d' else (k', v') :: dict_set k v d'
  end.

(** [int(x)] on a float: the fraction is dropped, toward zero. *)
Definition py_int (x : Q) : Z := Z.quot (Qnum x) (Zpos (Qden x)).

(** [min(a, b)]: the second argument is taken only when strictly smaller. *)
Definition py_min (a b : Q) : Q := if Qlt_le_dec b a then b else a.

(* --------------------------------------------------------------------- *)
(** ** WebSocketApp: the connection supervisor                            *)
(* --------------------------------------------------------------------- *)

Module WebSocketApp.

Record backoff : Type := Backoff {
  BACKOFF_MIN : Q;
  BACKOFF_MAX : Q;
  BACKOFF_FACTOR : Q;
  BACKOFF_INITIAL : Q
}.

Definition DEFAULT_BACKOFF : backoff :=
  Backoff (192 # 100) (60 # 1) (1618 # 1000) (5 # 1).

(** Keyword arguments of [__init__], and those handed to [_run_forever]. *)
Record plans : Type := Plans {
  send_str : pyval;
  send_bytes : pyval;
  send_json : pyval;
  hdlr_str : pyval;
  hdlr_bytes : pyval;
  hdlr_json : pyval
}.

(** The object after [__init__]: its attributes and the arguments of the
    [_run_forever] task it created. *)
Record t : Type := App {
  _url : string;
  _current_ws : option nat;
  _event : bool;
  _task : plans * backoff
}.

Definition norm_send_str (v : pyval) : pyval :=
  if is_None v then PyList []
  else if isinstance_str v then PyList [v] else v.
Definition norm_send_bytes (v : pyval) : pyval :=
  if is_None v then PyList []
  else if isinstance_bytes v then PyList [v] else v.
Definition norm_send_json (v : pyval) : pyval :=
  if is_None v then PyList []
  else if isinstance_dict v then PyList [v] else v.
Definition norm_hdlr (v : pyval) : pyval :=
  if is_None v then PyList []
  else if callable v then PyList [v] else v.

Definition __init__ (url : string) (kw : plans) (bo : backoff) : t :=
  {| _url := url;
     _current_ws := None;
     _event := false;
     _task :=
       (Plans (norm_send_str (send_str kw))
              (norm_send_bytes (send_bytes kw))
              (norm_send_json (send_json kw))
              (norm_hdlr (hdlr_str kw))
              (norm_hdlr (hdlr_bytes kw))
              (norm_hdlr (hdlr_json kw)),
        bo) |}.

(** The [url] property. *)
Definition url (self : t) : string := _url self.
Definition set_url (self : t) (u : string) : t :=
  {| _url := u; _current_ws := _current_ws self;
     _event := _event self; _task := _task self |}.

(** *** The reconnect loop

    One turn of [while not self._session.closed] is driven by how
    [_ws_connect] ended.  [CycleRaise r] carries the number
    [random.random()] returns should the handler ask for it.  Between two
    turns the application may assign the [url] property. *)
Inductive cycle : Type :=
| CycleOk
| CycleRaise (rnd : Q).

Inductive turn : Type :=
| Attempt (c : cycle)
| AssignUrl (u : string).

Inductive event : Type :=
| EvConnect (u : string)    (* self._session.ws_connect(self._url) *)
| EvWarning                 (* logger.warning(...) *)
| EvSleep (d : Q).          (* asyncio.sleep(d) *)

(** The [except]/[else] arms: what is slept and the next [backoff_delay]. *)
Definition on_failure (bo : backoff) (backoff_delay rnd : Q) : Q * Q :=
  let slept :=
    if Qeq_bool backoff_delay (BACKOFF_MIN bo)
    then (rnd * BACKOFF_INITIAL bo)%Q
    else inject_Z (py_int backoff_delay) in
  let backoff_delay := (backoff_delay * BACKOFF_FACTOR bo)%Q in
  let backoff_delay := py_min backoff_delay (BACKOFF_MAX bo) in
  (slept, backoff_delay).

Record loop_state : Type := Loop {
  self : t;
  backoff_delay : Q;
  trace : list event
}.

Definition finally (a : t) : t :=
  {| _url := _url a; _current_ws := None; _event := false;
     _task := _task a |}.

Definition step (bo : backoff) (st : loop_state) (x : turn) : loop_state :=
  match x with
  | AssignUrl u => Loop (set_url (self st) u) (backoff_delay st) (trace st)
  | Attempt CycleOk =>
      Loop (finally (self st)) (BACKOFF_MIN bo)
           (trace st ++ [EvConnect (_url (self st))])
  | Attempt (CycleRaise rnd) =>
      let '(slept, d) := on_failure bo (backoff_delay st) rnd in
      Loop (finally (self st)) d
           (trace st ++ [EvConnect (_url (self st)); EvWarning; EvSleep slept])
  end.

Definition _run_forever (a : t) (turns : list turn) : loop_state :=
  let bo := snd (_task a) in
  fold_left (step bo) turns (Loop a (BACKOFF_MIN bo) []).

End WebSocketApp.

(* --------------------------------------------------------------------- *)
(** ** Inbound frames and the message dispatcher                          *)
(* --------------------------------------------------------------------- *)

(** [aiohttp.WSMsgType].  [async for msg in ws] ends at the first CLOSE,
    CLOSING or CLOSED message and yields every other one. *)
Inductive WSMsgType : Type :=
| CONTINUATION | TEXT | BINARY | PING | PONG | CLOSE | CLOSING | CLOSED | ERROR.

Record WSMessage : Type := Msg { msg_type : WSMsgType; msg_data : pyval }.

Definition is_TEXT (m : WSMessage) : bool :=
  match msg_type m with TEXT => true | _ => false end.
Definition is_BINARY (m : WSMessage) : bool :=
  match msg_type m with BINARY => true | _ => false end.
Definition is_ERROR (m : WSMessage) : bool :=
  match msg_type m with ERROR => true | _ => false end.

(** What [msg.json()] does: it returns the decoded value, raises
    [json.JSONDecodeError] (whose [doc] is the text it was given), or raises
    something else ([TypeError], [UnicodeDecodeError]). *)
Inductive json_result : Type :=
| JsonOk (data : pyval)
| JSONDecodeError (doc : string)
| JsonRaises.

Module Dispatcher.

(** Which handler list a scheduled call came from (a label of the model;
    the loop itself only sees the callable and its arguments). *)
Inductive kind : Type := KStr | KBytes | KJson.

(** What [loop.call_soon] is given. *)
Inductive callback : Type :=
| CbOnMessage (msg : WSMessage)
| CbHandler (k : kind) (h : handler) (data : pyval).

Inductive log_record : Type :=
| LogWarning (doc : string)     (* logger.warning in _onmessage *)
| LogLoopException.             (* the loop's handler for a failed callback *)

Record onmessage_result : Type := OnMsg {
  scheduled : list callback;
  logged : list log_record;
  raised : bool
}.

Section Dispatch.

Variable msg_json : WSMessage -> json_result.
Variables hdlr_str hdlr_bytes hdlr_json : list handler.

Definition _onmessage (msg : WSMessage) : onmessage_result :=
  let for_str :=
    if is_TEXT msg
    then map (fun h => CbHandler KStr h (msg_data msg)) hdlr_str else [] in
  let for_bytes :=
    if is_BINARY msg
    then map (fun h => CbHandler KBytes h (msg_data msg)) hdlr_bytes
    else [] in
  match hdlr_json with
  | [] => OnMsg (for_str ++ for_bytes) [] false
  | _ :: _ =>
      match msg_json msg with
      | JSONDecodeError doc =>
          OnMsg (for_str ++ for_bytes) [LogWarning doc] false
      | JsonRaises => OnMsg (for_str ++ for_bytes) [] true
      | JsonOk data =>
          OnMsg (for_str ++ for_bytes
                   ++ map (fun h => CbHandler KJson h data) hdlr_json)
                [] false
      end
  end.

(** The event loop around [_ws_receive].  [inbound] holds the frames the
    iterator has yet to yield, [ready] is the loop's FIFO of scheduled
    callbacks, [dispatched] lists the frames whose dispatch was
    scheduled and [calls] the handler calls made, both oldest first. *)
Record loop : Type := Loop {
  inbound : list WSMessage;
  ready : list callback;
  dispatched : list WSMessage;
  calls : list (kind * handler * pyval);
  log : list log_record
}.

Definition start (frames : list WSMessage) : loop :=
  Loop frames [] [] [] [].

(** One turn of [async for msg in ws]: schedule the frame's dispatch. *)
Definition receive_one (st : loop) : option loop :=
  match inbound st with
  | [] => None
  | msg :: rest =>
      Some (Loop rest (ready st ++ [CbOnMessage msg])
                 (dispatched st ++ [msg]) (calls st) (log st))
  end.

(** The loop runs its oldest ready callback; an exception a callback
    raises is handed to the loop's exception handler and goes no
    further. *)
Definition run_one (st : loop) : option loop :=
  match ready st with
  | [] => None
  | CbOnMessage msg :: q =>
      let r := _onmessage msg in
      Some (Loop (inbound st) (q ++ scheduled r) (dispatched st) (calls st)
                 (log st ++ logged r
                    ++ (if raised r then [LogLoopException] else [])))
  | CbHandler k h data :: q =>
      Some (Loop (inbound st) q (dispatched st)
                 (calls st ++ [(k, h, data)]) (log st))
  end.

Inductive step : loop -> loop -> Prop :=
| step_receive st st' : receive_one st = Some st' -> step st st'
| step_run st st' : run_one st = Some st' -> step st st'.

Inductive steps : loop -> loop -> Prop :=
| steps_refl st : steps st st
| steps_more st1 st2 st3 : steps st1 st2 -> step st2 st3 -> steps st1 st3.

Definition quiescent (st : loop) : Prop :=
  inbound st = [] /\ ready st = [].

(** A schedule that exists: read every frame, then let the loop run
    until nothing is ready. *)
Fixpoint receive_all (n : nat) (st : loop) : loop :=
  match n with
  | O => st
  | S n' => match receive_one st with
            | Some st' => receive_all n' st'
            | None => st
            end
  end.

Fixpoint drain (n : nat) (st : loop) : loop :=
  match n with
  | O => st
  | S n' => match run_one st with
            | Some st' => drain n' st'
            | None => st
            end
  end.

Definition _ws_receive (frames : list WSMessage) : loop :=
  let st := receive_all (length frames) (start frames) in
  drain (length frames
           * S (S (length hdlr_str + length hdlr_bytes + length hdlr_json)))
        st.

End Dispatch.

End Dispatcher.

(* --------------------------------------------------------------------- *)
(** ** Coroutines                                                         *)
(* --------------------------------------------------------------------- *)

(** An [async def] is a tree of the effects it performs: what it awaits and
    what it asks of its surroundings.  The answer to an effect selects the
    continuation; an exception raised by the awaited operation is the answer
    [RRaise].  A [while] loop is unrolled [fuel] times and [Spin] stands for
    a coroutine that is still looping beyond that horizon. *)

Inductive exn : Type :=
| KeyError | IndexError | TypeError | AttributeError
| JSONDecodeErr | ConnectionResetError | ClientError | CancelledError.

Inductive frame : Type :=
| FText (s : string)
| FBinary (b : string)
| FPong.

Inductive eff : Type :=
| Transmit (f : frame)     (* aiohttp's own send_str / send_bytes / pong *)
| WaitAuthtask             (* self._wait_authtask() *)
| LockAcquire              (* entering  async with ws._lock *)
| LockRelease              (* leaving   async with ws._lock *)
| Sleep (d : Q)            (* asyncio.sleep(d) *)
| HttpTime (url : string)  (* session.get(url), r.json(), the time in it *)
| IsClosed                 (* ws.closed *)
| Receive                  (* the next item of  async for msg in ws *)
| TimeNow                  (* time.time() *)
| TokenHex (n : nat)       (* secrets.token_hex(n) *)
| Uuid4                    (* uuid.uuid4() *)
| Warn (data : pyval).     (* logger.warning(data) *)

Inductive resp : Type :=
| RUnit
| RBool (b : bool)
| RNum (q : Q)
| RStr (s : string)
| RMsg (m : option WSMessage)   (* None: the iteration is over *)
| RRaise (x : exn).

Inductive coro (R : Type) : Type :=
| Ret (r : R)
| Raise (x : exn)
| Spin
| Do (e : eff) (k : resp -> coro R).

Arguments Ret {R} r.
Arguments Raise {R} x.
Arguments Spin {R}.
Arguments Do {R} e k.

Fixpoint cbind {A B : Type} (c : coro A) (f : A -> coro B) : coro B :=
  match c with
  | Ret a => f a
  | Raise x => Raise x
  | Spin => Spin
  | Do e k => Do e (fun r => cbind (k r) f)
  end.

#[global] Instance coro_ret : MRet coro := fun _ a => Ret a.
#[global] Instance coro_bind : MBind coro := fun _ _ f c => cbind c f.

(** [try: c finally: fin]. *)
Fixpoint try_finally {A : Type} (c : coro A) (fin : coro unit) : coro A :=
  match c with
  | Ret a => cbind fin (fun _ => Ret a)
  | Raise x => cbind fin (fun _ => Raise x)
  | Spin => Spin
  | Do e k => Do e (fun r => try_finally (k r) fin)
  end.

(** Performing one effect, with the type of answer the caller expects. *)
Definition await_unit (e : eff) : coro unit :=
  Do e (fun r => match r with RRaise x => Raise x | _ => Ret tt end).
Definition await_bool (e : eff) : coro bool :=
  Do e (fun r => match r with
                 | RBool b => Ret b | RRaise x => Raise x | _ => Raise TypeError
                 end).
Definition await_num (e : eff) : coro Q :=
  Do e (fun r => match r with
                 | RNum q => Ret q | RRaise x => Raise x | _ => Raise TypeError
                 end).
Definition await_str (e : eff) : coro string :=
  Do e (fun r => match r with
                 | RStr s => Ret s | RRaise x => Raise x | _ => Raise TypeError
                 end).
Definition await_msg (e : eff) : coro (option WSMessage) :=
  Do e (fun r => match r with
                 | RMsg m => Ret m | RRaise x => Raise x | _ => Raise TypeError
                 end).

(** A lookup that raises when the key or index is missing. *)
Definition or_raise {A : Type} (x : exn) (o : option A) : coro A :=
  match o with Some a => Ret a | None => Raise x end.

(** How a coroutine ended, and one run of it against surroundings [env]
    that answer each effect from a state of their own.  The run records
    the state each effect was performed in. *)
Inductive result (R : Type) : Type :=
| Returned (r : R)
| Raised (x : exn)
| Spinning.

Arguments Returned {R} r.
Arguments Raised {R} x.
Arguments Spinning {R}.

Fixpoint run {S R : Type} (env : S -> eff -> S * resp) (s : S) (c : coro R)
  : list (S * eff * resp) * S * result R :=
  match c with
  | Ret r => ([], s, Returned r)
  | Raise x => ([], s, Raised x)
  | Spin => ([], s, Spinning)
  | Do e k =>
      let '(s', r) := env s e in
      let '(tr, s'', res) := run env s' (k r) in
      ((s, e, r) :: tr, s'', res)
  end.

Definition trace_of {S R : Type} (x : list (S * eff * resp) * S * result R)
  : list (S * eff * resp) := fst (fst x).
Definition outcome_of {S R : Type} (x : list (S * eff * resp) * S * result R)
  : result R := snd x.

(** Surroundings that read their answers off a script; when the script is
    used up the coroutine is cancelled. *)
Definition scripted (s : list resp) (e : eff) : list resp * resp :=
  match s with
  | [] => ([], RRaise CancelledError)
  | r :: s' => (s', r)
  end.

Definition effects {S : Type} (tr : list (S * eff * resp)) : list eff :=
  map (fun x => snd (fst x)) tr.

(** The effects of a run with the answers they got. *)
Definition exchanges {S : Type} (tr : list (S * eff * resp))
  : list (eff * resp) :=
  map (fun x => (snd (fst x), snd x)) tr.

Definition is_Transmit (e : eff) : bool :=
  match e with Transmit _ => true | _ => false end.
Definition is_Receive (e : eff) : bool :=
  match e with Receive => true | _ => false end.
Definition is_WaitAuthtask (e : eff) : bool :=
  match e with WaitAuthtask => true | _ => false end.
Definition is_Warn (e : eff) : bool :=
  match e with Warn _ => true | _ => false end.
Definition is_Lock (e : eff) : bool :=
  match e with LockAcquire | LockRelease => true | _ => false end.

(** [all_effects P c]: every effect [c] can perform satisfies [P]. *)
Inductive all_effects {R : Type} (P : eff -> Prop) : coro R -> Prop :=
| ae_ret r : all_effects P (Ret r)
| ae_raise x : all_effects P (Raise x)
| ae_spin : all_effects P Spin
| ae_do e k : P e -> (forall r, all_effects P (k r)) -> all_effects P (Do e k).

(** ** Strings *)

(** The double quote, for JSON text written out in the source. *)
Definition dq : string := String (Ascii.ascii_of_nat 34) EmptyString.
Definition quoted (s : string) : string := dq +:+ s +:+ dq.

Definition startswith (s pre : string) : bool := String.prefix pre s.
Definition endswith (s suf : string) : bool :=
  String.prefix (String.rev suf) (String.rev s).
Fixpoint str_contains (sub s : string) : bool :=
  String.prefix sub s
  || match s with
     | EmptyString => false
     | String _ s' => str_contains sub s'
     end.

(** [k in v], [v[k]] and [v == "s"] for a string [k] and a decoded JSON
    value [v]; [None] is the [TypeError] Python raises. *)
Definition py_eq_str (v : pyval) (s : string) : bool :=
  match v with PyStr s' => String.eqb s' s | _ => false end.

Definition py_in (k : string) (v : pyval) : option bool :=
  match v with
  | PyDict d => Some (match dict_get k d with Some _ => true | None => false end)
  | PyList l => Some (existsb (fun x => py_eq_str x k) l)
  | PyStr s => Some (str_contains k s)
  | _ => None
  end.

Definition py_getitem (v : pyval) (k : string) : coro pyval :=
  match v with
  | PyDict d => or_raise KeyError (dict_get k d)
  | _ => Raise TypeError
  end.

(** What Python's and aiohttp's libraries compute. *)
Class Library : Type := {
  hmac_sha256_hex : string -> string -> string;   (* key, message *)
  hmac_sha256_b64 : string -> string -> string;
  json_dumps : pyval -> string;
  py_str : pyval -> string;                       (* f"{value}" *)
  msg_json : WSMessage -> json_result
}.

(* --------------------------------------------------------------------- *)
(** ** The managed connection and its hooks                               *)
(* --------------------------------------------------------------------- *)

(** What the hooks read off a connection: [ws._response.url.host] and
    [.path], whether [ws._response._auth is _Auth], and the credential store
    [ws._response._session._apis] (name to [(key, secret, passphrase...)]). *)
Record ClientWebSocketResponse : Type := WS {
  url_host : string;
  url_path : string;
  _auth : bool;
  _apis : gmap string (list string)
}.

Record Item (F : Type) : Type := MkItem { name : string; func : F }.
Arguments MkItem {F} name func.
Arguments name {F} i.
Arguments func {F} i.

(** [while not ws.closed: body] and [async for msg in ws: body], where the
    body of the latter says whether it hit [break]. *)
Fixpoint while_not_closed (n : nat) (body : coro unit) : coro unit :=
  match n with
  | O => Spin
  | S n' =>
      c ← await_bool IsClosed;
      if (c : bool) then Ret tt else body;; while_not_closed n' body
  end.

Fixpoint async_for (n : nat) (body : WSMessage -> coro bool) : coro unit :=
  match n with
  | O => Spin
  | S n' =>
      m ← await_msg Receive;
      match m with
      | None => Ret tt
      | Some msg => b ← body msg; if (b : bool) then Ret tt else async_for n' body
      end
  end.

Definition async_with_lock {A : Type} (body : coro A) : coro A :=
  await_unit LockAcquire;; try_finally body (await_unit LockRelease).

Module RequestLimit.

Section Hooks.
Variable fuel : nat.

Definition gmocoin_status : string := "https://api.coin.z.com/public/v1/status".
Definition binance_time : string := "https://api.binance.com/api/v3/time".

(** [while True: sleep; poll; if delta >= 1.0: break] *)
Fixpoint gmocoin_poll (n : nat) (before : Q) : coro unit :=
  match n with
  | O => Spin
  | S n' =>
      await_unit (Sleep 1);;
      after ← await_num (HttpTime gmocoin_status);
      if Qle_bool 1 (after - before) then Ret tt else gmocoin_poll n' before
  end.

Definition gmocoin (ws : ClientWebSocketResponse) (send_str : coro unit)
  : coro unit :=
  async_with_lock
    (send_str;;
     before ← await_num (HttpTime gmocoin_status);
     gmocoin_poll fuel before).

(** [while True: sleep; poll; if delta > 0.25: break] *)
Fixpoint binance_poll (n : nat) (before : Q) : coro unit :=
  match n with
  | O => Spin
  | S n' =>
      await_unit (Sleep (1 # 4));;
      after ← await_num (HttpTime binance_time);
      if negb (Qle_bool (after - before) (1 # 4)) then Ret tt
      else binance_poll n' before
  end.

Definition binance (ws : ClientWebSocketResponse) (send_str : coro unit)
  : coro unit :=
  async_with_lock
    (send_str;;
     before ← await_num (HttpTime binance_time);
     binance_poll fuel before).

End Hooks.

End RequestLimit.

Module RequestLimitHosts.
Definition items (fuel : nat)
  : gmap string (ClientWebSocketResponse -> coro unit -> coro unit) :=
  list_to_map
    [ ("api.coin.z.com", RequestLimit.gmocoin fuel);
      ("stream.binance.com", RequestLimit.binance fuel) ].
End RequestLimitHosts.

(** [" & ".join], [sorted(params.items())]. *)
Fixpoint str_join (sep : string) (l : list string) : string :=
  match l with
  | [] => ""
  | [x] => x
  | x :: l' => x +:+ sep +:+ str_join sep l'
  end.

Fixpoint insert_item (x : string * pyval) (l : list (string * pyval))
  : list (string * pyval) :=
  match l with
  | [] => [x]
  | y :: l' =>
      if String.leb (fst x) (fst y) then x :: y :: l' else y :: insert_item x l'
  end.

Definition sorted_items (d : list (string * pyval)) : list (string * pyval) :=
  fold_right insert_item [] d.

Module MessageSign.

Section Hooks.
Context `{Library}.

(** The [name] column of [MessageSignHosts.items], which the hook reads
    back as [MessageSignHosts.items[host].name]. *)
Definition names : gmap string string :=
  list_to_map
    [ ("ws-api.binance.com", "binance");
      ("testnet.binance.vision", "binance_testnet") ].

(** The three assignments to [params] and the signature between them. *)
Definition sign_params (key secret : string) (timestamp : Z)
    (params : list (string * pyval)) : list (string * pyval) :=
  let params := dict_set "apiKey" (PyStr key) params in
  let params := dict_set "timestamp" (PyInt timestamp) params in
  let payload :=
    str_join "&"
      (map (fun '(param, value) => param +:+ "=" +:+ py_str value)
           (sorted_items params)) in
  let signature := hmac_sha256_hex secret payload in
  dict_set "signature" (PyStr signature) params.

(** The hook returns nothing; the value here is [data] as the call
    leaves it, the object [send_json] goes on to serialise. *)
Definition binance (ws : ClientWebSocketResponse) (data : pyval)
  : coro pyval :=
  nm ← or_raise KeyError (names !! url_host ws);
  creds ← or_raise KeyError (_apis ws !! nm);
  key ← or_raise IndexError (creds !! 0%nat);
  secret ← or_raise IndexError (creds !! 1%nat);
  if negb (startswith (url_path ws) "/ws-api") then Ret data
  else
    match data with
    | PyDict d =>
        match dict_get "params" d with
        | Some (PyDict params) =>
            now ← await_num TimeNow;
            let timestamp := py_int (now * 1000) in
            Ret (PyDict
                   (dict_set "params"
                      (PyDict (sign_params key secret timestamp params)) d))
        | _ => Ret data
        end
    | _ => Raise AttributeError
    end.

End Hooks.

End MessageSign.

Module MessageSignHosts.
Section Items.
Context `{Library}.
Definition items
  : gmap string (Item (ClientWebSocketResponse -> pyval -> coro pyval)) :=
  list_to_map
    [ ("ws-api.binance.com", MkItem "binance" MessageSign.binance);
      ("testnet.binance.vision",
       MkItem "binance_testnet" MessageSign.binance) ].
End Items.
End MessageSignHosts.

(** *** The send methods of [ClientWebSocketResponse] *)

Section Send.
Context `{Library}.
Variable fuel : nat.

(** aiohttp's own methods: the physical sends. *)
Definition super_send_str (s : string) : coro unit :=
  await_unit (Transmit (FText s)).
Definition super_send_bytes (b : string) : coro unit :=
  await_unit (Transmit (FBinary b)).
Definition pong : coro unit := await_unit (Transmit FPong).

Definition send_str (ws : ClientWebSocketResponse) (s : string) : coro unit :=
  match RequestLimitHosts.items fuel !! url_host ws with
  | None => super_send_str s
  | Some limit => limit ws (super_send_str s)
  end.

(** The class does not override [send_bytes]. *)
Definition send_bytes (ws : ClientWebSocketResponse) (b : string) : coro unit :=
  super_send_bytes b.

Definition _wait_authtask : coro unit := await_unit WaitAuthtask.

(** The test guarding the sign hook: [auth] is whether the keyword
    argument [auth] was left at [_Auth]. *)
Definition sign_hook (ws : ClientWebSocketResponse) (auth : bool)
  : option (ClientWebSocketResponse -> pyval -> coro pyval) :=
  if auth then
    match MessageSignHosts.items !! url_host ws with
    | Some it =>
        match _apis ws !! name it with
        | Some _ => Some (func it)
        | None => None
        end
    | None => None
    end
  else None.

(** [super().send_json(data)] is aiohttp's
    [await self.send_str(dumps(data))], which lands in the [send_str]
    above. *)
Definition send_json (ws : ClientWebSocketResponse) (data : pyval)
    (_itself auth : bool) : coro unit :=
  (if negb _itself then _wait_authtask else Ret tt);;
  data ← match sign_hook ws auth with
         | Some sign => if py_truthy data then sign ws data else Ret data
         | None => Ret data
         end;
  send_str ws (json_dumps data).

End Send.

Module Heartbeat.

Section Hooks.
Context `{Library}.
Variable fuel : nat.

Definition bybit (ws : ClientWebSocketResponse) : coro unit :=
  while_not_closed fuel
    (send_str fuel ws ("{" +:+ quoted "op" +:+ ":" +:+ quoted "ping" +:+ "}");;
     await_unit (Sleep 30)).

Definition bitbank (ws : ClientWebSocketResponse) : coro unit :=
  while_not_closed fuel (send_str fuel ws "2";; await_unit (Sleep 15)).

Definition binance (ws : ClientWebSocketResponse) : coro unit :=
  while_not_closed fuel (pong;; await_unit (Sleep 60)).

Definition phemex (ws : ClientWebSocketResponse) : coro unit :=
  while_not_closed fuel
    (send_str fuel ws
       ("{" +:+ quoted "method" +:+ ":" +:+ quoted "server.ping" +:+ ","
            +:+ quoted "params" +:+ ":[]," +:+ quoted "id" +:+ ":123}");;
     await_unit (Sleep 10)).

Definition okx (ws : ClientWebSocketResponse) : coro unit :=
  while_not_closed fuel (send_str fuel ws "ping";; await_unit (Sleep 15)).

Definition bitget (ws : ClientWebSocketResponse) : coro unit :=
  while_not_closed fuel (send_str fuel ws "ping";; await_unit (Sleep 25)).

Definition mexc (ws : ClientWebSocketResponse) : coro unit :=
  while_not_closed fuel
    (send_str fuel ws ("{" +:+ quoted "method" +:+ ":" +:+ quoted "ping" +:+ "}");;
     await_unit (Sleep 10)).

Definition kucoin (ws : ClientWebSocketResponse) : coro unit :=
  while_not_closed fuel
    (u ← await_str Uuid4;
     send_str fuel ws
       ("{" +:+ quoted "id" +:+ ": " +:+ quoted u +:+ ", "
            +:+ quoted "type" +:+ ": " +:+ quoted "ping" +:+ "}");;
     await_unit (Sleep 15)).

End Hooks.

End Heartbeat.

Module HeartbeatHosts.
Section Items.
Context `{Library}.
Variable fuel : nat.

Definition items : gmap string (ClientWebSocketResponse -> coro unit) :=
  list_to_map
    [ ("stream.bitbank.cc", Heartbeat.bitbank fuel);
      ("stream.bybit.com", Heartbeat.bybit fuel);
      ("stream.bytick.com", Heartbeat.bybit fuel);
      ("stream-testnet.bybit.com", Heartbeat.bybit fuel);
      ("stream.binance.com", Heartbeat.binance fuel);
      ("fstream.binance.com", Heartbeat.binance fuel);
      ("dstream.binance.com", Heartbeat.binance fuel);
      ("vstream.binance.com", Heartbeat.binance fuel);
      ("stream.binancefuture.com", Heartbeat.binance fuel);
      ("dstream.binancefuture.com", Heartbeat.binance fuel);
      ("testnet.binanceops.com", Heartbeat.binance fuel);
      ("testnetws.binanceops.com", Heartbeat.binance fuel);
      ("phemex.com", Heartbeat.phemex fuel);
      ("api.phemex.com", Heartbeat.phemex fuel);
      ("vapi.phemex.com", Heartbeat.phemex fuel);
      ("testnet.phemex.com", Heartbeat.phemex fuel);
      ("testnet-api.phemex.com", Heartbeat.phemex fuel);
      ("ws.okx.com", Heartbeat.okx fuel);
      ("wsaws.okx.com", Heartbeat.okx fuel);
      ("wspap.okx.com", Heartbeat.okx fuel);
      ("ws.bitget.com", Heartbeat.bitget fuel);
      ("contract.mexc.com", Heartbeat.mexc fuel);
      ("ws-api.kucoin.com", Heartbeat.kucoin fuel) ].
End Items.
End HeartbeatHosts.

(** [round(x)] to an integer: the nearest one, a tie going to the even. *)
Definition py_round (x : Q) : Z :=
  let f := Qfloor x in
  match ((x - inject_Z f) ?= (1 # 2))%Q with
  | Lt => f
  | Gt => (f + 1)%Z
  | Eq => if Z.even f then f else (f + 1)%Z
  end.

Module Auth.

Section Hooks.
Context `{Library}.
Variable fuel : nat.

(** The [name] column of [AuthHosts.items], which the hooks read back as
    [AuthHosts.items[host].name]. *)
Definition names : gmap string string :=
  list_to_map
    [ ("stream.bybit.com", "bybit");
      ("stream.bytick.com", "bybit");
      ("stream-testnet.bybit.com", "bybit_testnet");
      ("ws.lightstream.bitflyer.com", "bitflyer");
      ("phemex.com", "phemex");
      ("api.phemex.com", "phemex");
      ("vapi.phemex.com", "phemex");
      ("testnet.phemex.com", "phemex_testnet");
      ("testnet-api.phemex.com", "phemex_testnet");
      ("ws.okx.com", "okx");
      ("wsaws.okx.com", "okx");
      ("wspap.okx.com", "okx_demo");
      ("ws.bitget.com", "bitget");
      ("contract.mexc.com", "mexc") ].

(** [ws._response._session.__dict__["_apis"][AuthHosts.items[host].name][i]] *)
Definition credential (ws : ClientWebSocketResponse) (i : nat) : coro string :=
  nm ← or_raise KeyError (names !! url_host ws);
  creds ← or_raise KeyError (_apis ws !! nm);
  or_raise IndexError (creds !! i).

(** [data = msg.json()] outside any [try]. *)
Definition json_or_raise (msg : WSMessage) : coro pyval :=
  match msg_json msg with
  | JsonOk data => Ret data
  | JSONDecodeError _ => Raise JSONDecodeErr
  | JsonRaises => Raise TypeError
  end.

Definition contains (k : string) (data : pyval) : coro bool :=
  or_raise TypeError (py_in k data).

Definition break : coro bool := Ret true.
Definition continue : coro bool := Ret false.

Definition bybit_handshake (key : string) (expires : Z) (signature : string)
  : pyval :=
  PyDict [("op", PyStr "auth");
          ("args", PyList [PyStr key; PyInt expires; PyStr signature])].

Definition bybit_body (msg : WSMessage) : coro bool :=
  if is_TEXT msg then
    data ← json_or_raise msg;
    has_success ← contains "success" data;
    if (has_success : bool) then
      v ← py_getitem data "success";
      if py_truthy v then break
      else await_unit (Warn data);; continue
    else
      has_auth ← contains "auth" data;
      if (has_auth : bool) then break
      else
        has_code ← contains "code" data;
        if (has_code : bool) then await_unit (Warn data);; continue
        else continue
  else if is_ERROR msg then break
  else continue.

Definition bybit (ws : ClientWebSocketResponse) : coro unit :=
  if str_contains "public" (url_path ws)
     || startswith (url_path ws) "/spot/quote"
  then Ret tt
  else
    key ← credential ws 0;
    secret ← credential ws 1;
    now ← await_num TimeNow;
    let expires := py_int ((now + 5) * 1000) in
    let path := "GET/realtime" +:+ py_str (PyInt expires) in
    let signature := hmac_sha256_hex secret path in
    send_json fuel ws (bybit_handshake key expires signature) true true;;
    async_for fuel bybit_body.

Definition bitflyer_handshake (key : string) (timestamp : Z)
    (nonce sign : string) : pyval :=
  PyDict [("method", PyStr "auth");
          ("params", PyDict [("api_key", PyStr key);
                             ("timestamp", PyInt timestamp);
                             ("nonce", PyStr nonce);
                             ("signature", PyStr sign)]);
          ("id", PyStr "auth")].

Definition bitflyer_body (msg : WSMessage) : coro bool :=
  if is_TEXT msg then
    data ← json_or_raise msg;
    has_error ← contains "error" data;
    (if (has_error : bool) then await_unit (Warn data) else Ret tt);;
    has_id ← contains "id" data;
    if (has_id : bool) then
      v ← py_getitem data "id";
      if py_eq_str v "auth" then break else continue
    else continue
  else if is_ERROR msg then break
  else continue.

Definition bitflyer (ws : ClientWebSocketResponse) : coro unit :=
  key ← credential ws 0;
  secret ← credential ws 1;
  now ← await_num TimeNow;
  let timestamp := py_int (now * 1000) in
  nonce ← await_str (TokenHex 16);
  let sign :=
    hmac_sha256_hex secret (py_str (PyInt timestamp) +:+ nonce) in
  send_json fuel ws (bitflyer_handshake key timestamp nonce sign) true true;;
  async_for fuel bitflyer_body.

Definition phemex_handshake (key signature : string) (expiry : Z) : pyval :=
  PyDict [("method", PyStr "user.auth");
          ("params", PyList [PyStr "API"; PyStr key; PyStr signature;
                             PyInt expiry]);
          ("id", PyInt 123)].

(** [v == {"status": "success"}] *)
Definition is_status_success (v : pyval) : bool :=
  match v with
  | PyDict [(k, s)] => String.eqb k "status" && py_eq_str s "success"
  | _ => false
  end.

Definition phemex_body (msg : WSMessage) : coro bool :=
  if is_TEXT msg then
    data ← json_or_raise msg;
    has_error ← contains "error" data;
    (if (has_error : bool) then
       e ← py_getitem data "error";
       if negb (is_None e) then await_unit (Warn data) else Ret tt
     else Ret tt);;
    r ← py_getitem data "result";
    if is_status_success r then break else continue
  else if is_ERROR msg then break
  else continue.

Definition phemex (ws : ClientWebSocketResponse) : coro unit :=
  key ← credential ws 0;
  secret ← credential ws 1;
  now ← await_num TimeNow;
  let expiry := py_int (now + 60) in
  let signature :=
    hmac_sha256_hex secret (key +:+ py_str (PyInt expiry)) in
  send_json fuel ws (phemex_handshake key signature expiry) true true;;
  async_for fuel phemex_body.

Definition okx_handshake (key passphrase timestamp sign : string) : pyval :=
  PyDict [("op", PyStr "login");
          ("args", PyList [PyDict [("apiKey", PyStr key);
                                   ("passphrase", PyStr passphrase);
                                   ("timestamp", PyStr timestamp);
                                   ("sign", PyStr sign)]])].

(** Only [json.JSONDecodeError] is caught by the [try]. *)
Definition okx_body (msg : WSMessage) : coro bool :=
  if is_TEXT msg then
    match msg_json msg with
    | JSONDecodeError _ => continue
    | JsonRaises => Raise TypeError
    | JsonOk data =>
        ev ← py_getitem data "event";
        (if py_eq_str ev "error" then await_unit (Warn data) else Ret tt);;
        ev ← py_getitem data "event";
        if py_eq_str ev "login" then break else continue
    end
  else if is_ERROR msg then break
  else continue.

Definition okx (ws : ClientWebSocketResponse) : coro unit :=
  if endswith (url_path ws) "public" then Ret tt
  else
    key ← credential ws 0;
    secret ← credential ws 1;
    passphrase ← credential ws 2;
    now ← await_num TimeNow;
    let timestamp := py_str (PyInt (py_int now)) in
    let text := timestamp +:+ "GET/users/self/verify" in
    let sign := hmac_sha256_b64 secret text in
    send_json fuel ws (okx_handshake key passphrase timestamp sign) true true;;
    async_for fuel okx_body.

Definition bitget_handshake (key passphrase timestamp sign : string)
  : pyval :=
  PyDict [("op", PyStr "login");
          ("args", PyList [PyDict [("api_key", PyStr key);
                                   ("passphrase", PyStr passphrase);
                                   ("timestamp", PyStr timestamp);
                                   ("sign", PyStr sign)]])].

Definition bitget_body (msg : WSMessage) : coro bool :=
  if is_TEXT msg then
    match msg_json msg with
    | JSONDecodeError _ => continue
    | JsonRaises => Raise TypeError
    | JsonOk data =>
        has_event ← contains "event" data;
        if (has_event : bool) then
          ev ← py_getitem data "event";
          if py_eq_str ev "login" then break
          else if py_eq_str ev "error"
               then await_unit (Warn data);; break
               else continue
        else continue
    end
  else if is_ERROR msg then break
  else continue.

Definition bitget (ws : ClientWebSocketResponse) : coro unit :=
  key ← credential ws 0;
  secret ← credential ws 1;
  passphrase ← credential ws 2;
  now ← await_num TimeNow;
  let timestamp := py_round now in
  let sign :=
    hmac_sha256_b64 secret (py_str (PyInt timestamp) +:+ "GET/user/verify") in
  send_json fuel ws
    (bitget_handshake key passphrase (py_str (PyInt timestamp)) sign)
    true true;;
  async_for fuel bitget_body.

Definition mexc_handshake (key timestamp sign : string) : pyval :=
  PyDict [("method", PyStr "login");
          ("param", PyDict [("apiKey", PyStr key);
                            ("reqTime", PyStr timestamp);
                            ("signature", PyStr sign)])].

Definition mexc (ws : ClientWebSocketResponse) : coro unit :=
  key ← credential ws 0;
  secret ← credential ws 1;
  now ← await_num TimeNow;
  let timestamp := py_str (PyInt (py_int now)) in
  let sign := hmac_sha256_hex secret (key +:+ timestamp) in
  send_json fuel ws (mexc_handshake key timestamp sign) true true.

Definition kucoin (ws : ClientWebSocketResponse) : coro unit := Ret tt.

End Hooks.

End Auth.

Module AuthHosts.
Section Items.
Context `{Library}.
Variable fuel : nat.

Definition items : gmap string (Item (ClientWebSocketResponse -> coro unit)) :=
  list_to_map
    [ ("stream.bybit.com", MkItem "bybit" (Auth.bybit fuel));
      ("stream.bytick.com", MkItem "bybit" (Auth.bybit fuel));
      ("stream-testnet.bybit.com", MkItem "bybit_testnet" (Auth.bybit fuel));
      ("ws.lightstream.bitflyer.com", MkItem "bitflyer" (Auth.bitflyer fuel));
      ("phemex.com", MkItem "phemex" (Auth.phemex fuel));
      ("api.phemex.com", MkItem "phemex" (Auth.phemex fuel));
      ("vapi.phemex.com", MkItem "phemex" (Auth.phemex fuel));
      ("testnet.phemex.com", MkItem "phemex_testnet" (Auth.phemex fuel));
      ("testnet-api.phemex.com", MkItem "phemex_testnet" (Auth.phemex fuel));
      ("ws.okx.com", MkItem "okx" (Auth.okx fuel));
      ("wsaws.okx.com", MkItem "okx" (Auth.okx fuel));
      ("wspap.okx.com", MkItem "okx_demo" (Auth.okx fuel));
      ("ws.bitget.com", MkItem "bitget" (Auth.bitget fuel));
      ("contract.mexc.com", MkItem "mexc" (Auth.mexc fuel)) ].
End Items.
End AuthHosts.

(** *** [ClientWebSocketResponse.__init__]: the background tasks *)

Record tasks : Type := Tasks {
  _pingtask : option (coro unit);
  _authtask : option (coro unit)
}.

Section Init.
Context `{Library}.
Variable fuel : nat.

Definition __init__ (ws : ClientWebSocketResponse) : tasks :=
  {| _pingtask :=
       match HeartbeatHosts.items fuel !! url_host ws with
       | Some hook => Some (hook ws)
       | None => None
       end;
     _authtask :=
       if _auth ws then
         match AuthHosts.items fuel !! url_host ws with
         | Some it =>
             match _apis ws !! name it with
             | Some _ => Some (func it ws)
             | None => None
             end
         | None => None
         end
       else None |}.

End Init.

(* --------------------------------------------------------------------- *)
(** ** Tasks sharing one connection                                       *)
(* --------------------------------------------------------------------- *)

(** The event loop interleaves the tasks of one connection at their
    effects.  Each task keeps the coroutine it was started from next to
    what is left of it; each physical send records who made it and, at that
    moment, whether the Auth task was still running and who held
    [ws._lock]. *)
Module Tasks.

Record task : Type := Task { origin : coro unit; rest : coro unit }.

Record sent : Type := Sent {
  by_task : nat;
  sent_frame : frame;
  auth_running : bool;
  lock_holder : option nat
}.

Record sys : Type := Sys {
  pool : list task;
  authtask : option nat;     (* index of self.__dict__["_authtask"] *)
  lock : option nat;         (* who holds ws._lock *)
  closed : bool;
  wire : list sent
}.

Definition done (c : coro unit) : bool :=
  match c with Ret _ | Raise _ => true | _ => false end.

Definition auth_pending (st : sys) : bool :=
  match authtask st with
  | None => false
  | Some a =>
      match pool st !! a with
      | Some t => negb (done (rest t))
      | None => false
      end
  end.

(** The effects at which a task is suspended and can be cancelled. *)
Definition suspends (e : eff) : bool :=
  match e with
  | Transmit _ | WaitAuthtask | LockAcquire | Sleep _ | HttpTime _ | Receive =>
      true
  | _ => false
  end.

Definition with_wire (st : sys) (w : list sent) : sys :=
  Sys (pool st) (authtask st) (lock st) (closed st) w.
Definition with_lock (st : sys) (l : option nat) : sys :=
  Sys (pool st) (authtask st) l (closed st) (wire st).
Definition with_pool (st : sys) (p : list task) : sys :=
  Sys p (authtask st) (lock st) (closed st) (wire st).
Definition with_closed (st : sys) : sys :=
  Sys (pool st) (authtask st) (lock st) true (wire st).

(** [answers st i e r st']: task [i] performing [e] in [st] may get the
    answer [r], leaving [st']. *)
Inductive answers (st : sys) (i : nat) : eff -> resp -> sys -> Prop :=
| ans_transmit f :
    closed st = false ->
    answers st i (Transmit f) RUnit
      (with_wire st (wire st ++ [Sent i f (auth_pending st) (lock st)]))
| ans_transmit_closed f :
    closed st = true ->
    answers st i (Transmit f) (RRaise ConnectionResetError) st
| ans_wait_none :
    authtask st = None -> answers st i WaitAuthtask RUnit st
| ans_wait_done a t r :
    authtask st = Some a -> pool st !! a = Some t -> rest t = Ret r ->
    answers st i WaitAuthtask RUnit st
| ans_wait_failed a t x :
    authtask st = Some a -> pool st !! a = Some t -> rest t = Raise x ->
    answers st i WaitAuthtask (RRaise x) st
| ans_acquire :
    lock st = None -> answers st i LockAcquire RUnit (with_lock st (Some i))
| ans_release :
    answers st i LockRelease RUnit (with_lock st None)
| ans_sleep d : answers st i (Sleep d) RUnit st
| ans_http url q : answers st i (HttpTime url) (RNum q) st
| ans_http_error url : answers st i (HttpTime url) (RRaise ClientError) st
| ans_closed : answers st i IsClosed (RBool (closed st)) st
| ans_receive m : answers st i Receive (RMsg m) st
| ans_now q : answers st i TimeNow (RNum q) st
| ans_token n s : answers st i (TokenHex n) (RStr s) st
| ans_uuid s : answers st i Uuid4 (RStr s) st
| ans_warn data : answers st i (Warn data) RUnit st
| ans_cancelled e :
    suspends e = true -> answers st i e (RRaise CancelledError) st.

Inductive step : sys -> sys -> Prop :=
| step_task st i t e k r st' :
    pool st !! i = Some t -> rest t = Do e k ->
    answers st i e r st' ->
    step st (with_pool st' (<[i := Task (origin t) (k r)]> (pool st')))
| step_spawn st c :
    step st (with_pool st (pool st ++ [Task c c]))
| step_close st :
    step st (with_closed st).

Inductive steps : sys -> sys -> Prop :=
| steps_refl st : steps st st
| steps_more st1 st2 st3 : steps st1 st2 -> step st2 st3 -> steps st1 st3.

(** A schedule, to run the tasks on examples: which task moves and what
    it is answered, a new task, or the socket closing.  [perform] accepts
    an answer only if [answers] allows it. *)
Inductive action : Type :=
| Act (i : nat) (r : resp)
| Spawn (c : coro unit)
| Close.

Definition perform (st : sys) (i : nat) (e : eff) (r : resp) : option sys :=
  match e, r with
  | Transmit f, RUnit =>
      if closed st then None
      else Some (with_wire st
                   (wire st ++ [Sent i f (auth_pending st) (lock st)]))
  | Transmit f, RRaise ConnectionResetError =>
      if closed st then Some st else None
  | WaitAuthtask, RUnit =>
      match authtask st with
      | None => Some st
      | Some a =>
          match pool st !! a with
          | Some t => match rest t with Ret _ => Some st | _ => None end
          | None => None
          end
      end
  | LockAcquire, RUnit =>
      match lock st with
      | None => Some (with_lock st (Some i))
      | Some _ => None
      end
  | LockRelease, RUnit => Some (with_lock st None)
  | Sleep _, RUnit => Some st
  | HttpTime _, RNum _ => Some st
  | IsClosed, RBool b => if Bool.eqb b (closed st) then Some st else None
  | Receive, RMsg _ => Some st
  | TimeNow, RNum _ => Some st
  | TokenHex _, RStr _ => Some st
  | Uuid4, RStr _ => Some st
  | Warn _, RUnit => Some st
  | _, RRaise CancelledError => if suspends e then Some st else None
  | _, _ => None
  end.

Definition act (st : sys) (a : action) : option sys :=
  match a with
  | Act i r =>
      match pool st !! i with
      | Some t =>
          match rest t with
          | Do e k =>
              match perform st i e r with
              | Some st' =>
                  Some (with_pool st'
                          (<[i := Task (origin t) (k r)]> (pool st')))
              | None => None
              end
          | _ => None
          end
      | None => None
      end
  | Spawn c => Some (with_pool st (pool st ++ [Task c c]))
  | Close => Some (with_closed st)
  end.

Fixpoint exec (acts : list action) (st : sys) : option sys :=
  match acts with
  | [] => Some st
  | a :: acts' =>
      match act st a with
      | Some st' => exec acts' st'
      | None => None
      end
  end.

(** A connection as [__init__] leaves it: the Auth task, when there is
    one, is the only task and nothing has been sent. *)
Definition opened (auth : option (coro unit)) : sys :=
  match auth with
  | Some c => Sys [Task c c] (Some 0%nat) None false []
  | None => Sys [] None None false []
  end.

(** [bracketed gated holding c]: [c] releases the lock only while it
    holds it, ends without it, and, when [gated], transmits only while it
    holds it.  [holding] says whether [c] starts with the lock. *)
Definition failed (r : resp) : bool :=
  match r with RRaise _ => true | _ => false end.

Inductive bracketed (gated : bool) : bool -> coro unit -> Prop :=
| br_ret r : bracketed gated false (Ret r)
| br_raise x : bracketed gated false (Raise x)
| br_spin h : bracketed gated h Spin
| br_acquire k :
    (forall r, bracketed gated (negb (failed r)) (k r)) ->
    bracketed gated false (Do LockAcquire k)
| br_release k :
    (forall r, bracketed gated false (k r)) ->
    bracketed gated true (Do LockRelease k)
| br_transmit f h k :
    (gated = true -> h = true) ->
    (forall r, bracketed gated h (k r)) ->
    bracketed gated h (Do (Transmit f) k)
| br_other e h k :
    is_Lock e = false -> is_Transmit e = false ->
    (forall r, bracketed gated h (k r)) ->
    bracketed gated h (Do e k).

End Tasks.

(* --------------------------------------------------------------------- *)
(** ** Observations used by the statements                                *)
(* --------------------------------------------------------------------- *)

Section Observations.
Import WebSocketApp.

(** The urls the supervisor connected to, oldest first. *)
Definition connects (tr : list event) : list string :=
  flat_map (fun e => match e with EvConnect u => [u] | _ => [] end) tr.

(** The url in force at each attempt: the latest one assigned, the
    initial one before any assignment. *)
Fixpoint urls_in_force (u : string) (turns : list turn) : list string :=
  match turns with
  | [] => []
  | AssignUrl v :: rest => urls_in_force v rest
  | Attempt _ :: rest => u :: urls_in_force u rest
  end.

(** The durations the supervisor slept, oldest first. *)
Definition sleeps (tr : list event) : list Q :=
  flat_map (fun e => match e with EvSleep d => [d] | _ => [] end) tr.

(** [k] failed attempts in a row, with the random draws they would use. *)
Definition failures (rs : list Q) : list turn :=
  map (fun r => Attempt (CycleRaise r)) rs.

End Observations.

(** A stand-in for the libraries, to run the model on examples: the text
    [1] decodes to the number one, [{}] to the empty object, any other text
    fails to decode and anything but text is refused. *)
Definition sample_json (msg : WSMessage) : json_result :=
  match msg_data msg with
  | PyStr s =>
      if String.eqb s "1" then JsonOk (PyInt 1)
      else if String.eqb s "{}" then JsonOk (PyDict [])
      else JSONDecodeError s
  | _ => JsonRaises
  end.

(** Stand-ins for the other library functions, to the same end. *)
Definition sample_library : Library := {|
  hmac_sha256_hex := fun key m => "hex(" +:+ key +:+ "," +:+ m +:+ ")";
  hmac_sha256_b64 := fun key m => "b64(" +:+ key +:+ "," +:+ m +:+ ")";
  json_dumps := fun v =>
    match v with
    | PyDict ((k, PyStr s) :: _) => k +:+ "=" +:+ s
    | PyStr s => s
    | _ => "json"
    end;
  py_str := fun v =>
    match v with
    | PyStr s => s
    | PyInt z => if Z.eqb z 0 then "0" else "int"
    | _ => "obj"
    end;
  msg_json := sample_json
|}.

Section DispatchObservations.
Import Dispatcher.

Variable msg_json : WSMessage -> json_result.
Variables hdlr_str hdlr_bytes hdlr_json : list handler.

Definition same_kind (a b : kind) : bool :=
  match a, b with
  | KStr, KStr | KBytes, KBytes | KJson, KJson => true
  | _, _ => false
  end.

(** The handler calls of one kind among those made. *)
Definition calls_of (k : kind) (cs : list (kind * handler * pyval))
  : list (handler * pyval) :=
  flat_map (fun c => if same_kind k (fst (fst c))
                     then [(snd (fst c), snd c)] else []) cs.

(** The handler calls of one kind waiting in the ready queue. *)
Definition queued_of (k : kind) (q : list callback) : list (handler * pyval) :=
  flat_map (fun cb => match cb with
                      | CbHandler k' h d =>
                          if same_kind k k' then [(h, d)] else []
                      | CbOnMessage _ => []
                      end) q.

(** The handler calls of one kind the dispatch of a frame schedules. *)
Definition deliveries (k : kind) (msg : WSMessage) : list (handler * pyval) :=
  queued_of k
    (scheduled (_onmessage msg_json hdlr_str hdlr_bytes hdlr_json msg)).

(** The same for the dispatches still waiting in the ready queue. *)
Definition undispatched_of (k : kind) (q : list callback)
  : list (handler * pyval) :=
  flat_map (fun cb => match cb with
                      | CbOnMessage msg => deliveries k msg
                      | CbHandler _ _ _ => []
                      end) q.

(** How many loop turns the callbacks of a ready queue can still take. *)
Definition weight (q : list callback) : nat :=
  fold_right
    (fun cb n =>
       match cb with
       | CbOnMessage _ =>
           S (S (length hdlr_str + length hdlr_bytes + length hdlr_json)) + n
       | CbHandler _ _ _ => S n
       end)%nat 0%nat q.

(** The calls of kind [k] made, queued, yet to be dispatched and yet to be
    read always add up to the deliveries of all frames, in order. *)
Definition accounted_for (k : kind) (frames : list WSMessage) (st : loop) : Prop :=
  calls_of k (calls st) ++ queued_of k (ready st)
    ++ undispatched_of k (ready st) ++ flat_map (deliveries k) (inbound st)
  = flat_map (deliveries k) frames.

(** What the dispatch of a frame writes to the log, and the same tally
    for the log. *)
Definition log_of (msg : WSMessage) : list log_record :=
  let r := _onmessage msg_json hdlr_str hdlr_bytes hdlr_json msg in
  logged r ++ (if raised r then [LogLoopException] else []).

Definition unlogged_of (q : list callback) : list log_record :=
  flat_map (fun cb => match cb with
                      | CbOnMessage msg => log_of msg
                      | CbHandler _ _ _ => []
                      end) q.

Definition log_accounted_for (frames : list WSMessage) (st : loop) : Prop :=
  log st ++ unlogged_of (ready st) ++ flat_map log_of (inbound st)
  = flat_map log_of frames.

End DispatchObservations.

Section GateObservations.
Context `{Library}.
Variable fuel : nat.
Variable ws : ClientWebSocketResponse.
Import Tasks.

(** A task that is one [send_json] call not marked as the hook's own. *)
Definition gated_send (c : coro unit) : Prop :=
  exists data auth, c = send_json fuel ws data false auth.

(** What holds of every state the tasks can reach: a gated send that has
    begun and is not over implies the Auth task is, and whatever a gated
    send put on the wire went out with the Auth task over. *)
Definition gate_invariant (st : sys) : Prop :=
  (forall a, authtask st = Some a -> (a < length (pool st))%nat)
  /\ (forall s, In s (wire st) -> (by_task s < length (pool st))%nat)
  /\ (forall i t, pool st !! i = Some t -> gated_send (origin t) ->
        rest t = origin t \/ done (rest t) = true \/ auth_pending st = false)
  /\ (forall s t, In s (wire st) -> pool st !! by_task s = Some t ->
        gated_send (origin t) -> auth_running s = false).

End GateObservations.

(** *** The order of an Auth hook's effects

    Before its handshake a hook may read the clock and draw a nonce; it
    sends once; it reads inbound frames only after sending and logs
    warnings only after reading; it never waits for the Auth task, takes
    the lock, sleeps or polls. *)
Inductive phase : Type := Before | Sent | Reading.

Definition next_phase (p : phase) (e : eff) : option phase :=
  match e, p with
  | TimeNow, Before | TokenHex _, Before => Some Before
  | Transmit _, Before => Some Sent
  | Receive, Sent | Receive, Reading => Some Reading
  | Warn _, Reading => Some Reading
  | _, _ => None
  end.

Fixpoint well_phased (p : phase) (es : list eff) : bool :=
  match es with
  | [] => true
  | e :: es' =>
      match next_phase p e with
      | Some p' => well_phased p' es'
      | None => false
      end
  end.

Inductive phased : phase -> coro unit -> Prop :=
| ph_ret p r : phased p (Ret r)
| ph_raise p x : phased p (Raise x)
| ph_spin p : phased p Spin
| ph_do p p' e k :
    next_phase p e = Some p' -> (forall r, phased p' (k r)) ->
    phased p (Do e k).

Section SignObservations.
Context `{Library}.
Variable fuel : nat.

(** What [send_json] does when the hook is not called or returns early:
    wait for the Auth task unless marked, then send the payload as it
    came. *)
Definition send_plain (ws : ClientWebSocketResponse) (data : pyval)
    (_itself : bool) : coro unit :=
  (if negb _itself then _wait_authtask else Ret tt);;
  send_str fuel ws (json_dumps data).

(** The same with the payload signed at the time the clock shows. *)
Definition send_signed (ws : ClientWebSocketResponse)
    (d params : list (string * pyval)) (key secret : string)
    (_itself : bool) : coro unit :=
  (if negb _itself then _wait_authtask else Ret tt);;
  now ← await_num TimeNow;
  send_str fuel ws
    (json_dumps
       (PyDict (dict_set "params"
                  (PyDict (MessageSign.sign_params key secret
                             (py_int (now * 1000)) params)) d))).

End SignObservations.

Section LockObservations.
Import Tasks.

(** Every task was started from a coroutine that keeps to the lock
    discipline. *)
Definition well_behaved (st : sys) : Prop :=
  forall i t, pool st !! i = Some t -> bracketed false false (origin t).

(** What then holds of every state the tasks can reach: a task is inside
    [async with ws._lock] exactly when it holds the lock, and whatever a
    task that transmits only inside the lock put on the wire went out
    with that task holding it. *)
Definition lock_invariant (st : sys) : Prop :=
  (forall i, lock st = Some i -> (i < length (pool st))%nat)
  /\ (forall s, In s (wire st) -> (by_task s < length (pool st))%nat)
  /\ (forall i t, pool st !! i = Some t ->
        exists h, bracketed false h (rest t)
                  /\ (bracketed true false (origin t) ->
                      bracketed true h (rest t))
                  /\ (h = true <-> lock st = Some i))
  /\ (forall s t, In s (wire st) -> pool st !! by_task s = Some t ->
        bracketed true false (origin t) ->
        lock_holder s = Some (by_task s)).

(** Whether a task is inside the lock after a step, given whether it was
    before. *)
Definition holding_after (h : bool) (e : eff) (r : resp) : bool :=
  match e with
  | LockAcquire => negb (failed r)
  | LockRelease => false
  | _ => h
  end.

End LockObservations.

(* --------------------------------------------------------------------- *)
(** ** Surroundings with a clock                                          *)
(* --------------------------------------------------------------------- *)

(** The socket closes at time [closes].  Reading [ws.closed] and sending
    take no time; a send fails once the socket is closed; [asyncio.sleep(d)]
    takes [d] plus the lateness the scheduler adds to that wake-up (the
    next number of [lateness], nothing once the list is used up). *)
Record clock : Type := Clock { now : Q; lateness : list Q }.

Definition timed (closes : Q) (s : clock) (e : eff) : clock * resp :=
  match e with
  | IsClosed => (s, RBool (Qle_bool closes (now s)))
  | Transmit _ =>
      (s, if Qle_bool closes (now s) then RRaise ConnectionResetError
          else RUnit)
  | Sleep d =>
      match lateness s with
      | [] => (Clock (now s + d) [], RUnit)
      | j :: js => (Clock (now s + d + j) js, RUnit)
      end
  | _ => (s, RUnit)
  end.

(** The frames that went out, with the time each did. *)
Definition sends (tr : list (clock * eff * resp)) : list (Q * frame) :=
  flat_map (fun x => match x with
                     | (s, Transmit f, RUnit) => [(now s, f)]
                     | _ => []
                     end) tr.

(** ** Sample connections and schedules *)

Section Samples.
Import Tasks.

(** A private MEXC connection with credentials on file. *)
Definition sample_mexc : ClientWebSocketResponse :=
  WS "contract.mexc.com" "/edge" true {[ "mexc" := ["key"; "secret"] ]}.

Definition sample_subscribe : pyval :=
  PyDict [("op", PyStr "subscribe")].

(** The Auth task reads the clock and sends its handshake; a caller then
    asks for a JSON send, which waits for the Auth task and goes out. *)
Definition sample_gate_schedule : list action :=
  [ Act 0 (RNum 0); Act 0 RUnit;
    Spawn (send_json (H := sample_library) 3 sample_mexc sample_subscribe
             false true);
    Act 1 RUnit; Act 1 RUnit ].

(** A Binance stream connection: a host with a RateLimit hook. *)
Definition sample_binance : ClientWebSocketResponse :=
  WS "stream.binance.com" "/ws" true ∅.

(** A caller asks for a binary send, which goes out at once. *)
Definition sample_binary_schedule : list action :=
  [ Spawn (send_bytes sample_binance "b"); Act 0 RUnit ].

(** A caller asks for a text send: lock, send, poll the clock until it
    has moved by more than a quarter of a second, unlock. *)
Definition sample_text_schedule : list action :=
  [ Spawn (send_str 2 sample_binance "t");
    Act 0 RUnit; Act 0 RUnit; Act 0 (RNum 10);
    Act 0 RUnit; Act 0 (RNum (41 # 4)); Act 0 RUnit; Act 0 (RNum 11);
    Act 0 RUnit ].

(** A public OKX connection: a heartbeat, no credentials on file. *)
Definition sample_okx : ClientWebSocketResponse :=
  WS "ws.okx.com" "/ws/v5/public" false ∅.

(** A Binance WebSocket-API connection with credentials on file, and an
    order to place on it. *)
Definition sample_wsapi : ClientWebSocketResponse :=
  WS "ws-api.binance.com" "/ws-api/v3" true
     {[ "binance" := ["key"; "secret"] ]}.

Definition sample_order : list (string * pyval) :=
  [("id", PyInt 1); ("method", PyStr "order.place");
   ("params", PyDict [("symbol", PyStr "BTCUSDT"); ("side", PyStr "BUY")])].

(** A Bybit connection to a public channel, with credentials on file. *)
Definition sample_bybit_public : ClientWebSocketResponse :=
  WS "stream.bybit.com" "/v5/public/linear" true
     {[ "bybit" := ["key"; "secret"] ]}.

End Samples.

(* --------------------------------------------------------------------- *)
(** ** Further observations                                               *)
(* --------------------------------------------------------------------- *)

Section SupervisorObservations.
Import WebSocketApp.

(** The numbers [random.random()] returned to the failed attempts. *)
Definition draws (turns : list turn) : list Q :=
  flat_map (fun x => match x with
                     | Attempt (CycleRaise r) => [r]
                     | _ => []
                     end) turns.

(** The attempts among the turns, the assignments of the url left
    out. *)
Definition attempts (turns : list turn) : list turn :=
  flat_map (fun x => match x with
                     | Attempt c => [Attempt c]
                     | AssignUrl _ => []
                     end) turns.

Section Bounded.
Variable bo : backoff.

(** A sleep within bounds. *)
Definition sleep_within (d : Q) : Prop :=
  (0 <= d)%Q
  /\ ((d <= BACKOFF_INITIAL bo)%Q \/ (d <= BACKOFF_MAX bo)%Q).

(** What every turn of the reconnect loop keeps: the delay is the
    minimum or has been capped, and every sleep so far was within
    bounds. *)
Definition delay_bounded (st : loop_state) : Prop :=
  (0 <= backoff_delay st)%Q
  /\ (Qeq_bool (backoff_delay st) (BACKOFF_MIN bo) = true
      \/ (backoff_delay st <= BACKOFF_MAX bo)%Q)
  /\ Forall sleep_within (sleeps (trace st)).

End Bounded.

End SupervisorObservations.

Section CallOrder.
Import Dispatcher.

Variable msg_json : WSMessage -> json_result.
Variables hdlr_str hdlr_bytes hdlr_json : list handler.

(** The handler calls waiting in a ready queue, oldest first. *)
Definition queued_calls (q : list callback) : list (kind * handler * pyval) :=
  flat_map (fun cb => match cb with
                      | CbHandler k h d => [(k, h, d)]
                      | CbOnMessage _ => []
                      end) q.

(** The handler calls the dispatch of one frame schedules. *)
Definition calls_for (msg : WSMessage) : list (kind * handler * pyval) :=
  queued_calls
    (scheduled (_onmessage msg_json hdlr_str hdlr_bytes hdlr_json msg)).

(** The same for the dispatches still waiting in the ready queue. *)
Definition undispatched_calls (q : list callback)
  : list (kind * handler * pyval) :=
  flat_map (fun cb => match cb with
                      | CbOnMessage msg => calls_for msg
                      | CbHandler _ _ _ => []
                      end) q.

(** The calls made, queued, yet to be dispatched and yet to be read add
    up to the calls of all frames, in order. *)
Definition calls_accounted_for (frames : list WSMessage) (st : loop) : Prop :=
  calls st ++ queued_calls (ready st)
    ++ undispatched_calls (ready st) ++ flat_map calls_for (inbound st)
  = flat_map calls_for frames.

End CallOrder.

(** What a Heartbeat hook may do: test [ws.closed], send, sleep and draw
    an identifier. *)
Definition is_heartbeat_effect (e : eff) : bool :=
  match e with
  | IsClosed | Transmit _ | Sleep _ | Uuid4 => true
  | _ => false
  end.

(** The times of [n] wake-ups [d] apart, the first at [t]. *)
Fixpoint ticks (d t : Q) (n : nat) : list Q :=
  match n with
  | O => []
  | S n' => t :: ticks d (t + d) n'
  end.

(* --------------------------------------------------------------------- *)
(** ** Surroundings that deliver inbound frames                           *)
(* --------------------------------------------------------------------- *)

(** The frames of the list are handed out one for each turn of
    [async for msg in ws], and the iteration ends when the list is used
    up; the clocks read [t], the identifier drawn is [nonce], the socket
    is open and every send succeeds. *)
Definition inbound_frames (t : Q) (nonce : string)
    (s : list WSMessage) (e : eff) : list WSMessage * resp :=
  match e with
  | Receive =>
      match s with
      | [] => ([], RMsg None)
      | m :: s' => (s', RMsg (Some m))
      end
  | TimeNow | HttpTime _ => (s, RNum t)
  | TokenHex _ | Uuid4 => (s, RStr nonce)
  | IsClosed => (s, RBool false)
  | _ => (s, RUnit)
  end.

(** The warnings a run logged, oldest first. *)
Definition warnings {S : Type} (tr : list (S * eff * resp)) : list pyval :=
  flat_map (fun x => match snd (fst x) with Warn d => [d] | _ => [] end) tr.

(** What a run over inbound frames comes to: the warnings it logged, the
    frames it left unread and how it ended. *)
Definition summary {R : Type}
    (r : list (list WSMessage * eff * resp) * list WSMessage * result R)
  : list pyval * list WSMessage * result R :=
  (warnings (trace_of r), snd (fst r), outcome_of r).

(** ** More sample connections and frames *)

Section MoreSamples.

(** Private connections with a key, a secret and a passphrase on file. *)
Definition sample_okx_private : ClientWebSocketResponse :=
  WS "ws.okx.com" "/ws/v5/private" true
     {[ "okx" := ["key"; "secret"; "pass"] ]}.

Definition sample_bybit_private : ClientWebSocketResponse :=
  WS "stream.bybit.com" "/v5/private" true
     {[ "bybit" := ["key"; "secret"; "pass"] ]}.

Definition sample_phemex : ClientWebSocketResponse :=
  WS "phemex.com" "/ws" true {[ "phemex" := ["key"; "secret"; "pass"] ]}.

(** A Bitget connection whose credentials lack the passphrase. *)
Definition sample_bitget_short : ClientWebSocketResponse :=
  WS "ws.bitget.com" "/mix/v1/stream" true
     {[ "bitget" := ["key"; "secret"] ]}.

(** A binary frame, a text frame that does not decode and one that
    decodes to the empty object. *)
Definition sample_binary : WSMessage := Msg BINARY (PyBytes "b").
Definition sample_pong : WSMessage := Msg TEXT (PyStr "pong").
Definition sample_empty_object : WSMessage := Msg TEXT (PyStr "{}").

Definition sample_bitflyer : ClientWebSocketResponse :=
  WS "ws.lightstream.bitflyer.com" "/json-rpc" true
     {[ "bitflyer" := ["key"; "secret"] ]}.

Definition sample_bitget : ClientWebSocketResponse :=
  WS "ws.bitget.com" "/mix/v1/stream" true
     {[ "bitget" := ["key"; "secret"; "pass"] ]}.

(** An ERROR frame. *)
Definition sample_error : WSMessage := Msg ERROR PyNone.

(** A decoder that knows the two answers to a login by event, and the
    stand-ins with it. *)
Definition sample_answers (msg : WSMessage) : json_result :=
  match msg_data msg with
  | PyStr s =>
      if String.eqb s "login"
      then JsonOk (PyDict [("event", PyStr "login")])
      else if String.eqb s "error"
           then JsonOk (PyDict [("event", PyStr "error")])
           else JSONDecodeError s
  | _ => JsonRaises
  end.

Definition sample_exchange : Library := {|
  hmac_sha256_hex := @hmac_sha256_hex sample_library;
  hmac_sha256_b64 := @hmac_sha256_b64 sample_library;
  json_dumps := @json_dumps sample_library;
  py_str := @py_str sample_library;
  msg_json := sample_answers
|}.

Definition sample_rejection : WSMessage := Msg TEXT (PyStr "error").

End MoreSamples.

(** ** The Auth gate while the Auth task has not returned *)

Section ClosedGateObservations.
Context `{Library}.
Variable fuel : nat.
Variable ws : ClientWebSocketResponse.
Import Tasks.

(** There is no Auth task, or it has returned normally. *)
Definition auth_returned (st : sys) : bool :=
  match authtask st with
  | None => true
  | Some a =>
      match pool st !! a with
      | Some t => match rest t with Ret _ => true | _ => false end
      | None => false
      end
  end.

(** Until then a gated send has not begun or has ended by raising, and
    nothing on the wire came from one. *)
Definition gate_closed (st : sys) : Prop :=
  auth_returned st = false ->
  (forall i t, pool st !! i = Some t -> gated_send fuel ws (origin t) ->
               rest t = origin t \/ exists x, rest t = Raise x)
  /\ (forall s t, In s (wire st) -> pool st !! by_task s = Some t ->
                  ~ gated_send fuel ws (origin t)).

End ClosedGateObservations.

Section ClosedGateSamples.
Import Tasks.

(** A login that fails for want of a passphrase, a send that waits for
    it, and the connection once the send has been refused. *)
Definition sample_failed_login : coro unit :=
  Auth.bitget (H := sample_library) 3 sample_bitget_short.

Definition sample_gated_send : coro unit :=
  send_json (H := sample_library) 3 sample_bitget_short sample_subscribe
    false true.

Definition sample_refused : sys :=
  Sys [Task sample_failed_login sample_failed_login;
       Task sample_gated_send (Raise IndexError)]
      (Some 0%nat) None false [].

End ClosedGateSamples.

(** ** The coroutines of a connection *)

Section ConnectionTasks.
Context `{Library}.
Variable fuel : nat.
Variable ws : ClientWebSocketResponse.

(** What the class offers or starts on a connection: a call of one of
    its send methods, the heartbeat and the Auth hook of its host. *)
Definition of_connection (c : coro unit) : Prop :=
  (exists s, c = send_str fuel ws s)
  \/ (exists b, c = send_bytes ws b)
  \/ (exists data itself auth, c = send_json fuel ws data itself auth)
  \/ _pingtask (__init__ fuel ws) = Some c
  \/ _authtask (__init__ fuel ws) = Some c.

End ConnectionTasks.

Section LeakSamples.
Import Tasks.

(** A text send on a rate-limited host takes the lock, the socket
    closes, the send fails and the lock is given back. *)
Definition sample_failing_schedule : list action :=
  [ Spawn (send_str 2 sample_binance "t");
    Act 0 RUnit; Close; Act 0 (RRaise ConnectionResetError); Act 0 RUnit ].

End LeakSamples.

Section SignSamples.

(** A Binance WebSocket-API connection whose credentials lack the
    secret. *)
Definition sample_wsapi_short : ClientWebSocketResponse :=
  WS "ws-api.binance.com" "/ws-api/v3" true {[ "binance" := ["key"] ]}.

End SignSamples.

(* --------------------------------------------------------------------- *)
(** ** WebSocketQueue                                                     *)
(* --------------------------------------------------------------------- *)

Module WebSocketQueue.

(** An [asyncio.Queue]: the bound given to the constructor, which is no
    bound unless positive, and the items, oldest first. *)
Record t : Type := Queue { maxsize : Z; _queue : list pyval }.

Definition qsize (q : t) : nat := length (_queue q).

Definition full (q : t) : bool :=
  if (maxsize q <=? 0)%Z then false
  else (maxsize q <=? Z.of_nat (qsize q))%Z.

(** [put_nowait(item)]; [None] is [QueueFull]. *)
Definition put_nowait (q : t) (item : pyval) : option t :=
  if full q then None else Some (Queue (maxsize q) (_queue q ++ [item])).

(** [onmessage(msg, ws)]: the connection is not looked at. *)
Definition onmessage (q : t) (msg : pyval) (ws : ClientWebSocketResponse)
  : option t :=
  put_nowait q msg.

(** [get()] once an item is there; [None]: the caller waits. *)
Definition get (q : t) : option (pyval * t) :=
  match _queue q with
  | [] => None
  | x :: rest => Some (x, Queue (maxsize q) rest)
  end.

(** [n] turns of [while True: yield await self.get()]: what was yielded
    and the queue as left; the loop waits at an empty queue. *)
Fixpoint __aiter__ (n : nat) (q : t) : list pyval * t :=
  match n with
  | O => ([], q)
  | S n' =>
      match get q with
      | None => ([], q)
      | Some (x, q') => let '(xs, q'') := __aiter__ n' q' in (x :: xs, q'')
      end
  end.

End WebSocketQueue.

Section QueueObservations.
Import WebSocketQueue.

(** The queue after the loop has made the handler calls [cs], with
    [onmessage] registered as handler [h]: a call that raises
    [QueueFull] is handed to the loop's exception handler and leaves
    the queue as it was. *)
Definition deliver (h : handler) (ws : ClientWebSocketResponse)
    (q : t) (cs : list (Dispatcher.kind * handler * pyval)) : t :=
  fold_left (fun q c =>
               if Nat.eqb (snd (fst c)) h
               then match onmessage q (snd c) ws with
                    | Some q' => q'
                    | None => q
                    end
               else q) cs q.

(** The items a queue holds after the puts of [xs], nobody taking any:
    all of them without a bound, those that fit otherwise. *)
Definition kept (q : t) (xs : list pyval) : list pyval :=
  if (maxsize q <=? 0)%Z then _queue q ++ xs
  else firstn (Z.to_nat (maxsize q)) (_queue q ++ xs).

(** What the frames decode to, in arrival order. *)
Definition decoded (msg_json : WSMessage -> json_result)
    (frames : list WSMessage) : list pyval :=
  flat_map (fun msg => match msg_json msg with
                       | JsonOk data => [data]
                       | _ => []
                       end) frames.

End QueueObservations.

(* ===================================================================== *)
(** * Part II.  Properties                                                *)
(* ===================================================================== *)

(** ** The supervisor's constructor *)

Section InitFacts.
Import WebSocketApp.


End InitFacts.

(** ** The connection target *)

Section UrlFacts.
Import WebSocketApp.

Lemma connects_app (t1 t2 : list event) :
  connects (t1 ++ t2) = connects t1 ++ connects t2.
Proof. unfold connects. apply flat_map_app. Qed.

Lemma run_connects (bo : backoff) (turns : list turn) (st : loop_state) :
  connects (trace (fold_left (step bo) turns st))
  = connects (trace st) ++ urls_in_force (_url (self st)) turns.
Proof.
  revert st. induction turns as [|x turns IH]; intros st; simpl.
  - now rewrite app_nil_r.
  - rewrite IH. destruct x as [[|rnd]|v]; simpl.
    + rewrite connects_app. simpl. now rewrite <- app_assoc.
    + destruct (on_failure bo (backoff_delay st) rnd) as [slept d].
      simpl. rewrite connects_app. simpl. now rewrite <- app_assoc.
    + reflexivity.
Qed.

Lemma urls_in_force_attempts (u : string) (cs : list cycle) :
  urls_in_force u (map Attempt cs) = repeat u (length cs).
Proof. induction cs as [|c cs IH]; simpl; [reflexivity | now rewrite IH]. Qed.

(** C9, as the code has it.  Every attempt connects to the url the [url]
    property holds at that moment: the constructor's url until the
    property is assigned, the assigned one afterwards.  A supervisor whose
    property is never assigned connects to the constructor's url on every
    attempt. *)
Theorem C9_attempts_use_current_url
    (u : string) (kw : plans) (bo : backoff)
    (turns : list turn) (cs : list cycle) :
  connects (trace (_run_forever (__init__ u kw bo) turns))
    = urls_in_force u turns
  /\ connects (trace (_run_forever (__init__ u kw bo) (map Attempt cs)))
    = repeat u (length cs).
Proof.
  unfold _run_forever. rewrite !run_connects. simpl.
  split; [reflexivity | apply urls_in_force_attempts].
Qed.

(** C9 as stated fails: after [app.url = "wss://b"] the next attempt
    connects to the new url, not to the one given to the constructor. *)
Lemma C9_counterexample :
  ~ (forall (u : string) (kw : plans) (bo : backoff) (turns : list turn)
            (v : string),
        In v (connects (trace (_run_forever (__init__ u kw bo) turns))) ->
        v = u).
Proof.
  intros Hall.
  specialize (Hall "wss://a"
                   (Plans PyNone PyNone PyNone PyNone PyNone PyNone)
                   DEFAULT_BACKOFF
                   [Attempt CycleOk; AssignUrl "wss://b"; Attempt CycleOk]
                   "wss://b").
  simpl in Hall. discriminate Hall. right. left. reflexivity.
Qed.

End UrlFacts.

(** ** The backoff *)

Section BackoffFacts.
Import WebSocketApp.

Lemma py_int_comp (x y : Q) : (x == y)%Q -> py_int x = py_int y.
Proof.
  unfold Qeq, py_int. destruct x as [a b], y as [c d]. simpl. intros E.
  rewrite <- (Z.quot_mul_cancel_r a (Zpos b) (Zpos d)) by lia.
  rewrite <- (Z.quot_mul_cancel_r c (Zpos d) (Zpos b)) by lia.
  rewrite E. f_equal. lia.
Qed.

Lemma py_min_cases (a b : Q) :
  ((b < a)%Q /\ py_min a b = b) \/ ((a <= b)%Q /\ py_min a b = a).
Proof. unfold py_min. destruct (Qlt_le_dec b a); [left | right]; auto. Qed.

Lemma py_min_comp (a a' b : Q) :
  (a == a')%Q -> (py_min a b == py_min a' b)%Q.
Proof.
  intros E.
  destruct (py_min_cases a b) as [[H1 ->] | [H1 ->]];
    destruct (py_min_cases a' b) as [[H2 ->] | [H2 ->]];
    try reflexivity; try exact E.
  - rewrite E in H1. exfalso. apply (Qlt_irrefl b).
    eapply Qlt_le_trans; eauto.
  - rewrite E in H1. exfalso. apply (Qlt_irrefl b).
    eapply Qlt_le_trans; eauto.
Qed.

Lemma Qpower_S (f : Q) (n : nat) :
  (1 < f)%Q -> (f ^ Z.of_nat (S n) == f ^ Z.of_nat n * f)%Q.
Proof.
  intros Hf. rewrite Nat2Z.inj_succ. unfold Z.succ.
  rewrite Qpower_plus.
  - reflexivity.
  - intros E. rewrite E in Hf. discriminate Hf.
Qed.

Section Growth.
Variable bo : backoff.
Hypothesis min_lt_max : (BACKOFF_MIN bo < BACKOFF_MAX bo)%Q.
Hypothesis factor_gt_1 : (1 < BACKOFF_FACTOR bo)%Q.

Let lo := BACKOFF_MIN bo.
Let hi := BACKOFF_MAX bo.
Let f := BACKOFF_FACTOR bo.

(** The capped product after one more failure. *)
Lemma capped_step (n : nat) :
  (py_min (py_min (lo * f ^ Z.of_nat n) hi * f) hi
   == py_min (lo * f ^ Z.of_nat (S n)) hi)%Q.
Proof.
  assert (1 <= f ^ Z.of_nat n)%Q as Hp
    by (apply Qpower_1_le; [apply Qlt_le_weak; exact factor_gt_1 | lia]).
  assert (lo * f ^ Z.of_nat (S n) == lo * f ^ Z.of_nat n * f)%Q as ES
    by (rewrite Qpower_S by exact factor_gt_1; ring).
  fold lo hi f in min_lt_max, factor_gt_1.
  revert Hp ES.
  generalize (f ^ Z.of_nat n)%Q (f ^ Z.of_nat (S n))%Q. intros p q Hp ES.
  destruct (py_min_cases (lo * p) hi) as [[H1 ->] | [H1 ->]].
  - (* already capped *)
    assert (0 < lo)%Q as Hlo.
    { destruct (Qlt_le_dec 0 lo) as [|Hle]; [assumption | exfalso].
      assert (0 <= (- lo) * (p - 1))%Q
        by (apply Qmult_le_0_compat; lra).
      lra. }
    assert (hi < hi * f)%Q as Hg.
    { assert (0 < hi * (f - 1))%Q by (apply Qmult_lt_0_compat; lra). lra. }
    destruct (py_min_cases (hi * f) hi) as [[_ ->] | [H2 _]];
      [| exfalso; lra].
    destruct (py_min_cases (lo * q) hi) as [[_ ->] | [H3 _]];
      [reflexivity | exfalso].
    assert (0 <= (lo * p - hi) * f)%Q
      by (apply Qmult_le_0_compat; lra).
    lra.
  - apply py_min_comp. symmetry. exact ES.
Qed.

(** After at least one failure the delay has left [BACKOFF_MIN], unless
    that is zero. *)
Lemma capped_ne_min (n : nat) :
  ~ (lo == 0)%Q ->
  ~ (py_min (lo * f ^ Z.of_nat (S n)) hi == lo)%Q.
Proof.
  intros Hnz.
  assert (1 < f ^ Z.of_nat (S n))%Q as Hp
    by (apply Qpower_1_lt; [exact factor_gt_1 | lia]).
  fold lo hi f in min_lt_max, factor_gt_1.
  revert Hp. generalize (f ^ Z.of_nat (S n))%Q. intros p Hp.
  destruct (py_min_cases (lo * p) hi) as [[H1 ->] | [H1 ->]]; intros E.
  - rewrite E in min_lt_max. apply (Qlt_irrefl lo). exact min_lt_max.
  - apply Hnz.
    destruct (Q_dec lo 0) as [[Hneg | Hpos] | E0]; [| | exact E0]; exfalso.
    + assert (0 < (- lo) * (p - 1))%Q
        by (apply Qmult_lt_0_compat; lra).
      lra.
    + assert (0 < lo * (p - 1))%Q by (apply Qmult_lt_0_compat; lra).
      lra.
Qed.

Lemma failures_snoc (rs : list Q) (r : Q) :
  failures (rs ++ [r]) = failures rs ++ [Attempt (CycleRaise r)].
Proof. unfold failures. now rewrite map_app. Qed.

Lemma sleeps_app (t1 t2 : list event) :
  sleeps (t1 ++ t2) = sleeps t1 ++ sleeps t2.
Proof. unfold sleeps. apply flat_map_app. Qed.

Lemma delay_of_failure (st : loop_state) (r : Q) :
  backoff_delay (step bo st (Attempt (CycleRaise r)))
  = py_min (backoff_delay st * f) hi.
Proof. reflexivity. Qed.

Lemma delay_after_failures (st : loop_state) (rs : list Q) :
  backoff_delay st = lo ->
  (length rs = 0%nat ->
   backoff_delay (fold_left (step bo) (failures rs) st) = lo)
  /\ (forall n, length rs = S n ->
      (backoff_delay (fold_left (step bo) (failures rs) st)
       == py_min (lo * f ^ Z.of_nat (S n)) hi)%Q).
Proof.
  intros Hst. induction rs as [|r rs [IH0 IHS]] using rev_ind.
  - split; [intros _; exact Hst | simpl; intros n Hn; discriminate Hn].
  - split; [rewrite length_app; simpl; lia |].
    intros n Hn. rewrite length_app in Hn. simpl in Hn.
    assert (length rs = n) as Hlen by lia. clear Hn.
    rewrite failures_snoc, fold_left_app. cbn [fold_left].
    rewrite delay_of_failure.
    destruct n as [|n].
    + rewrite (IH0 Hlen). apply py_min_comp.
      change (f ^ Z.of_nat 1)%Q with f. reflexivity.
    + rewrite <- capped_step. apply py_min_comp.
      rewrite (IHS n Hlen). reflexivity.
Qed.

Lemma sleep_of_failure (st : loop_state) (r : Q) :
  sleeps (trace (step bo st (Attempt (CycleRaise r))))
  = sleeps (trace st)
    ++ [if Qeq_bool (backoff_delay st) lo
        then (r * BACKOFF_INITIAL bo)%Q
        else inject_Z (py_int (backoff_delay st))].
Proof.
  unfold step, on_failure. simpl. rewrite sleeps_app. reflexivity.
Qed.

(** The sleep of the failure that follows [rs] earlier ones. *)
Lemma sleep_after_failures (st : loop_state) (rs : list Q) (r : Q) :
  backoff_delay st = lo ->
  sleeps (trace (fold_left (step bo) (failures (rs ++ [r])) st))
  = sleeps (trace (fold_left (step bo) (failures rs) st))
    ++ [if (length rs =? 0)%nat || Qeq_bool lo 0
        then (r * BACKOFF_INITIAL bo)%Q
        else inject_Z
               (py_int (py_min (lo * f ^ Z.of_nat (length rs)) hi))].
Proof.
  intros Hst. rewrite failures_snoc, fold_left_app. cbn [fold_left].
  rewrite sleep_of_failure. f_equal. f_equal.
  destruct (delay_after_failures st rs Hst) as [D0 DS].
  destruct (length rs) as [|n] eqn:Hlen.
  - simpl. rewrite (D0 eq_refl). now rewrite Qeq_bool_refl.
  - specialize (DS n eq_refl). simpl.
    destruct (Qeq_bool lo 0) eqn:Hz.
    + apply Qeq_bool_eq in Hz.
      assert (Qeq_bool
                (backoff_delay (fold_left (step bo) (failures rs) st)) lo
              = true) as ->; [| reflexivity].
      apply Qeq_bool_iff. rewrite DS.
      fold lo hi in min_lt_max.
      destruct (py_min_cases (lo * f ^ Z.of_nat (S n)) hi)
        as [[H1 ->] | [H1 ->]].
      * exfalso. rewrite Hz in H1, min_lt_max.
        rewrite Qmult_0_l in H1. lra.
      * rewrite Hz. ring.
    + apply Qeq_bool_neq in Hz.
      assert (Qeq_bool
                (backoff_delay (fold_left (step bo) (failures rs) st)) lo
              = false) as ->.
      { destruct (Qeq_bool _ lo) eqn:Hq; [exfalso | reflexivity].
        apply Qeq_bool_eq in Hq. rewrite DS in Hq.
        exact (capped_ne_min n Hz Hq). }
      f_equal. apply py_int_comp. exact DS.
Qed.

End Growth.

(** After a history that is empty or ends in a cycle that opened and closed
    without raising, [backoff_delay] is [BACKOFF_MIN]. *)
Lemma delay_reset (bo : backoff) (st : loop_state) (h : list turn) :
  backoff_delay st = BACKOFF_MIN bo ->
  h = [] \/ (exists h', h = h' ++ [Attempt CycleOk]) ->
  backoff_delay (fold_left (step bo) h st) = BACKOFF_MIN bo.
Proof.
  intros Hst [-> | [h' ->]]; [exact Hst |].
  rewrite fold_left_app. reflexivity.
Qed.




End BackoffFacts.

(** ** The message dispatcher *)

Section WeightFacts.
Import Dispatcher.

Lemma weight_app (hs hb hj : list handler) (q1 q2 : list callback) :
  weight hs hb hj (q1 ++ q2) = (weight hs hb hj q1 + weight hs hb hj q2)%nat.
Proof.
  induction q1 as [|[m | k h d] q1 IH]; simpl; [reflexivity | |];
    rewrite IH; lia.
Qed.

Lemma weight_handlers (hs hb hj : list handler) kk d (l : list handler) :
  weight hs hb hj (map (fun h => CbHandler kk h d) l) = length l.
Proof. induction l as [|h l IH]; simpl; [reflexivity | now rewrite IH]. Qed.

End WeightFacts.

Section DispatchFacts.
Import Dispatcher.

Variable msg_json : WSMessage -> json_result.
Variables hdlr_str hdlr_bytes hdlr_json : list handler.

Local Abbreviation onmessage := (_onmessage msg_json hdlr_str hdlr_bytes hdlr_json).
Local Abbreviation receive := (receive_one).
Local Abbreviation run1 := (run_one msg_json hdlr_str hdlr_bytes hdlr_json).
Local Abbreviation lstep := (step msg_json hdlr_str hdlr_bytes hdlr_json).
Local Abbreviation lsteps := (steps msg_json hdlr_str hdlr_bytes hdlr_json).
Local Abbreviation accounted := (accounted_for msg_json hdlr_str hdlr_bytes hdlr_json).
Local Abbreviation delivered := (deliveries msg_json hdlr_str hdlr_bytes hdlr_json).
Local Abbreviation undispatched :=
  (undispatched_of msg_json hdlr_str hdlr_bytes hdlr_json).

Lemma lsteps_trans st1 st2 st3 :
  lsteps st1 st2 -> lsteps st2 st3 -> lsteps st1 st3.
Proof.
  intros H12 H23. induction H23 as [|a b c _ IH Hs]; [exact H12 |].
  eapply steps_more; [apply IH; exact H12 | exact Hs].
Qed.

Lemma calls_of_app k c1 c2 :
  calls_of k (c1 ++ c2) = calls_of k c1 ++ calls_of k c2.
Proof. apply flat_map_app. Qed.

Lemma queued_of_app k q1 q2 :
  queued_of k (q1 ++ q2) = queued_of k q1 ++ queued_of k q2.
Proof. apply flat_map_app. Qed.

Lemma undispatched_app k q1 q2 :
  undispatched k (q1 ++ q2) = undispatched k q1 ++ undispatched k q2.
Proof. apply flat_map_app. Qed.

(** What [_onmessage] schedules are handler calls only. *)
Lemma scheduled_handlers msg cb :
  In cb (scheduled (onmessage msg)) -> exists k h d, cb = CbHandler k h d.
Proof.
  assert (forall kk d l,
             In cb (map (fun h => CbHandler kk h d) l) ->
             exists k h d, cb = CbHandler k h d) as Hmap.
  { intros kk d l Hin. apply in_map_iff in Hin as [h [<- _]]. eauto. }
  unfold _onmessage.
  destruct (is_TEXT msg), (is_BINARY msg), hdlr_json as [|h hj];
    try destruct (msg_json msg); cbn; intros Hin;
    repeat (apply in_app_or in Hin as [Hin | Hin]);
    try (eapply Hmap; exact Hin);
    try (destruct Hin as [<- | Hin]; [eauto | eapply Hmap; exact Hin]);
    try (destruct Hin).
Qed.

Lemma undispatched_handlers k q :
  (forall cb, In cb q -> exists k h d, cb = CbHandler k h d) ->
  undispatched k q = [].
Proof.
  induction q as [|cb q IH]; intros Hq; [reflexivity |].
  destruct (Hq cb (or_introl eq_refl)) as [k' [h [d ->]]]. simpl.
  apply IH. intros cb' Hin. apply Hq. right. exact Hin.
Qed.

Lemma undispatched_scheduled k msg :
  undispatched k (scheduled (onmessage msg)) = [].
Proof. apply undispatched_handlers, scheduled_handlers. Qed.

Lemma accounted_step k frames st st' :
  lstep st st' -> accounted k frames st -> accounted k frames st'.
Proof.
  unfold accounted_for. intros Hs Hacc. rewrite <- Hacc. clear Hacc.
  destruct Hs as [st st' H | st st' H].
  - unfold receive_one in H. destruct (inbound st) as [|msg rest] eqn:Hin;
      [discriminate | injection H as <-]. simpl.
    rewrite queued_of_app, undispatched_app. simpl.
    rewrite !app_nil_r, <- !app_assoc. reflexivity.
  - unfold run_one in H. destruct (ready st) as [|[msg | k' h d] q] eqn:Hq;
      [discriminate | |]; injection H as <-; simpl.
    + rewrite queued_of_app, undispatched_app, undispatched_scheduled.
      fold (delivered k msg). rewrite app_nil_r, <- !app_assoc. reflexivity.
    + rewrite calls_of_app. simpl. rewrite app_nil_r, <- !app_assoc.
      destruct (same_kind k k'); reflexivity.
Qed.

Lemma dispatched_step frames st st' :
  lstep st st' ->
  dispatched st ++ inbound st = frames ->
  dispatched st' ++ inbound st' = frames.
Proof.
  intros Hs <-. destruct Hs as [st st' H | st st' H].
  - unfold receive_one in H. destruct (inbound st) as [|msg rest] eqn:Hin;
      [discriminate | injection H as <-]. simpl.
    now rewrite <- app_assoc.
  - unfold run_one in H. destruct (ready st) as [|[msg | k' h d] q] eqn:Hq;
      [discriminate | |]; injection H as <-; reflexivity.
Qed.

Lemma steps_accounted k frames st0 st :
  lsteps st0 st ->
  accounted k frames st0 /\ dispatched st0 ++ inbound st0 = frames ->
  accounted k frames st /\ dispatched st ++ inbound st = frames.
Proof.
  intros Hs H0. induction Hs as [| st1 st2 st3 _ IH Hs]; [exact H0 |].
  destruct (IH H0) as [IH1 IH2].
  split; [eapply accounted_step | eapply dispatched_step]; eauto.
Qed.

Lemma reachable_accounted k frames st :
  lsteps (start frames) st ->
  accounted k frames st /\ dispatched st ++ inbound st = frames.
Proof.
  intros Hs. apply (steps_accounted k frames _ _ Hs).
  split; [unfold accounted_for; simpl | reflexivity].
  reflexivity.
Qed.

(** At rest every delivery has been made, in the order of arrival. *)
Lemma quiescent_calls k frames st :
  lsteps (start frames) st -> quiescent st ->
  calls_of k (calls st) = flat_map (delivered k) frames
  /\ dispatched st = frames.
Proof.
  intros Hs [Hin Hq]. destruct (reachable_accounted k frames st Hs) as [A D].
  unfold accounted_for in A. rewrite Hin, Hq in A. simpl in A.
  rewrite app_nil_r in A. rewrite Hin, app_nil_r in D. auto.
Qed.

(** *** The schedule [_ws_receive] is one of the runs *)

Lemma receive_all_steps n st : lsteps st (receive_all n st).
Proof.
  revert st. induction n as [|n IH]; intros st; simpl; [constructor |].
  destruct (receive_one st) as [st'|] eqn:H; [| constructor].
  eapply lsteps_trans; [| apply IH].
  eapply steps_more; [constructor | apply step_receive; exact H].
Qed.

Lemma drain_steps n st : lsteps st (drain msg_json hdlr_str hdlr_bytes hdlr_json n st).
Proof.
  revert st. induction n as [|n IH]; intros st; simpl; [constructor |].
  destruct (run1 st) as [st'|] eqn:H; [| constructor].
  eapply lsteps_trans; [| apply IH].
  eapply steps_more; [constructor | apply step_run; exact H].
Qed.

Lemma receive_all_inbound n st :
  (length (inbound st) <= n)%nat ->
  inbound (receive_all n st) = []
  /\ ready (receive_all n st) = ready st ++ map CbOnMessage (inbound st).
Proof.
  revert st. induction n as [|n IH]; intros st Hn; simpl.
  - destruct (inbound st); [| simpl in Hn; lia].
    simpl. now rewrite app_nil_r.
  - unfold receive_one. destruct (inbound st) as [|msg rest] eqn:Hin.
    + rewrite Hin. simpl. now rewrite app_nil_r.
    + simpl in Hn.
      destruct (IH (Loop rest (ready st ++ [CbOnMessage msg])
                         (dispatched st ++ [msg]) (calls st) (log st)))
        as [I1 I2]; [simpl; lia |].
      split; [exact I1 |]. rewrite I2. simpl. now rewrite <- app_assoc.
Qed.

Local Abbreviation wt := (weight hdlr_str hdlr_bytes hdlr_json).

Lemma weight_scheduled msg :
  (wt (scheduled (onmessage msg))
   <= length hdlr_str + length hdlr_bytes + length hdlr_json)%nat.
Proof.
  unfold _onmessage.
  destruct (is_TEXT msg), (is_BINARY msg), hdlr_json as [|h hj];
    try destruct (msg_json msg) as [data | doc |];
    cbn [scheduled]; rewrite ?weight_app, ?weight_handlers;
    cbn [map weight fold_right length]; rewrite ?weight_handlers; lia.
Qed.

Lemma run_one_weight st st' :
  run1 st = Some st' ->
  (wt (ready st') < wt (ready st))%nat /\ inbound st' = inbound st.
Proof.
  unfold run_one. destruct (ready st) as [|[msg | k h d] q]; intros H;
    [discriminate | |]; injection H as <-; simpl; split; try reflexivity.
  - rewrite weight_app. pose proof (weight_scheduled msg). lia.
  - lia.
Qed.

Lemma drain_done n st :
  (wt (ready st) <= n)%nat ->
  ready (drain msg_json hdlr_str hdlr_bytes hdlr_json n st) = []
  /\ inbound (drain msg_json hdlr_str hdlr_bytes hdlr_json n st) = inbound st.
Proof.
  revert st. induction n as [|n IH]; intros st Hn; simpl.
  - split; [| reflexivity].
    destruct (ready st) as [|[m | k h d] q]; [reflexivity | |];
      simpl in Hn; lia.
  - destruct (run1 st) as [st'|] eqn:H.
    + destruct (run_one_weight st st' H) as [Hw Hi].
      destruct (IH st') as [I1 I2]; [lia |]. rewrite I1, I2. auto.
    + split; [| reflexivity]. unfold run_one in H.
      destruct (ready st) as [|[m | k h d] q]; [reflexivity | |]; discriminate.
Qed.

Lemma weight_onmessages frames :
  wt (map CbOnMessage frames)
  = (length frames
     * S (S (length hdlr_str + length hdlr_bytes + length hdlr_json)))%nat.
Proof.
  induction frames as [|m frames IH]; simpl; [reflexivity |].
  rewrite IH. lia.
Qed.

Lemma ws_receive_runs frames :
  lsteps (start frames)
         (_ws_receive msg_json hdlr_str hdlr_bytes hdlr_json frames)
  /\ quiescent (_ws_receive msg_json hdlr_str hdlr_bytes hdlr_json frames).
Proof.
  unfold _ws_receive. split.
  - eapply lsteps_trans; [apply receive_all_steps | apply drain_steps].
  - destruct (receive_all_inbound (length frames) (start frames))
      as [R1 R2]; [simpl; lia |]. simpl in R2.
    destruct (drain_done
                (length frames
                 * S (S (length hdlr_str + length hdlr_bytes
                         + length hdlr_json)))
                (receive_all (length frames) (start frames)))
      as [D1 D2]; [rewrite R2, weight_onmessages; lia |].
    split; [rewrite D2; exact R1 | exact D1].
Qed.

(** The text deliveries of a frame, spelled out. *)
Lemma deliveries_text msg :
  delivered KStr msg
  = if is_TEXT msg then map (fun h => (h, msg_data msg)) hdlr_str else [].
Proof.
  assert (forall d l,
             queued_of KStr (map (fun h => CbHandler KStr h d) l)
             = map (fun h => (h, d)) l) as Hs
    by (intros d l; induction l as [|h l IH]; simpl; [| rewrite <- IH]; auto).
  assert (forall d l,
             queued_of KStr (map (fun h => CbHandler KBytes h d) l) = [])
    as Hb by (intros d l; induction l; simpl; auto).
  assert (forall d l,
             queued_of KStr (map (fun h => CbHandler KJson h d) l) = [])
    as Hj by (intros d l; induction l; simpl; auto).
  unfold deliveries, _onmessage.
  destruct (is_TEXT msg), (is_BINARY msg), hdlr_json as [|h hj];
    try destruct (msg_json msg);
    cbn [scheduled]; rewrite ?queued_of_app, ?Hs, ?Hb; simpl;
    rewrite ?Hj, ?app_nil_r; reflexivity.
Qed.

(** C5.  However frame arrivals and loop turns interleave, the dispatch
    of the frames is scheduled in their arrival order, and once the loop
    is at rest the calls made to the text handlers are exactly: for each
    text frame, in arrival order, one call per registered text handler, in
    registration order.  Such a run exists for every frame sequence. *)
Theorem C5_text_fanout (frames : list WSMessage) :
  (forall st,
      lsteps (start frames) st ->
      (exists later, frames = dispatched st ++ later)
      /\ (quiescent st ->
          dispatched st = frames
          /\ calls_of KStr (calls st)
             = flat_map (fun msg =>
                           if is_TEXT msg
                           then map (fun h => (h, msg_data msg)) hdlr_str
                           else [])
                        frames))
  /\ (lsteps (start frames)
             (_ws_receive msg_json hdlr_str hdlr_bytes hdlr_json frames)
      /\ quiescent (_ws_receive msg_json hdlr_str hdlr_bytes hdlr_json frames)).
Proof.
  split; [| apply ws_receive_runs].
  intros st Hs. split.
  - destruct (reachable_accounted KStr frames st Hs) as [_ D].
    exists (inbound st). symmetry. exact D.
  - intros Hq. destruct (quiescent_calls KStr frames st Hs Hq) as [C D].
    split; [exact D |]. rewrite C.
    apply flat_map_ext. intros msg. apply deliveries_text.
Qed.

(** *** Decode failures *)

Local Abbreviation unlogged :=
  (unlogged_of msg_json hdlr_str hdlr_bytes hdlr_json).
Local Abbreviation logs := (log_of msg_json hdlr_str hdlr_bytes hdlr_json).

Lemma unlogged_app q1 q2 : unlogged (q1 ++ q2) = unlogged q1 ++ unlogged q2.
Proof. apply flat_map_app. Qed.

Lemma unlogged_scheduled msg : unlogged (scheduled (onmessage msg)) = [].
Proof.
  generalize (scheduled_handlers msg).
  induction (scheduled (onmessage msg)) as [|cb q IH]; intros Hq;
    [reflexivity |].
  destruct (Hq cb (or_introl eq_refl)) as [k' [h [d ->]]]. simpl.
  apply IH. intros cb' Hin. apply Hq. right. exact Hin.
Qed.

Lemma log_accounted_step frames st st' :
  lstep st st' ->
  log_accounted_for msg_json hdlr_str hdlr_bytes hdlr_json frames st ->
  log_accounted_for msg_json hdlr_str hdlr_bytes hdlr_json frames st'.
Proof.
  unfold log_accounted_for. intros Hs Hacc. rewrite <- Hacc. clear Hacc.
  destruct Hs as [st st' H | st st' H].
  - unfold receive_one in H. destruct (inbound st) as [|msg rest] eqn:Hin;
      [discriminate | injection H as <-]. simpl.
    rewrite unlogged_app. simpl. rewrite !app_nil_r, <- !app_assoc.
    reflexivity.
  - unfold run_one in H. destruct (ready st) as [|[msg | k' h d] q] eqn:Hq;
      [discriminate | |]; injection H as <-; simpl; [| reflexivity].
    rewrite unlogged_app, unlogged_scheduled, app_nil_r.
    unfold log_of. rewrite <- !app_assoc. reflexivity.
Qed.

Lemma steps_log_accounted frames st0 st :
  lsteps st0 st ->
  log_accounted_for msg_json hdlr_str hdlr_bytes hdlr_json frames st0 ->
  log_accounted_for msg_json hdlr_str hdlr_bytes hdlr_json frames st.
Proof.
  intros Hs H0. induction Hs as [| st1 st2 st3 _ IH Hst]; [exact H0 |].
  eapply log_accounted_step; eauto.
Qed.

Lemma quiescent_log frames st :
  lsteps (start frames) st -> quiescent st ->
  log st = flat_map logs frames.
Proof.
  intros Hs [Hin Hq].
  assert (log_accounted_for msg_json hdlr_str hdlr_bytes hdlr_json frames st)
    as A by (apply (steps_log_accounted frames _ _ Hs); reflexivity).
  unfold log_accounted_for in A. rewrite Hin, Hq in A. simpl in A.
  now rewrite app_nil_r in A.
Qed.


End DispatchFacts.

Section DispatchExamples.
Import Dispatcher.

Lemma C5_text_fanout_witness :
  let frames := [Msg TEXT (PyStr "a"); Msg BINARY (PyBytes "b");
                 Msg TEXT (PyStr "1")] in
  let st := _ws_receive sample_json [10; 11]%nat [20]%nat [30]%nat frames in
  dispatched st = frames
  /\ calls_of KStr (calls st)
     = [(10, PyStr "a"); (11, PyStr "a"); (10, PyStr "1"); (11, PyStr "1")]%nat.
Proof.
  intros frames st.
  destruct (C5_text_fanout sample_json [10; 11]%nat [20]%nat [30]%nat frames)
    as [Hall [Hrun Hquiet]].
  exact (proj2 (Hall st Hrun) Hquiet).
Defined.


End DispatchExamples.

(** ** Coroutines: general facts *)

Section CoroFacts.

Lemma all_effects_bind {A B : Type} (P : eff -> Prop)
    (c : coro A) (f : A -> coro B) :
  all_effects P c -> (forall a, all_effects P (f a)) ->
  all_effects P (cbind c f).
Proof.
  intros Hc Hf. induction Hc; simpl; try constructor; auto.
Qed.

Lemma all_effects_mbind {A B : Type} (P : eff -> Prop)
    (c : coro A) (f : A -> coro B) :
  all_effects P c -> (forall a, all_effects P (f a)) ->
  all_effects P (c ≫= f).
Proof. apply all_effects_bind. Qed.

Lemma all_effects_try_finally {A : Type} (P : eff -> Prop)
    (c : coro A) (fin : coro unit) :
  all_effects P c -> all_effects P fin -> all_effects P (try_finally c fin).
Proof.
  intros Hc Hf. induction Hc; simpl; try constructor; auto;
    apply all_effects_bind; auto; intros; constructor.
Qed.

Lemma all_effects_await_unit (P : eff -> Prop) (e : eff) :
  P e -> all_effects P (await_unit e).
Proof. intros. constructor; [assumption |]. intros []; constructor. Qed.

Lemma all_effects_await_num (P : eff -> Prop) (e : eff) :
  P e -> all_effects P (await_num e).
Proof. intros. constructor; [assumption |]. intros []; constructor. Qed.

Lemma all_effects_await_bool (P : eff -> Prop) (e : eff) :
  P e -> all_effects P (await_bool e).
Proof. intros. constructor; [assumption |]. intros []; constructor. Qed.

Lemma all_effects_await_str (P : eff -> Prop) (e : eff) :
  P e -> all_effects P (await_str e).
Proof. intros. constructor; [assumption |]. intros []; constructor. Qed.

Lemma all_effects_await_msg (P : eff -> Prop) (e : eff) :
  P e -> all_effects P (await_msg e).
Proof. intros. constructor; [assumption |]. intros []; constructor. Qed.

Lemma all_effects_or_raise {A : Type} (P : eff -> Prop) (x : exn)
    (o : option A) :
  all_effects P (or_raise x o).
Proof. destruct o; constructor. Qed.

Lemma all_effects_run {S R : Type} (P : eff -> Prop)
    (env : S -> eff -> S * resp) (c : coro R) (s : S) :
  all_effects P c -> Forall P (effects (trace_of (run env s c))).
Proof.
  intros Hc. revert s. induction Hc as [| | | e k He _ IH]; intros s; simpl;
    try constructor.
  destruct (env s e) as [s' r]. specialize (IH r s').
  destruct (run env s' (k r)) as [[tr s''] res]. simpl in *.
  constructor; assumption.
Qed.

(** A run of [c >>= f] is a run of [c] followed, when [c] returns, by a
    run of [f] from where the surroundings were left. *)
Lemma run_bind {S A B : Type} (env : S -> eff -> S * resp)
    (c : coro A) (f : A -> coro B) (s : S) :
  run env s (c ≫= f)
  = let '(tr1, s1, res1) := run env s c in
    match res1 with
    | Returned a =>
        let '(tr2, s2, res2) := run env s1 (f a) in (tr1 ++ tr2, s2, res2)
    | Raised x => (tr1, s1, Raised x)
    | Spinning => (tr1, s1, Spinning)
    end.
Proof.
  revert s. induction c as [a | x | | e k IH]; intros s.
  - simpl. change (Ret a ≫= f) with (f a).
    destruct (run env s (f a)) as [[tr2 s2] res2]. reflexivity.
  - reflexivity.
  - reflexivity.
  - change (Do e k ≫= f) with (Do e (fun r => k r ≫= f)). simpl.
    destruct (env s e) as [s' r]. rewrite IH.
    destruct (run env s' (k r)) as [[tr1 s1] [a | x |]]; try reflexivity.
    destruct (run env s1 (f a)) as [[tr2 s2] res2]. reflexivity.
Qed.

(** A run of [try: c finally: fin] is a run of [c] followed, unless [c]
    is still spinning, by a run of [fin]. *)
Lemma run_try_finally {S A : Type} (env : S -> eff -> S * resp)
    (c : coro A) (fin : coro unit) (s : S) :
  run env s (try_finally c fin)
  = let '(tr1, s1, res1) := run env s c in
    match res1 with
    | Spinning => (tr1, s1, Spinning)
    | _ =>
        let '(tr2, s2, res2) := run env s1 fin in
        (tr1 ++ tr2, s2,
         match res2 with
         | Returned _ => res1
         | Raised x => Raised x
         | Spinning => Spinning
         end)
    end.
Proof.
  revert s. induction c as [a | x | | e k IH]; intros s; simpl.
  - change (cbind fin (fun _ => Ret a)) with (fin ≫= (fun _ => Ret a)).
    rewrite run_bind. destruct (run env s fin) as [[tr2 s2] [u | y |]];
      simpl; rewrite ?app_nil_r; reflexivity.
  - change (cbind fin (fun _ => Raise x))
      with (fin ≫= (fun _ => @Raise A x)).
    rewrite run_bind. destruct (run env s fin) as [[tr2 s2] [u | y |]];
      simpl; rewrite ?app_nil_r; reflexivity.
  - reflexivity.
  - destruct (env s e) as [s' r]. rewrite IH.
    destruct (run env s' (k r)) as [[tr1 s1] [a | x |]]; try reflexivity;
      destruct (run env s1 fin) as [[tr2 s2] res2]; reflexivity.
Qed.

End CoroFacts.

(** ** Schedules are runs *)

Section ScheduleFacts.
Import Tasks.

Lemma steps_trans st1 st2 st3 : steps st1 st2 -> steps st2 st3 -> steps st1 st3.
Proof.
  intros H12 H23. induction H23 as [|a b c _ IH Hs]; [exact H12 |].
  eapply steps_more; [apply IH; exact H12 | exact Hs].
Qed.

Lemma perform_answers st i e r st' :
  perform st i e r = Some st' -> answers st i e r st'.
Proof.
  unfold perform. intros E.
  destruct e; destruct r as [| b | q | s | m | []]; try discriminate E;
    simpl in E;
    try (injection E as <-; constructor; reflexivity).
  - destruct (closed st) eqn:C; [discriminate E | injection E as <-].
    constructor. exact C.
  - destruct (closed st) eqn:C; [injection E as <-| discriminate E].
    constructor. exact C.
  - destruct (authtask st) as [a|] eqn:A.
    + destruct (pool st !! a) as [t|] eqn:T; [| discriminate E].
      destruct (rest t) eqn:R; try discriminate E. injection E as <-.
      eapply ans_wait_done; eauto.
    + injection E as <-. constructor. exact A.
  - destruct (lock st) eqn:L; [discriminate E | injection E as <-].
    constructor. exact L.
  - destruct (Bool.eqb b (closed st)) eqn:B; [| discriminate E].
    injection E as <-. apply Bool.eqb_prop in B. subst b. constructor.
Qed.

Lemma act_step st a st' : act st a = Some st' -> step st st'.
Proof.
  destruct a as [i r | c |]; simpl; intros E.
  - destruct (pool st !! i) as [t|] eqn:T; [| discriminate E].
    destruct (rest t) as [| | | e k] eqn:R; try discriminate E.
    destruct (perform st i e r) as [st1|] eqn:P; [| discriminate E].
    injection E as <-.
    eapply step_task; [exact T | exact R | apply perform_answers; exact P].
  - injection E as <-. constructor.
  - injection E as <-. constructor.
Qed.

Lemma exec_steps acts st st' : exec acts st = Some st' -> steps st st'.
Proof.
  revert st. induction acts as [|a acts IH]; simpl; intros st E.
  - injection E as <-. apply steps_refl.
  - destruct (act st a) as [st1|] eqn:A; [| discriminate E].
    apply (steps_trans st st1 st'); [| apply IH; exact E].
    apply (steps_more st st st1); [apply steps_refl | exact (act_step st a st1 A)].
Qed.

End ScheduleFacts.

(** ** The Auth gate *)

Section GateFacts.
Context `{Library}.
Variable fuel : nat.
Variable ws : ClientWebSocketResponse.
Import Tasks.

Lemma answers_frame st i e r st' :
  answers st i e r st' ->
  pool st' = pool st /\ authtask st' = authtask st.
Proof. destruct 1; auto. Qed.

Lemma auth_pending_ext st1 st2 :
  pool st1 = pool st2 -> authtask st1 = authtask st2 ->
  auth_pending st1 = auth_pending st2.
Proof. unfold auth_pending. now intros -> ->. Qed.

(** Once over, the Auth task stays over: a finished task takes no step
    and tasks are never removed. *)
Lemma auth_over_task_step st i t c p :
  (forall a, authtask st = Some a -> (a < length (pool st))%nat) ->
  pool st !! i = Some t -> done (rest t) = false ->
  auth_pending st = false ->
  auth_pending (Sys (<[i := Task (origin t) c]> (pool st)) (authtask st)
                    p (closed st) (wire st)) = false.
Proof.
  unfold auth_pending. simpl. intros Hwf Hi Hnd Hp.
  destruct (authtask st) as [a|]; [| reflexivity].
  destruct (decide (a = i)) as [-> | Hne].
  - rewrite Hi in Hp. rewrite Hnd in Hp. discriminate Hp.
  - rewrite list_lookup_insert_ne by congruence. exact Hp.
Qed.

Lemma auth_over_spawn st c :
  (forall a, authtask st = Some a -> (a < length (pool st))%nat) ->
  auth_pending (with_pool st (pool st ++ [Task c c])) = auth_pending st.
Proof.
  unfold auth_pending. simpl. intros Hwf.
  destruct (authtask st) as [a|]; [| reflexivity].
  rewrite lookup_app_l by (apply Hwf; reflexivity). reflexivity.
Qed.

(** A gated send begins by waiting for the Auth task, and is over at
    once if cancelled there. *)
Lemma gated_send_starts c :
  gated_send fuel ws c ->
  exists k, c = Do WaitAuthtask k
            /\ forall x, k (RRaise x) = Raise x.
Proof. intros [data [auth ->]]. eexists. split; reflexivity. Qed.

Lemma answers_wait st i r st' :
  answers st i WaitAuthtask r st' ->
  st' = st /\ (auth_pending st = false \/ exists x, r = RRaise x).
Proof.
  inversion 1; subst; split; try reflexivity; unfold auth_pending.
  - left. now rewrite H1.
  - left. rewrite H1, H2, H3. reflexivity.
  - right. eauto.
  - right. eauto.
Qed.

Lemma answers_wire st i e r st' :
  answers st i e r st' ->
  wire st' = wire st
  \/ exists f, e = Transmit f
               /\ wire st' = wire st ++ [Sent i f (auth_pending st) (lock st)].
Proof. destruct 1; simpl; eauto. Qed.

Lemma gate_task_step st i t e k r st' :
  pool st !! i = Some t -> rest t = Do e k -> answers st i e r st' ->
  gate_invariant fuel ws st ->
  gate_invariant fuel ws
    (with_pool st' (<[i := Task (origin t) (k r)]> (pool st'))).
Proof.
  intros Hi Hr Ha (W1 & W2 & G1 & G2).
  destruct (answers_frame _ _ _ _ _ Ha) as [Hp Hau].
  assert (done (rest t) = false) as Hnd by (rewrite Hr; reflexivity).
  assert (i < length (pool st))%nat as Hlt by (eapply lookup_lt_Some; eauto).
  assert (forall c, auth_pending st = false ->
                    auth_pending
                      (with_pool st' (<[i := Task (origin t) c]> (pool st')))
                    = false) as Hmono.
  { intros c Hpend.
    rewrite <- (auth_over_task_step st i t c (lock st) W1 Hi Hnd Hpend).
    apply auth_pending_ext; simpl; congruence. }
  (* what a gated task [i] can be doing when it takes this step *)
  assert (gated_send fuel ws (origin t) ->
          (e = WaitAuthtask
           /\ (auth_pending st = false \/ done (k r) = true))
          \/ auth_pending st = false) as Hi_gated.
  { intros Hg. destruct (G1 i t Hi Hg) as [Ho | [Hd | Hpend]].
    - left. destruct (gated_send_starts _ Hg) as [k0 [E Hk0]].
      rewrite <- Ho, Hr in E. injection E as -> ->. split; [reflexivity |].
      destruct (answers_wait _ _ _ _ Ha) as [_ [Hpend | [x ->]]];
        [left; exact Hpend | right; rewrite Hk0; reflexivity].
    - rewrite Hnd in Hd. discriminate Hd.
    - right. exact Hpend. }
  unfold gate_invariant. simpl. rewrite Hp, Hau. rewrite Hp in Hmono.
  split; [| split; [| split]].
  - intros a Ea. rewrite length_insert. auto.
  - intros s Hs. rewrite length_insert.
    destruct (answers_wire _ _ _ _ _ Ha) as [Ew | [f [_ Ew]]];
      rewrite Ew in Hs; [auto |].
    apply in_app_or in Hs as [Hs | [<- | []]]; [auto | exact Hlt].
  - intros j tj Hj Hg. destruct (decide (j = i)) as [-> | Hne].
    + rewrite list_lookup_insert_eq in Hj by exact Hlt.
      injection Hj as <-. simpl in *.
      destruct (Hi_gated Hg) as [[_ [Hpend | Hd]] | Hpend]; auto.
    + rewrite list_lookup_insert_ne in Hj by congruence.
      destruct (G1 j tj Hj Hg) as [Ho | [Hd | Hpend]]; auto.
  - intros s ts Hs Hj Hg.
    assert (exists t0, pool st !! by_task s = Some t0
                       /\ origin t0 = origin ts) as [t0 [Hj0 Ho0]].
    { destruct (decide (by_task s = i)) as [E | Hne].
      - rewrite E in Hj. rewrite list_lookup_insert_eq in Hj by exact Hlt.
        injection Hj as <-. exists t. rewrite E. auto.
      - rewrite list_lookup_insert_ne in Hj by congruence. eauto. }
    rewrite <- Ho0 in Hg.
    destruct (answers_wire _ _ _ _ _ Ha) as [Ew | [f [Ee Ew]]];
      rewrite Ew in Hs; [eapply G2; eauto |].
    apply in_app_or in Hs as [Hs | [<- | []]]; [eapply G2; eauto |].
    simpl in *. rewrite Hi in Hj0. injection Hj0 as <-.
    destruct (Hi_gated Hg) as [[Ee' _] | Hpend]; [| exact Hpend].
    rewrite Ee in Ee'. discriminate Ee'.
Qed.

Lemma gate_step st st' :
  step st st' -> gate_invariant fuel ws st -> gate_invariant fuel ws st'.
Proof.
  intros Hs Hinv. destruct Hs as [st i t e k r st' Hi Hr Ha | st c | st].
  - eapply gate_task_step; eauto.
  - destruct Hinv as (W1 & W2 & G1 & G2).
    unfold gate_invariant. rewrite auth_over_spawn by exact W1. simpl.
    split; [| split; [| split]].
    + intros a Ea. rewrite length_app. specialize (W1 a Ea). lia.
    + intros s Hs. rewrite length_app. specialize (W2 s Hs). lia.
    + intros j tj Hj Hg.
      destruct (decide (j < length (pool st))%nat) as [Hlt | Hge].
      * rewrite lookup_app_l in Hj by exact Hlt. eauto.
      * rewrite lookup_app_r in Hj by lia.
        destruct (j - length (pool st))%nat as [|n]; simpl in Hj;
          [injection Hj as <-; left; reflexivity | discriminate Hj].
    + intros s ts Hs Hj Hg.
      rewrite lookup_app_l in Hj by (apply W2; exact Hs). eauto.
  - exact Hinv.
Qed.

Lemma gate_opened (auth0 : option (coro unit)) :
  gate_invariant fuel ws (opened auth0).
Proof.
  destruct auth0 as [c|]; unfold gate_invariant, opened; simpl.
  - split; [| split; [| split]].
    + intros a Ea. injection Ea as <-. lia.
    + intros s [].
    + intros [|j] tj Hj Hg; simpl in Hj; [| discriminate Hj].
      injection Hj as <-. left. reflexivity.
    + intros s ts [].
  - split; [| split; [| split]].
    + intros a Ea. discriminate Ea.
    + intros s [].
    + intros j tj Hj. discriminate Hj.
    + intros s ts [].
Qed.

Lemma gate_reachable st0 st :
  steps st0 st -> gate_invariant fuel ws st0 -> gate_invariant fuel ws st.
Proof.
  intros Hs H0. induction Hs as [| st1 st2 st3 _ IH Hst]; [exact H0 |].
  eapply gate_step; eauto.
Qed.

End GateFacts.

(** ** The send methods: which effects they perform *)

Section SendFacts.
Context `{Library}.
Variable fuel : nat.

Lemma RequestLimitHosts_cases (h : string)
    (l : ClientWebSocketResponse -> coro unit -> coro unit) :
  RequestLimitHosts.items fuel !! h = Some l ->
  l = RequestLimit.gmocoin fuel \/ l = RequestLimit.binance fuel.
Proof.
  unfold RequestLimitHosts.items. intros E.
  apply elem_of_list_to_map_2 in E.
  repeat (apply elem_of_cons in E as [E | E]; [injection E; auto |]).
  inversion E.
Qed.

Lemma MessageSignHosts_cases (h : string)
    (it : Item (ClientWebSocketResponse -> pyval -> coro pyval)) :
  MessageSignHosts.items !! h = Some it ->
  func it = MessageSign.binance /\ MessageSign.names !! h = Some (name it).
Proof.
  unfold MessageSignHosts.items. intros E.
  apply elem_of_list_to_map_2 in E.
  repeat (apply elem_of_cons in E as [E | E];
          [injection E as -> ->; split; reflexivity |]).
  inversion E.
Qed.

Section Closed.
(** A property of effects that holds of all those a physical send, the
    lock, the polling of a rate limit and the clock are made of. *)
Variable P : eff -> Prop.
Hypothesis P_transmit : forall f, P (Transmit f).
Hypothesis P_acquire : P LockAcquire.
Hypothesis P_release : P LockRelease.
Hypothesis P_sleep : forall d, P (Sleep d).
Hypothesis P_http : forall u, P (HttpTime u).
Hypothesis P_now : P TimeNow.

Lemma gmocoin_poll_effects n before :
  all_effects P (RequestLimit.gmocoin_poll n before).
Proof.
  induction n as [|n IH]; cbn [RequestLimit.gmocoin_poll]; [constructor |].
  apply all_effects_mbind; [apply all_effects_await_unit; auto |].
  intros _. apply all_effects_mbind; [apply all_effects_await_num; auto |].
  intros after. destruct (Qle_bool 1 (after - before)); [constructor | exact IH].
Qed.

Lemma binance_poll_effects n before :
  all_effects P (RequestLimit.binance_poll n before).
Proof.
  induction n as [|n IH]; cbn [RequestLimit.binance_poll]; [constructor |].
  apply all_effects_mbind; [apply all_effects_await_unit; auto |].
  intros _. apply all_effects_mbind; [apply all_effects_await_num; auto |].
  intros after. destruct (negb _); [constructor | exact IH].
Qed.

Lemma async_with_lock_effects (c : coro unit) :
  all_effects P c -> all_effects P (async_with_lock c).
Proof.
  intros Hc. unfold async_with_lock.
  apply all_effects_mbind; [apply all_effects_await_unit; auto |].
  intros _. apply all_effects_try_finally;
    [exact Hc | apply all_effects_await_unit; auto].
Qed.

Lemma send_str_effects ws s : all_effects P (send_str fuel ws s).
Proof.
  unfold send_str.
  assert (all_effects P (super_send_str s)) as Hs
    by (apply all_effects_await_unit; auto).
  destruct (RequestLimitHosts.items fuel !! url_host ws) as [l|] eqn:E;
    [| exact Hs].
  destruct (RequestLimitHosts_cases _ _ E) as [-> | ->];
    apply async_with_lock_effects;
    (apply all_effects_mbind; [exact Hs |]); intros _;
    (apply all_effects_mbind; [apply all_effects_await_num; auto |]);
    intros before;
    [apply gmocoin_poll_effects | apply binance_poll_effects].
Qed.

Lemma sign_effects ws data : all_effects P (MessageSign.binance ws data).
Proof.
  unfold MessageSign.binance.
  repeat (apply all_effects_mbind; [apply all_effects_or_raise |]; intros ?).
  destruct (negb _); [constructor |].
  destruct data; try apply ae_raise.
  destruct (dict_get "params" d) as [[]|]; try apply ae_ret.
  apply all_effects_mbind; [apply all_effects_await_num; auto |].
  intros now. constructor.
Qed.

Lemma send_json_self_effects ws data auth :
  all_effects P (send_json fuel ws data true auth).
Proof.
  unfold send_json. simpl negb. cbv iota.
  apply all_effects_mbind; [constructor |]. intros _.
  apply all_effects_mbind; [| intros d; apply send_str_effects].
  unfold sign_hook. destruct auth; [| constructor].
  destruct (MessageSignHosts.items !! url_host ws) as [it|] eqn:E;
    [| constructor].
  destruct (MessageSignHosts_cases _ _ E) as [-> _].
  destruct (_apis ws !! name it); [| constructor].
  destruct (py_truthy data); [apply sign_effects | constructor].
Qed.

End Closed.

End SendFacts.

Section GateTheorem.
Import Tasks.

(** C1.  On a connection as [__init__] leaves it, however its tasks
    interleave and whatever new tasks arrive: a payload put on the wire by
    a [send_json] call not marked as the hook's own went out with the Auth
    task absent or over; and a [send_json] call so marked never waits for
    the Auth task. *)
Theorem C1_auth_gate `{Library}
    (fuel : nat) (ws : ClientWebSocketResponse) (st : sys) :
  steps (opened (_authtask (__init__ fuel ws))) st ->
  (forall s t,
      In s (wire st) -> pool st !! by_task s = Some t ->
      gated_send fuel ws (origin t) ->
      auth_running s = false)
  /\ (forall (data : pyval) (auth : bool)
             (S : Type) (env : S -> eff -> S * resp) (s0 : S),
         Forall (fun e => e <> WaitAuthtask)
                (effects (trace_of (run env s0 (send_json fuel ws data true auth))))).
Proof.
  intros Hs. split.
  - pose proof (gate_reachable fuel ws _ _ Hs (gate_opened fuel ws _))
      as (_ & _ & _ & G2).
    exact G2.
  - intros data auth S env s0. apply all_effects_run.
    apply send_json_self_effects; intros; discriminate.
Qed.

Lemma C1_auth_gate_witness :
  match exec sample_gate_schedule
             (opened (_authtask (__init__ (H := sample_library) 3 sample_mexc)))
  with
  | Some st =>
      steps (opened (_authtask (__init__ (H := sample_library) 3 sample_mexc)))
            st
      /\ map (fun s => (by_task s, auth_running s)) (wire st)
         = [(0%nat, true); (1%nat, false)]
      /\ (forall s t,
             In s (wire st) -> pool st !! by_task s = Some t ->
             gated_send (H := sample_library) 3 sample_mexc (origin t) ->
             auth_running s = false)
  | None => False
  end.
Proof.
  destruct (exec sample_gate_schedule _) as [st|] eqn:E.
  - pose proof (exec_steps _ _ _ E) as Hs.
    split; [exact Hs | split].
    + vm_compute in E. injection E as <-. reflexivity.
    + exact (proj1 (C1_auth_gate (H := sample_library) 3 sample_mexc st Hs)).
  - vm_compute in E. discriminate E.
Defined.

End GateTheorem.

(** ** The send lock *)

Section LockFacts.
Import Tasks.

Lemma bracketed_inv (g h : bool) (e : eff) (k : resp -> coro unit) :
  bracketed g h (Do e k) ->
  match e with
  | LockAcquire => h = false /\ forall r, bracketed g (negb (failed r)) (k r)
  | LockRelease => h = true /\ forall r, bracketed g false (k r)
  | Transmit _ => (g = true -> h = true) /\ forall r, bracketed g h (k r)
  | _ => forall r, bracketed g h (k r)
  end.
Proof.
  inversion 1; subst; auto.
  destruct e; try discriminate; auto.
Qed.

Lemma bracketed_done (g h : bool) (c : coro unit) :
  bracketed g h c -> done c = true -> h = false.
Proof. destruct 1; simpl; try discriminate; auto. Qed.

Lemma bracketed_step (g h : bool) (e : eff) (k : resp -> coro unit) (r : resp) :
  bracketed g h (Do e k) -> bracketed g (holding_after h e r) (k r).
Proof.
  intros B. apply bracketed_inv in B.
  destruct e; simpl; try (apply B); destruct B as [_ B]; apply B.
Qed.

Lemma answers_lock st i e r st' :
  answers st i e r st' ->
  (e = LockAcquire /\ r = RUnit /\ lock st = None /\ lock st' = Some i)
  \/ (e = LockRelease /\ lock st' = None)
  \/ (lock st' = lock st
      /\ (e = LockAcquire -> failed r = true) /\ e <> LockRelease).
Proof.
  destruct 1; simpl; auto;
    try (right; right; repeat split; (discriminate || auto); fail).
  right. right. repeat split; auto.
  intros ->. discriminate H.
Qed.

Lemma lock_task_step st i t e k r st' :
  pool st !! i = Some t -> rest t = Do e k -> answers st i e r st' ->
  lock_invariant st ->
  lock_invariant (with_pool st' (<[i := Task (origin t) (k r)]> (pool st'))).
Proof.
  intros Hi Hr Ha (L0 & L1 & L2 & L3).
  destruct (answers_frame _ _ _ _ _ Ha) as [Hp _].
  assert (i < length (pool st))%nat as Hlt by (eapply lookup_lt_Some; eauto).
  destruct (L2 i t Hi) as (h & B1 & B2 & Hh). rewrite Hr in B1, B2.
  (* the lock after the step, seen from task [i] and from the others *)
  assert ((holding_after h e r = true <-> lock st' = Some i)
          /\ (forall j, j <> i -> lock st' = Some j <-> lock st = Some j))
    as [Hi' Hothers].
  { apply bracketed_inv in B1.
    destruct (answers_lock _ _ _ _ _ Ha)
      as [(-> & -> & Lf & Lt) | [(-> & Lt) | (Ls & Hacq & Hrel)]]; simpl.
    - split; [rewrite Lt; tauto |].
      intros j Hj. rewrite Lt, Lf. split; congruence.
    - destruct B1 as [-> _]. split; [rewrite Lt; split; discriminate |].
      intros j Hj. rewrite Lt. destruct Hh as [Hh _]. rewrite (Hh eq_refl).
      split; congruence.
    - split; [| intros j _; rewrite Ls; tauto].
      rewrite Ls. destruct e; simpl; try exact Hh; [| contradiction].
      destruct B1 as [-> _]. rewrite (Hacq eq_refl). simpl.
      split; [discriminate |]. intros E. apply Hh in E. discriminate E. }
  unfold lock_invariant. simpl. rewrite Hp.
  split; [| split; [| split]].
  - intros j Ej. rewrite length_insert.
    destruct (decide (j = i)) as [-> | Hne]; [exact Hlt |].
    apply L0. apply Hothers; assumption.
  - intros s Hs. rewrite length_insert.
    destruct (answers_wire _ _ _ _ _ Ha) as [Ew | [f [_ Ew]]];
      rewrite Ew in Hs; [auto |].
    apply in_app_or in Hs as [Hs | [<- | []]]; [auto | exact Hlt].
  - intros j tj Hj. destruct (decide (j = i)) as [-> | Hne].
    + rewrite list_lookup_insert_eq in Hj by exact Hlt.
      injection Hj as <-. simpl.
      exists (holding_after h e r). split; [| split].
      * apply bracketed_step. exact B1.
      * intros Hg. apply bracketed_step. apply B2. exact Hg.
      * exact Hi'.
    + rewrite list_lookup_insert_ne in Hj by congruence.
      destruct (L2 j tj Hj) as (hj & C1 & C2 & Hhj).
      exists hj. split; [exact C1 | split; [exact C2 |]].
      rewrite Hhj. symmetry. apply Hothers. exact Hne.
  - intros s ts Hs Hj Hg.
    assert (exists t0, pool st !! by_task s = Some t0
                       /\ origin t0 = origin ts) as [t0 [Hj0 Ho0]].
    { destruct (decide (by_task s = i)) as [E | Hne].
      - rewrite E in Hj. rewrite list_lookup_insert_eq in Hj by exact Hlt.
        injection Hj as <-. exists t. rewrite E. auto.
      - rewrite list_lookup_insert_ne in Hj by congruence. eauto. }
    rewrite <- Ho0 in Hg.
    destruct (answers_wire _ _ _ _ _ Ha) as [Ew | [f [Ee Ew]]];
      rewrite Ew in Hs; [eapply L3; eauto |].
    apply in_app_or in Hs as [Hs | [<- | []]]; [eapply L3; eauto |].
    simpl in *. rewrite Hi in Hj0. injection Hj0 as <-.
    specialize (B2 Hg). rewrite Ee in B2. apply bracketed_inv in B2.
    destruct B2 as [Hgh _]. apply Hh. apply Hgh. reflexivity.
Qed.

Lemma lock_step st st' :
  step st st' -> well_behaved st' -> lock_invariant st -> lock_invariant st'.
Proof.
  intros Hs Hwb Hinv. destruct Hs as [st i t e k r st' Hi Hr Ha | st c | st].
  - eapply lock_task_step; eauto.
  - destruct Hinv as (L0 & L1 & L2 & L3).
    unfold lock_invariant. simpl.
    split; [| split; [| split]].
    + intros j Ej. rewrite length_app. specialize (L0 j Ej). lia.
    + intros s Hs. rewrite length_app. specialize (L1 s Hs). lia.
    + intros j tj Hj.
      destruct (decide (j < length (pool st))%nat) as [Hlt | Hge].
      * rewrite lookup_app_l in Hj by exact Hlt. eauto.
      * assert ((pool st ++ [Task c c]) !! j = Some tj) as Hj' by exact Hj.
        rewrite lookup_app_r in Hj by lia.
        destruct (j - length (pool st))%nat as [|n] eqn:En; simpl in Hj;
          [injection Hj as <- | discriminate Hj].
        exists false. split; [| split].
        -- exact (Hwb j _ Hj').
        -- auto.
        -- split; [discriminate |]. intros E. apply L0 in E. lia.
    + intros s ts Hs Hj Hg.
      rewrite lookup_app_l in Hj by (apply L1; exact Hs). eauto.
  - exact Hinv.
Qed.

Lemma well_behaved_back st st' :
  step st st' -> well_behaved st' -> well_behaved st.
Proof.
  unfold well_behaved.
  intros Hs Hwb j tj Hj. destruct Hs as [st i t e k r st' Hi Hr Ha | st c | st].
  - destruct (answers_frame _ _ _ _ _ Ha) as [Hp _].
    destruct (decide (j = i)) as [-> | Hne].
    + rewrite Hi in Hj. injection Hj as <-.
      apply (Hwb i (Task (origin t) (k r))). simpl. rewrite Hp.
      apply list_lookup_insert_eq. eapply lookup_lt_Some; eauto.
    + apply (Hwb j tj). simpl. rewrite Hp.
      rewrite list_lookup_insert_ne by congruence. exact Hj.
  - apply (Hwb j tj). simpl. apply lookup_app_l_Some. exact Hj.
  - apply (Hwb j tj). exact Hj.
Qed.

Lemma lock_reachable st0 st :
  steps st0 st -> well_behaved st -> lock_invariant st0 -> lock_invariant st.
Proof.
  intros Hs. induction Hs as [| st1 st2 st3 _ IH Hst]; intros Hwb H0;
    [exact H0 |].
  eapply lock_step; [exact Hst | exact Hwb |].
  apply IH; [eapply well_behaved_back; eauto | exact H0].
Qed.

Lemma lock_opened (auth0 : option (coro unit)) :
  well_behaved (opened auth0) -> lock_invariant (opened auth0).
Proof.
  intros Hwb. destruct auth0 as [c|]; unfold lock_invariant, opened; simpl.
  - split; [| split; [| split]].
    + intros i Ei. discriminate Ei.
    + intros s [].
    + intros [|j] tj Hj; simpl in Hj; [| discriminate Hj].
      injection Hj as <-. exists false. split; [| split].
      * exact (Hwb 0%nat (Task c c) eq_refl).
      * auto.
      * split; discriminate.
    + intros s ts [].
  - split; [| split; [| split]].
    + intros i Ei. discriminate Ei.
    + intros s [].
    + intros j tj Hj. discriminate Hj.
    + intros s ts [].
Qed.

End LockFacts.

(** ** Runs that return *)

Section RunFacts.
Context {S : Type}.
Variable env : S -> eff -> S * resp.

Lemma run_bind_returned {A B : Type} (c : coro A) (f : A -> coro B)
    (s s2 : S) (tr : list (S * eff * resp)) (b : B) :
  run env s (c ≫= f) = (tr, s2, Returned b) ->
  exists tr1 s1 a tr2,
    run env s c = (tr1, s1, Returned a)
    /\ run env s1 (f a) = (tr2, s2, Returned b)
    /\ tr = tr1 ++ tr2.
Proof.
  rewrite run_bind.
  destruct (run env s c) as [[tr1 s1] [a | x |]]; try discriminate.
  destruct (run env s1 (f a)) as [[tr2 s2'] res2] eqn:E2.
  intros E. injection E as <- <- ->. exists tr1, s1, a, tr2. auto.
Qed.

Lemma run_try_finally_returned {A : Type} (c : coro A) (fin : coro unit)
    (s s2 : S) (tr : list (S * eff * resp)) (a : A) :
  run env s (try_finally c fin) = (tr, s2, Returned a) ->
  exists tr1 s1 tr2,
    run env s c = (tr1, s1, Returned a)
    /\ run env s1 fin = (tr2, s2, Returned tt)
    /\ tr = tr1 ++ tr2.
Proof.
  rewrite run_try_finally.
  destruct (run env s c) as [[tr1 s1] [a' | x |]]; try discriminate;
    destruct (run env s1 fin) as [[tr2 s2'] [[] | y |]] eqn:E2;
    try discriminate.
  intros E. injection E as <- <- ->. exists tr1, s1, tr2. auto.
Qed.

Lemma run_await_unit_returned (e : eff) (s s1 : S)
    (tr : list (S * eff * resp)) :
  run env s (await_unit e) = (tr, s1, Returned tt) ->
  exists r, tr = [(s, e, r)] /\ Tasks.failed r = false.
Proof.
  simpl. destruct (env s e) as [s' r].
  destruct r; simpl; intros E; try discriminate E;
    injection E as <- <-; eexists; split; reflexivity.
Qed.

Lemma run_await_num_returned (e : eff) (s s1 : S)
    (tr : list (S * eff * resp)) (q : Q) :
  run env s (await_num e) = (tr, s1, Returned q) ->
  tr = [(s, e, RNum q)].
Proof.
  simpl. destruct (env s e) as [s' r].
  destruct r; simpl; intros E; try discriminate E.
  injection E as <- <- <-. reflexivity.
Qed.

Lemma exchanges_app (t1 t2 : list (S * eff * resp)) :
  exchanges (t1 ++ t2) = exchanges t1 ++ exchanges t2.
Proof. apply map_app. Qed.

(** A poll loop that returns ends on a reading of the server clock far
    enough from the first one. *)
Lemma gmocoin_poll_returned (n : nat) (before : Q) (s s1 : S)
    (tr : list (S * eff * resp)) :
  run env s (RequestLimit.gmocoin_poll n before) = (tr, s1, Returned tt) ->
  exists mid r after,
    exchanges tr
    = mid ++ [(Sleep 1, r); (HttpTime RequestLimit.gmocoin_status, RNum after)]
    /\ (1 <= after - before)%Q
    /\ Forall (fun x => is_Transmit (fst x) = false /\ is_Lock (fst x) = false)
              mid.
Proof.
  revert s tr. induction n as [|n IH]; intros s tr E; [discriminate E |].
  cbn [RequestLimit.gmocoin_poll] in E.
  apply run_bind_returned in E as (tr1 & s2 & [] & tr2 & E1 & E2 & ->).
  apply run_await_unit_returned in E1 as (r & -> & _).
  apply run_bind_returned in E2 as (tr3 & s3 & after & tr4 & E3 & E4 & ->).
  apply run_await_num_returned in E3 as ->.
  destruct (Qle_bool 1 (after - before)) eqn:Hq.
  - injection E4 as <- _. exists [], r, after. simpl.
    split; [reflexivity | split; [apply Qle_bool_iff; exact Hq | constructor]].
  - apply IH in E4 as (mid & r' & after' & E & Hd & Hmid).
    exists ((Sleep 1, r)
              :: (HttpTime RequestLimit.gmocoin_status, RNum after) :: mid),
      r', after'.
    split; [| split; [exact Hd |]].
    + rewrite !exchanges_app, E. reflexivity.
    + repeat constructor; assumption.
Qed.

Lemma binance_poll_returned (n : nat) (before : Q) (s s1 : S)
    (tr : list (S * eff * resp)) :
  run env s (RequestLimit.binance_poll n before) = (tr, s1, Returned tt) ->
  exists mid r after,
    exchanges tr
    = mid ++ [(Sleep (1 # 4), r);
              (HttpTime RequestLimit.binance_time, RNum after)]
    /\ ((1 # 4) < after - before)%Q
    /\ Forall (fun x => is_Transmit (fst x) = false /\ is_Lock (fst x) = false)
              mid.
Proof.
  revert s tr. induction n as [|n IH]; intros s tr E; [discriminate E |].
  cbn [RequestLimit.binance_poll] in E.
  apply run_bind_returned in E as (tr1 & s2 & [] & tr2 & E1 & E2 & ->).
  apply run_await_unit_returned in E1 as (r & -> & _).
  apply run_bind_returned in E2 as (tr3 & s3 & after & tr4 & E3 & E4 & ->).
  apply run_await_num_returned in E3 as ->.
  destruct (Qle_bool (after - before) (1 # 4)) eqn:Hq; simpl negb in E4;
    cbv iota in E4.
  - apply IH in E4 as (mid & r' & after' & E & Hd & Hmid).
    exists ((Sleep (1 # 4), r)
              :: (HttpTime RequestLimit.binance_time, RNum after) :: mid),
      r', after'.
    split; [| split; [exact Hd |]].
    + rewrite !exchanges_app, E. reflexivity.
    + repeat constructor; assumption.
  - injection E4 as <- _. exists [], r, after. simpl.
    split; [reflexivity | split; [| constructor]].
    apply Qnot_le_lt. intros Hle. apply Qle_bool_iff in Hle.
    rewrite Hle in Hq. discriminate Hq.
Qed.

End RunFacts.

(** ** Which sends go through the lock *)

Section LockedSends.
Context `{Library}.
Variable fuel : nat.
Import Tasks.

Lemma bracketed_weaken (h : bool) (c : coro unit) :
  bracketed true h c -> bracketed false h c.
Proof.
  induction 1; try constructor; auto.
Qed.

(** Effects that are neither a send nor the lock, then a coroutine that
    keeps to the discipline. *)
Lemma bracketed_after {A : Type} (g : bool) (c : coro A)
    (f : A -> coro unit) :
  all_effects (fun e => is_Lock e = false /\ is_Transmit e = false) c ->
  (forall a, bracketed g false (f a)) ->
  bracketed g false (c ≫= f).
Proof.
  intros Hc Hf. induction Hc as [a | x | | e k [He1 He2] _ IH].
  - apply Hf.
  - constructor.
  - constructor.
  - change (Do e k ≫= f) with (Do e (fun r => k r ≫= f)).
    apply br_other; assumption.
Qed.

(** A body without lock effects, run inside [async with ws._lock]. *)
Lemma async_with_lock_bracketed (g : bool) (c : coro unit) :
  all_effects (fun e => is_Lock e = false) c ->
  bracketed g false (async_with_lock c).
Proof.
  intros Hc. unfold async_with_lock.
  change (await_unit LockAcquire ≫= (fun _ => try_finally c (await_unit LockRelease)))
    with (Do LockAcquire
            (fun r => (match r with RRaise x => Raise x | _ => Ret tt end)
                        ≫= (fun _ => try_finally c (await_unit LockRelease)))).
  assert (bracketed g true (try_finally c (await_unit LockRelease))) as Hbody.
  { induction Hc as [a | x | | e k He _ IH]; simpl.
    - apply br_release. intros []; constructor.
    - apply br_release. intros []; constructor.
    - constructor.
    - destruct e; try discriminate He;
        try (apply br_other; [reflexivity | reflexivity | exact IH]).
      apply br_transmit; auto. }
  apply br_acquire. intros []; simpl; try exact Hbody. constructor.
Qed.

Lemma send_str_limited ws text l :
  RequestLimitHosts.items fuel !! url_host ws = Some l ->
  send_str fuel ws text = l ws (super_send_str text)
  /\ ((l = RequestLimit.gmocoin fuel /\ url_host ws = "api.coin.z.com")
      \/ (l = RequestLimit.binance fuel
          /\ url_host ws = "stream.binance.com")).
Proof.
  intros E. unfold send_str. rewrite E. split; [reflexivity |].
  unfold RequestLimitHosts.items in E.
  apply elem_of_list_to_map_2 in E.
  repeat (apply elem_of_cons in E as [E | E]; [injection E; auto |]).
  inversion E.
Qed.

Lemma send_str_locked ws text :
  is_Some (RequestLimitHosts.items fuel !! url_host ws) ->
  bracketed true false (send_str fuel ws text).
Proof.
  intros [l E]. destruct (send_str_limited ws text l E) as [-> Hl].
  assert (all_effects (fun e => is_Lock e = false) (super_send_str text))
    as Hs by (apply all_effects_await_unit; reflexivity).
  destruct Hl as [[-> _] | [-> _]]; apply async_with_lock_bracketed;
    (apply all_effects_mbind; [exact Hs |]); intros _;
    (apply all_effects_mbind; [apply all_effects_await_num; reflexivity |]);
    intros before;
    [apply gmocoin_poll_effects | apply binance_poll_effects];
    reflexivity.
Qed.

Lemma send_str_bracketed ws text :
  bracketed false false (send_str fuel ws text).
Proof.
  destruct (RequestLimitHosts.items fuel !! url_host ws) as [l|] eqn:E.
  - apply bracketed_weaken, send_str_locked. eauto.
  - unfold send_str. rewrite E. apply br_transmit; [discriminate |].
    intros []; constructor.
Qed.

Lemma send_bytes_bracketed ws b : bracketed false false (send_bytes ws b).
Proof. apply br_transmit; [discriminate |]. intros []; constructor. Qed.

Lemma send_json_prefix ws data itself auth (g : bool) :
  (forall text, bracketed g false (send_str fuel ws text)) ->
  bracketed g false (send_json fuel ws data itself auth).
Proof.
  intros Hs. unfold send_json.
  apply bracketed_after.
  { destruct itself; simpl; [constructor |].
    apply all_effects_await_unit. split; reflexivity. }
  intros _. apply bracketed_after; [| intros d; apply Hs].
  unfold sign_hook. destruct auth; [| constructor].
  destruct (MessageSignHosts.items !! url_host ws) as [it|] eqn:E;
    [| constructor].
  destruct (MessageSignHosts_cases _ _ E) as [-> _].
  destruct (_apis ws !! name it); [| constructor].
  destruct (py_truthy data); [| constructor].
  apply sign_effects. split; reflexivity.
Qed.

(** The hook lets go of the lock only after the server clock has been
    seen to move on from its first reading. *)
Lemma send_str_paced {S : Type} (env : S -> eff -> S * resp) ws text
    (s0 s1 : S) (tr : list (S * eff * resp)) :
  is_Some (RequestLimitHosts.items fuel !! url_host ws) ->
  run env s0 (send_str fuel ws text) = (tr, s1, Returned tt) ->
  exists acq sent0 url before mid slept woke after rel,
    exchanges tr
    = (LockAcquire, acq) :: (Transmit (FText text), sent0)
        :: (HttpTime url, RNum before)
        :: mid ++ [(Sleep slept, woke); (HttpTime url, RNum after);
                   (LockRelease, rel)]
    /\ Forall (fun x => is_Transmit (fst x) = false
                        /\ is_Lock (fst x) = false) mid
    /\ (url_host ws = "api.coin.z.com" -> (1 <= after - before)%Q)
    /\ (url_host ws = "stream.binance.com" -> ((1 # 4) < after - before)%Q).
Proof.
  intros [l E] Hrun. destruct (send_str_limited ws text l E) as [Es Hl].
  rewrite Es in Hrun. clear Es.
  destruct Hl as [[-> Hh] | [-> Hh]];
    unfold RequestLimit.gmocoin, RequestLimit.binance, async_with_lock in Hrun;
    apply run_bind_returned in Hrun as (t1 & s2 & [] & t2 & E1 & E2 & ->);
    apply run_await_unit_returned in E1 as (acq & -> & _);
    apply run_try_finally_returned in E2 as (t3 & s3 & t4 & E3 & E4 & ->);
    apply run_await_unit_returned in E4 as (rel & -> & _);
    apply run_bind_returned in E3 as (t5 & s4 & [] & t6 & E5 & E6 & ->);
    apply run_await_unit_returned in E5 as (sent0 & -> & _);
    apply run_bind_returned in E6 as (t7 & s5 & before & t8 & E7 & E8 & ->);
    apply run_await_num_returned in E7 as ->.
  - apply gmocoin_poll_returned in E8 as (mid & woke & after & Ex & Hd & Hm).
    exists acq, sent0, RequestLimit.gmocoin_status, before, mid, 1%Q, woke,
      after, rel.
    split; [| split; [exact Hm | split; [intros _; exact Hd |]]].
    + rewrite !exchanges_app, Ex. simpl. rewrite <- app_assoc. reflexivity.
    + rewrite Hh. discriminate.
  - apply binance_poll_returned in E8 as (mid & woke & after & Ex & Hd & Hm).
    exists acq, sent0, RequestLimit.binance_time, before, mid, (1 # 4)%Q,
      woke, after, rel.
    split; [| split; [exact Hm | split; [| intros _; exact Hd]]].
    + rewrite !exchanges_app, Ex. simpl. rewrite <- app_assoc. reflexivity.
    + rewrite Hh. discriminate.
Qed.

End LockedSends.

Section LockTheorem.
Import Tasks.

(** C7, as the code has it.  On a host with a RateLimit hook every text
    send, and every JSON send (whose physical send is a text send),
    transmits only inside [ws._lock] and lets go of the lock only after
    the hook has seen the server clock move on; tasks that keep to the
    lock discipline can then never transmit such a send without holding
    the lock.  A binary send is one physical send on every host: the
    class does not override [send_bytes].  On a host without a hook a
    text send is one physical send as well. *)
Theorem C7_text_sends_locked `{Library}
    (fuel : nat) (ws : ClientWebSocketResponse) :
  (is_Some (RequestLimitHosts.items fuel !! url_host ws) ->
     (forall text, bracketed true false (send_str fuel ws text))
     /\ (forall data itself auth,
            bracketed true false (send_json fuel ws data itself auth))
     /\ (forall (S : Type) (env : S -> eff -> S * resp) text s0 s1 tr,
            run env s0 (send_str fuel ws text) = (tr, s1, Returned tt) ->
            exists acq sent0 url before mid slept woke after rel,
              exchanges tr
              = (LockAcquire, acq) :: (Transmit (FText text), sent0)
                  :: (HttpTime url, RNum before)
                  :: mid ++ [(Sleep slept, woke); (HttpTime url, RNum after);
                             (LockRelease, rel)]
              /\ Forall (fun x => is_Transmit (fst x) = false
                                  /\ is_Lock (fst x) = false) mid
              /\ (url_host ws = "api.coin.z.com" ->
                  (1 <= after - before)%Q)
              /\ (url_host ws = "stream.binance.com" ->
                  ((1 # 4) < after - before)%Q)))
  /\ (forall data,
         send_json fuel ws data true false = send_str fuel ws (json_dumps data))
  /\ (forall auth0 st,
         steps (opened auth0) st -> well_behaved st ->
         forall s t,
           In s (wire st) -> pool st !! by_task s = Some t ->
           bracketed true false (origin t) ->
           lock_holder s = Some (by_task s))
  /\ (forall b, send_bytes ws b = await_unit (Transmit (FBinary b)))
  /\ (RequestLimitHosts.items fuel !! url_host ws = None ->
      forall text, send_str fuel ws text = await_unit (Transmit (FText text))).
Proof.
  split; [| split; [| split; [| split]]].
  - intros Hrl. split; [| split].
    + intros text. apply send_str_locked. exact Hrl.
    + intros data itself auth. apply send_json_prefix.
      intros text. apply send_str_locked. exact Hrl.
    + intros S env text s0 s1 tr Hrun.
      exact (send_str_paced fuel env ws text s0 s1 tr Hrl Hrun).
  - reflexivity.
  - intros auth0 st Hs Hwb.
    assert (well_behaved (opened auth0)) as Hwb0.
    { clear -Hs Hwb. induction Hs as [| st1 st2 st3 _ IH Hst]; [exact Hwb |].
      apply IH. eapply well_behaved_back; eauto. }
    pose proof (lock_reachable _ _ Hs Hwb (lock_opened auth0 Hwb0))
      as (_ & _ & _ & L3).
    exact L3.
  - reflexivity.
  - intros E text. unfold send_str. rewrite E. reflexivity.
Qed.

Lemma C7_text_sends_locked_witness :
  match exec sample_text_schedule (opened None) with
  | Some st =>
      is_Some (RequestLimitHosts.items 2 !! url_host sample_binance)
      /\ steps (opened None) st
      /\ well_behaved st
      /\ map (fun s => (sent_frame s, lock_holder s)) (wire st)
         = [(FText "t", Some 0%nat)]
      /\ (forall s t,
             In s (wire st) -> pool st !! by_task s = Some t ->
             bracketed true false (origin t) ->
             lock_holder s = Some (by_task s))
  | None => False
  end.
Proof.
  destruct (exec sample_text_schedule (opened None)) as [st|] eqn:E.
  - pose proof (exec_steps _ _ _ E) as Hs.
    assert (is_Some (RequestLimitHosts.items 2 !! url_host sample_binance))
      as Hrl by (vm_compute; eauto).
    assert (well_behaved st) as Hwb.
    { vm_compute in E. injection E as <-. intros [|i] t Hi; [| discriminate Hi].
      injection Hi as <-.
      exact (send_str_bracketed 2 sample_binance "t"). }
    split; [exact Hrl | split; [exact Hs | split; [exact Hwb | split]]].
    + vm_compute in E. injection E as <-. reflexivity.
    + exact (proj1 (proj2 (proj2
               (C7_text_sends_locked (H := sample_library) 2 sample_binance)))
               None st Hs Hwb).
  - vm_compute in E. discriminate E.
Defined.

(** C7 as stated fails: on stream.binance.com, a host with a RateLimit
    hook, a binary send goes out with nobody holding the lock. *)
Lemma C7_counterexample :
  ~ (forall (fuel : nat) (ws : ClientWebSocketResponse) (b : string)
            (st : sys),
        is_Some (RequestLimitHosts.items fuel !! url_host ws) ->
        steps (opened None) st ->
        forall s t,
          In s (wire st) -> pool st !! by_task s = Some t ->
          origin t = send_bytes ws b ->
          lock_holder s = Some (by_task s)).
Proof.
  intros Hall.
  destruct (exec sample_binary_schedule (opened None)) as [st|] eqn:E;
    [| vm_compute in E; discriminate E].
  pose proof (exec_steps _ _ _ E) as Hs.
  assert (is_Some (RequestLimitHosts.items 2 !! url_host sample_binance))
    as Hrl by (vm_compute; eauto).
  specialize (Hall 2%nat sample_binance "b" st Hrl Hs).
  vm_compute in E. injection E as <-.
  specialize (Hall (Sent 0 (FBinary "b") false None)
                   (Task (send_bytes sample_binance "b") (Ret tt))
                   (or_introl eq_refl) eq_refl eq_refl).
  discriminate Hall.
Qed.

End LockTheorem.

(** ** The heartbeat *)

Section HeartbeatFacts.
Context `{Library}.

Lemma Qle_bool_false (x y : Q) : (y < x)%Q -> Qle_bool x y = false.
Proof.
  intros Hlt. destruct (Qle_bool x y) eqn:E; [| reflexivity].
  apply Qle_bool_iff in E. exfalso. apply (Qlt_irrefl y).
  eapply Qlt_le_trans; eauto.
Qed.

Lemma Qle_bool_true (x y : Q) : (x <= y)%Q -> Qle_bool x y = true.
Proof. apply Qle_bool_iff. Qed.

(** One turn of a heartbeat loop whose body is one physical text send
    and one sleep, while the socket is open. *)
Lemma heartbeat_turn (closes : Q) (n : nat) (text : string) (d : Q)
    (t j : Q) (js : list Q) :
  (t < closes)%Q ->
  run (timed closes) (Clock t (j :: js))
      (while_not_closed (S n)
         (super_send_str text;; await_unit (Sleep d)))
  = let '(tr, s, res) :=
      run (timed closes) (Clock (t + d + j) js)
          (while_not_closed n (super_send_str text;; await_unit (Sleep d))) in
    ((Clock t (j :: js), IsClosed, RBool false)
       :: (Clock t (j :: js), Transmit (FText text), RUnit)
       :: (Clock t (j :: js), Sleep d, RUnit) :: tr, s, res).
Proof.
  intros Hopen. cbn [while_not_closed].
  remember (while_not_closed n (super_send_str text;; await_unit (Sleep d)))
    as loop eqn:Eloop.
  cbn [run mbind coro_bind cbind await_bool await_unit super_send_str timed
       now lateness].
  rewrite (Qle_bool_false _ _ Hopen).
  cbn [run mbind coro_bind cbind await_bool await_unit super_send_str timed
       now lateness].
  rewrite (Qle_bool_false _ _ Hopen).
  cbn [run mbind coro_bind cbind await_bool await_unit super_send_str timed
       now lateness].
  destruct (run (timed closes) (Clock (t + d + j) js) loop) as [[tr s] res].
  reflexivity.
Qed.

(** The turn that finds the socket closed. *)
Lemma heartbeat_stop (closes : Q) (n : nat) (body : coro unit)
    (s : clock) :
  (closes <= now s)%Q ->
  run (timed closes) s (while_not_closed (S n) body)
  = ([(s, IsClosed, RBool true)], s, Returned tt).
Proof.
  intros Hclosed. cbn [while_not_closed].
  cbn [run mbind coro_bind cbind await_bool timed].
  rewrite (Qle_bool_true _ _ Hclosed). reflexivity.
Qed.

Lemma okx_hosts (fuel : nat) (ws : ClientWebSocketResponse) :
  In (url_host ws) ["ws.okx.com"; "wsaws.okx.com"; "wspap.okx.com"] ->
  HeartbeatHosts.items fuel !! url_host ws = Some (Heartbeat.okx fuel)
  /\ RequestLimitHosts.items fuel !! url_host ws = None.
Proof.
  intros [<- | [<- | [<- | []]]]; split; vm_compute; reflexivity.
Qed.

(** C8, as the code has it.  On an OKX host the connection starts the
    heartbeat [Heartbeat.okx]; with the socket closing at 46 seconds and
    wake-ups late by [j1], [j2], [j3] that add up to less than a second,
    exactly four frames go out, each the text [ping], at 0, 15 + j1,
    30 + j1 + j2 and 45 + j1 + j2 + j3 seconds, all before the socket
    closes, and the heartbeat then returns. *)
Theorem C8_heartbeat_pings
    (fuel : nat) (ws : ClientWebSocketResponse) (j1 j2 j3 j4 : Q) :
  In (url_host ws) ["ws.okx.com"; "wsaws.okx.com"; "wspap.okx.com"] ->
  (5 <= fuel)%nat ->
  (0 <= j1)%Q -> (0 <= j2)%Q -> (0 <= j3)%Q -> (0 <= j4)%Q ->
  (j1 + j2 + j3 < 1)%Q ->
  _pingtask (__init__ fuel ws) = Some (Heartbeat.okx fuel ws)
  /\ (let r := run (timed 46) (Clock 0 [j1; j2; j3; j4])
                   (Heartbeat.okx fuel ws) in
      sends (trace_of r)
      = [(0, FText "ping");
         (0 + 15 + j1, FText "ping");
         (0 + 15 + j1 + 15 + j2, FText "ping");
         (0 + 15 + j1 + 15 + j2 + 15 + j3, FText "ping")]%Q
      /\ outcome_of r = Returned tt
      /\ Forall (fun x => (fst x < 46)%Q) (sends (trace_of r))).
Proof.
  intros Hhost Hfuel H1 H2 H3 H4 Hsum.
  destruct (okx_hosts fuel ws Hhost) as [Hhb Hrl].
  split.
  { unfold __init__. cbn [_pingtask]. rewrite Hhb. reflexivity. }
  do 5 (destruct fuel as [|fuel]; [lia |]).
  unfold Heartbeat.okx.
  replace (send_str (S (S (S (S (S fuel))))) ws "ping")
    with (super_send_str "ping")
    by (unfold send_str; rewrite Hrl; reflexivity).
  rewrite heartbeat_turn by lra.
  rewrite heartbeat_turn by lra.
  rewrite heartbeat_turn by lra.
  rewrite heartbeat_turn by lra.
  rewrite heartbeat_stop by (simpl; lra).
  cbv zeta. cbn [trace_of outcome_of fst snd sends flat_map app now].
  split; [reflexivity | split; [reflexivity |]].
  repeat constructor; simpl; lra.
Qed.

(** C8 as stated fails: with wake-ups exactly on time, a connection open
    for 46 seconds sees four pings, the fourth at 45 seconds. *)
Lemma C8_counterexample :
  ~ (forall (fuel : nat) (ws : ClientWebSocketResponse),
        In (url_host ws) ["ws.okx.com"; "wsaws.okx.com"; "wspap.okx.com"] ->
        (5 <= fuel)%nat ->
        length (sends (trace_of (run (timed 46) (Clock 0 [])
                                     (Heartbeat.okx fuel ws)))) = 3%nat).
Proof.
  intros Hall.
  specialize (Hall 5%nat sample_okx (or_introl eq_refl) (le_n 5)).
  vm_compute in Hall. discriminate Hall.
Qed.

End HeartbeatFacts.

Section HeartbeatExamples.

Lemma C8_heartbeat_pings_witness :
  In (url_host sample_okx) ["ws.okx.com"; "wsaws.okx.com"; "wspap.okx.com"]
  /\ (5 <= 6)%nat
  /\ ((1 # 10) + (2 # 10) + (3 # 10) < 1)%Q
  /\ sends (trace_of (run (timed 46)
                          (Clock 0 [1 # 10; 2 # 10; 3 # 10; 0]%Q)
                          (Heartbeat.okx 6 sample_okx)))
     = [(0, FText "ping");
        (0 + 15 + (1 # 10), FText "ping");
        (0 + 15 + (1 # 10) + 15 + (2 # 10), FText "ping");
        (0 + 15 + (1 # 10) + 15 + (2 # 10) + 15 + (3 # 10), FText "ping")]%Q.
Proof.
  assert (In (url_host sample_okx)
             ["ws.okx.com"; "wsaws.okx.com"; "wspap.okx.com"]) as Hh
    by (left; reflexivity).
  assert (5 <= 6)%nat as Hf by lia.
  assert ((1 # 10) + (2 # 10) + (3 # 10) < 1)%Q as Hs by reflexivity.
  split; [exact Hh | split; [exact Hf | split; [exact Hs |]]].
  refine (proj1 (proj2 (C8_heartbeat_pings (H := sample_library) 6 sample_okx
                          (1 # 10) (2 # 10) (3 # 10) 0 Hh Hf _ _ _ _ Hs)));
    discriminate.
Defined.

End HeartbeatExamples.

(** ** Message signing *)

Section SortFacts.

Lemma insert_item_perm (x : string * pyval) (l : list (string * pyval)) :
  Permutation (insert_item x l) (x :: l).
Proof.
  induction l as [|y l IH]; simpl; [reflexivity |].
  destruct (String.leb (fst x) (fst y)); [reflexivity |].
  rewrite IH. apply perm_swap.
Qed.

Lemma sorted_items_perm (d : list (string * pyval)) :
  Permutation (sorted_items d) d.
Proof.
  induction d as [|x d IH]; simpl; [reflexivity |].
  rewrite insert_item_perm. now rewrite IH.
Qed.

Lemma insert_item_sorted (x : string * pyval) (l : list (string * pyval)) :
  Sorted (fun a b => String.leb (fst a) (fst b) = true) l ->
  Sorted (fun a b => String.leb (fst a) (fst b) = true) (insert_item x l).
Proof.
  induction 1 as [|y l Hs IH Hhd]; simpl.
  - repeat constructor.
  - destruct (String.leb (fst x) (fst y)) eqn:E.
    + repeat constructor; assumption.
    + constructor; [exact IH |].
      assert (String.leb (fst y) (fst x) = true) as Hyx.
      { destruct (String.leb_total (fst x) (fst y)) as [Hxy | Hyx];
          [rewrite Hxy in E; discriminate E | exact Hyx]. }
      destruct l as [|z l]; simpl.
      * constructor. exact Hyx.
      * destruct (String.leb (fst x) (fst z)); constructor;
          [exact Hyx |]. inversion Hhd; assumption.
Qed.

Lemma sorted_items_sorted (d : list (string * pyval)) :
  Sorted (fun a b => String.leb (fst a) (fst b) = true) (sorted_items d).
Proof.
  induction d as [|x d IH]; simpl; [constructor |].
  apply insert_item_sorted. exact IH.
Qed.

Lemma dict_get_set_eq (k : string) (v : pyval) (d : list (string * pyval)) :
  dict_get k (dict_set k v d) = Some v.
Proof.
  induction d as [|[k' v'] d IH]; simpl.
  - now rewrite String.eqb_refl.
  - destruct (String.eqb k k') eqn:E; simpl; rewrite E; [reflexivity | exact IH].
Qed.

Lemma dict_get_set_ne (k k' : string) (v : pyval)
    (d : list (string * pyval)) :
  String.eqb k k' = false ->
  dict_get k (dict_set k' v d) = dict_get k d.
Proof.
  intros Hne. induction d as [|[k2 v2] d IH]; simpl.
  - now rewrite Hne.
  - destruct (String.eqb k' k2) eqn:E; simpl.
    + apply String.eqb_eq in E. subst k2. now rewrite Hne.
    + destruct (String.eqb k k2); [reflexivity | exact IH].
Qed.

End SortFacts.

Section SignFacts.
Context `{Library}.
Variable fuel : nat.

Lemma run_bind_assoc {S A B C : Type} (env : S -> eff -> S * resp)
    (c : coro A) (f : A -> coro B) (g : B -> coro C) (s : S) :
  run env s ((c ≫= f) ≫= g) = run env s (c ≫= (fun a => f a ≫= g)).
Proof.
  rewrite !run_bind.
  destruct (run env s c) as [[tr1 s1] [a | x |]]; try reflexivity.
  rewrite run_bind.
  destruct (run env s1 (f a)) as [[tr2 s2] [b | x |]]; try reflexivity.
  destruct (run env s2 (g b)) as [[tr3 s3] res3].
  now rewrite app_assoc.
Qed.

Lemma run_bind_ext {S A B : Type} (env : S -> eff -> S * resp)
    (c : coro A) (f g : A -> coro B) (s : S) :
  (forall a s', run env s' (f a) = run env s' (g a)) ->
  run env s (c ≫= f) = run env s (c ≫= g).
Proof.
  intros Hfg. rewrite !run_bind.
  destruct (run env s c) as [[tr1 s1] [a | x |]]; try reflexivity.
  now rewrite Hfg.
Qed.

Lemma send_json_unsigned ws data itself auth :
  sign_hook ws auth = None \/ py_truthy data = false ->
  send_json fuel ws data itself auth = send_plain fuel ws data itself.
Proof.
  unfold send_json, send_plain. intros [-> | Hf]; [reflexivity |].
  destruct (sign_hook ws auth); [rewrite Hf |]; reflexivity.
Qed.

Lemma sign_hook_some ws it creds :
  MessageSignHosts.items !! url_host ws = Some it ->
  _apis ws !! name it = Some creds ->
  sign_hook ws true = Some MessageSign.binance.
Proof.
  intros Hit Hc. unfold sign_hook. rewrite Hit, Hc.
  destruct (MessageSignHosts_cases _ _ Hit) as [-> _]. reflexivity.
Qed.

(** The hook called on a dict with well-formed credentials on file. *)
Lemma sign_call ws it key secret more d :
  MessageSignHosts.items !! url_host ws = Some it ->
  _apis ws !! name it = Some (key :: secret :: more) ->
  MessageSign.binance ws (PyDict d)
  = if negb (startswith (url_path ws) "/ws-api") then Ret (PyDict d)
    else match dict_get "params" d with
         | Some (PyDict params) =>
             now ← await_num TimeNow;
             Ret (PyDict
                    (dict_set "params"
                       (PyDict (MessageSign.sign_params key secret
                                  (py_int (now * 1000)) params)) d))
         | _ => Ret (PyDict d)
         end.
Proof.
  intros Hit Hc. unfold MessageSign.binance.
  destruct (MessageSignHosts_cases _ _ Hit) as [_ ->].
  cbn [or_raise mbind coro_bind cbind]. rewrite Hc.
  cbn [or_raise mbind coro_bind cbind lookup list_lookup]. reflexivity.
Qed.


End SignFacts.

Section SignExamples.


End SignExamples.

(** ** The Auth hooks *)

Section AuthFacts.
Context `{Library}.
Variable fuel : nat.

Lemma phased_run {S : Type} (env : S -> eff -> S * resp) (p : phase)
    (c : coro unit) (s : S) :
  phased p c -> well_phased p (effects (trace_of (run env s c))) = true.
Proof.
  intros Hc. revert s. induction Hc as [| | | p p' e k Hn _ IH]; intros s;
    simpl; try reflexivity.
  destruct (env s e) as [s' r]. specialize (IH r s').
  destruct (run env s' (k r)) as [[tr s''] res]. simpl in *.
  rewrite Hn. exact IH.
Qed.

(** Warnings only, then a coroutine in the reading phase. *)
Lemma phased_after_warnings {A : Type} (c : coro A) (f : A -> coro unit) :
  all_effects (fun e => is_Warn e = true) c ->
  (forall a, phased Reading (f a)) ->
  phased Reading (c ≫= f).
Proof.
  intros Hc Hf. induction Hc as [a | x | | e k He _ IH].
  - apply Hf.
  - constructor.
  - constructor.
  - change (Do e k ≫= f) with (Do e (fun r => k r ≫= f)).
    destruct e; try discriminate He.
    apply (ph_do Reading Reading); [reflexivity | exact IH].
Qed.

Lemma async_for_phased (body : WSMessage -> coro bool) (n : nat) :
  (forall msg, all_effects (fun e => is_Warn e = true) (body msg)) ->
  phased Sent (async_for n body) /\ phased Reading (async_for n body).
Proof.
  intros Hbody. induction n as [|n [_ IH]]; [split; constructor |].
  assert (forall r,
             phased Reading
               ((match r with
                 | RMsg m => Ret m | RRaise x => Raise x | _ => Raise TypeError
                 end)
                  ≫= (fun m : option WSMessage =>
                        match m with
                        | None => Ret tt
                        | Some msg =>
                            b ← body msg;
                            if (b : bool) then Ret tt else async_for n body
                        end))) as Hk.
  { intros []; try constructor. destruct m as [msg|]; [| constructor].
    change (phased Reading
              (body msg
                 ≫= (fun b : bool => if b then Ret tt else async_for n body))).
    apply phased_after_warnings; [apply Hbody |].
    intros []; [constructor | exact IH]. }
  split; cbn [async_for].
  - apply (ph_do Sent Reading); [reflexivity | exact Hk].
  - apply (ph_do Reading Reading); [reflexivity | exact Hk].
Qed.

(** The loop bodies only log. *)
Ltac only_warns :=
  repeat first
    [ apply ae_ret
    | apply ae_raise
    | apply all_effects_or_raise
    | apply all_effects_await_unit; reflexivity
    | apply all_effects_mbind; [| intros ?]
    | match goal with
      | |- all_effects _ (if ?b then _ else _) => destruct b
      | |- all_effects _ (match ?x with _ => _ end) => destruct x
      end ].

Lemma bybit_body_warns msg :
  all_effects (fun e => is_Warn e = true) (Auth.bybit_body msg).
Proof.
  unfold Auth.bybit_body, Auth.json_or_raise, Auth.contains, py_getitem,
    Auth.break, Auth.continue.
  only_warns.
Qed.

Lemma bitflyer_body_warns msg :
  all_effects (fun e => is_Warn e = true) (Auth.bitflyer_body msg).
Proof.
  unfold Auth.bitflyer_body, Auth.json_or_raise, Auth.contains, py_getitem,
    Auth.break, Auth.continue.
  only_warns.
Qed.

Lemma phemex_body_warns msg :
  all_effects (fun e => is_Warn e = true) (Auth.phemex_body msg).
Proof.
  unfold Auth.phemex_body, Auth.json_or_raise, Auth.contains, py_getitem,
    Auth.break, Auth.continue.
  only_warns.
Qed.

Lemma okx_body_warns msg :
  all_effects (fun e => is_Warn e = true) (Auth.okx_body msg).
Proof.
  unfold Auth.okx_body, Auth.json_or_raise, Auth.contains, py_getitem,
    Auth.break, Auth.continue.
  only_warns.
Qed.

Lemma bitget_body_warns msg :
  all_effects (fun e => is_Warn e = true) (Auth.bitget_body msg).
Proof.
  unfold Auth.bitget_body, Auth.json_or_raise, Auth.contains, py_getitem,
    Auth.break, Auth.continue.
  only_warns.
Qed.

(** What the registry says of a host it knows: its account name as the
    hooks read it back, its hook, and that the host has neither a
    RateLimit nor a MessageSign hook. *)
Lemma AuthHosts_cases (h : string)
    (it : Item (ClientWebSocketResponse -> coro unit)) :
  AuthHosts.items fuel !! h = Some it ->
  Auth.names !! h = Some (name it)
  /\ RequestLimitHosts.items fuel !! h = None
  /\ MessageSignHosts.items !! h = None
  /\ (func it = Auth.bybit fuel \/ func it = Auth.bitflyer fuel
      \/ func it = Auth.phemex fuel \/ func it = Auth.okx fuel
      \/ func it = Auth.bitget fuel \/ func it = Auth.mexc fuel).
Proof.
  unfold AuthHosts.items. intros E.
  apply elem_of_list_to_map_2 in E.
  repeat (apply elem_of_cons in E as [E | E];
          [injection E as -> ->;
           split; [vm_compute; reflexivity |];
           split; [vm_compute; reflexivity |];
           split; [vm_compute; reflexivity |];
           cbn [func]; tauto |]).
  inversion E.
Qed.

Section Registered.
Variable ws : ClientWebSocketResponse.
Variable it : Item (ClientWebSocketResponse -> coro unit).
Hypothesis registered : AuthHosts.items fuel !! url_host ws = Some it.

(** The handshake, marked as the hook's own on a host with neither a
    sign hook nor a rate limit, is one physical text send. *)
Lemma handshake_send (payload : pyval) :
  send_json fuel ws payload true true = super_send_str (json_dumps payload).
Proof.
  destruct (AuthHosts_cases _ _ registered) as (_ & Hrl & Hms & _).
  unfold send_json, sign_hook, send_str. rewrite Hms, Hrl. reflexivity.
Qed.

Lemma credential_effects (P : eff -> Prop) (i : nat) :
  all_effects P (Auth.credential ws i).
Proof.
  unfold Auth.credential.
  repeat (apply all_effects_mbind; [apply all_effects_or_raise |]; intros ?).
  apply all_effects_or_raise.
Qed.

Lemma credential_resolved (creds : list string) (i : nat) (x : string) :
  _apis ws !! name it = Some creds -> creds !! i = Some x ->
  Auth.credential ws i = Ret x.
Proof.
  destruct (AuthHosts_cases _ _ registered) as (Hnm & _).
  intros Hc Hi. unfold Auth.credential. rewrite Hnm.
  cbn [or_raise mbind coro_bind cbind]. rewrite Hc.
  cbn [or_raise mbind coro_bind cbind]. rewrite Hi. reflexivity.
Qed.

(** Effect-free steps, then a coroutine in phase [p]. *)
Lemma phased_after_pure {A : Type} (p : phase) (c : coro A)
    (f : A -> coro unit) :
  all_effects (fun _ => False) c -> (forall a, phased p (f a)) ->
  phased p (c ≫= f).
Proof.
  intros Hc Hf. induction Hc as [a | x | | e k [] _ _];
    [apply Hf | constructor | constructor].
Qed.

Lemma phased_after_clock (f : Q -> coro unit) :
  (forall now, phased Before (f now)) ->
  phased Before (await_num TimeNow ≫= f).
Proof.
  intros Hf. apply (ph_do Before Before); [reflexivity |].
  intros []; try constructor. apply Hf.
Qed.

Lemma phased_after_nonce (n : nat) (f : string -> coro unit) :
  (forall nonce, phased Before (f nonce)) ->
  phased Before (await_str (TokenHex n) ≫= f).
Proof.
  intros Hf. apply (ph_do Before Before); [reflexivity |].
  intros []; try constructor. apply Hf.
Qed.

Lemma phased_handshake (payload : pyval) (c : coro unit) :
  phased Sent c ->
  phased Before (send_json fuel ws payload true true;; c).
Proof.
  intros Hc. rewrite handshake_send.
  apply (ph_do Before Sent); [reflexivity |].
  intros []; try constructor; exact Hc.
Qed.

Lemma phased_handshake_last (payload : pyval) :
  phased Before (send_json fuel ws payload true true).
Proof.
  rewrite handshake_send.
  apply (ph_do Before Sent); [reflexivity |].
  intros []; constructor.
Qed.

Ltac hook_phased body_warns :=
  repeat (apply phased_after_pure; [apply credential_effects |]; intros ?);
  apply phased_after_clock; intros ?;
  try (apply phased_after_nonce; intros ?);
  cbv zeta;
  first [ apply phased_handshake;
          apply (proj1 (async_for_phased _ fuel body_warns))
        | apply phased_handshake_last ].

Lemma registered_phased : phased Before (func it ws).
Proof.
  destruct (AuthHosts_cases _ _ registered)
    as (_ & _ & _ & [-> | [-> | [-> | [-> | [-> | ->]]]]]).
  - unfold Auth.bybit. destruct (_ || _); [constructor |].
    hook_phased bybit_body_warns.
  - unfold Auth.bitflyer. hook_phased bitflyer_body_warns.
  - unfold Auth.phemex. hook_phased phemex_body_warns.
  - unfold Auth.okx. destruct (endswith _ _); [constructor |].
    hook_phased okx_body_warns.
  - unfold Auth.bitget. hook_phased bitget_body_warns.
  - unfold Auth.mexc. hook_phased bybit_body_warns.
Qed.

(** With the credentials the hook indexes on file, each hook reads the
    clock, builds its handshake from the credentials and sends it as
    one physical text send; all but mexc then read inbound frames. *)
Section Resolved.
Variables key secret : string.
Variable more : list string.
Hypothesis on_file : _apis ws !! name it = Some (key :: secret :: more).

Ltac resolve :=
  unfold Auth.credential, send_json, sign_hook, send_str;
  destruct (AuthHosts_cases _ _ registered) as (Hnm & Hrl & Hms & _);
  rewrite ?Hnm, ?Hrl, ?Hms;
  cbn [or_raise mbind coro_bind cbind]; rewrite ?on_file;
  cbn [or_raise mbind coro_bind cbind lookup list_lookup].

Lemma bybit_resolved :
  Auth.bybit fuel ws
  = if str_contains "public" (url_path ws)
       || startswith (url_path ws) "/spot/quote"
    then Ret tt
    else
      now ← await_num TimeNow;
      super_send_str
        (json_dumps
           (Auth.bybit_handshake key (py_int ((now + 5) * 1000))
              (hmac_sha256_hex secret
                 ("GET/realtime"
                    +:+ py_str (PyInt (py_int ((now + 5) * 1000)))))));;
      async_for fuel Auth.bybit_body.
Proof.
  unfold Auth.bybit. destruct (_ || _); [reflexivity |].
  resolve. reflexivity.
Qed.

Lemma bitflyer_resolved :
  Auth.bitflyer fuel ws
  = now ← await_num TimeNow;
    nonce ← await_str (TokenHex 16);
    super_send_str
      (json_dumps
         (Auth.bitflyer_handshake key (py_int (now * 1000)) nonce
            (hmac_sha256_hex secret
               (py_str (PyInt (py_int (now * 1000))) +:+ nonce))));;
    async_for fuel Auth.bitflyer_body.
Proof. unfold Auth.bitflyer. resolve. reflexivity. Qed.

Lemma phemex_resolved :
  Auth.phemex fuel ws
  = now ← await_num TimeNow;
    super_send_str
      (json_dumps
         (Auth.phemex_handshake key
            (hmac_sha256_hex secret
               (key +:+ py_str (PyInt (py_int (now + 60)))))
            (py_int (now + 60))));;
    async_for fuel Auth.phemex_body.
Proof. unfold Auth.phemex. resolve. reflexivity. Qed.

Lemma okx_resolved (passphrase : string) (more' : list string) :
  more = passphrase :: more' ->
  Auth.okx fuel ws
  = if endswith (url_path ws) "public" then Ret tt
    else
      now ← await_num TimeNow;
      super_send_str
        (json_dumps
           (Auth.okx_handshake key passphrase
              (py_str (PyInt (py_int now)))
              (hmac_sha256_b64 secret
                 (py_str (PyInt (py_int now))
                    +:+ "GET/users/self/verify"))));;
      async_for fuel Auth.okx_body.
Proof.
  intros Hmore. unfold Auth.okx. destruct (endswith _ _); [reflexivity |].
  resolve. rewrite Hmore. reflexivity.
Qed.

Lemma bitget_resolved (passphrase : string) (more' : list string) :
  more = passphrase :: more' ->
  Auth.bitget fuel ws
  = now ← await_num TimeNow;
    super_send_str
      (json_dumps
         (Auth.bitget_handshake key passphrase
            (py_str (PyInt (py_round now)))
            (hmac_sha256_b64 secret
               (py_str (PyInt (py_round now)) +:+ "GET/user/verify"))));;
    async_for fuel Auth.bitget_body.
Proof.
  intros Hmore. unfold Auth.bitget. resolve. rewrite Hmore. reflexivity.
Qed.

Lemma mexc_resolved :
  Auth.mexc fuel ws
  = now ← await_num TimeNow;
    super_send_str
      (json_dumps
         (Auth.mexc_handshake key (py_str (PyInt (py_int now)))
            (hmac_sha256_hex secret
               (key +:+ py_str (PyInt (py_int now)))))).
Proof. unfold Auth.mexc. resolve. reflexivity. Qed.

End Resolved.

End Registered.

(** *** When the reading loops stop *)

Lemma ERROR_not_TEXT msg : is_ERROR msg = true -> is_TEXT msg = false.
Proof. unfold is_ERROR, is_TEXT. destruct (msg_type msg); congruence. Qed.

Lemma bodies_stop_at_ERROR msg :
  is_ERROR msg = true ->
  Auth.bybit_body msg = Ret true
  /\ Auth.bitflyer_body msg = Ret true
  /\ Auth.phemex_body msg = Ret true
  /\ Auth.okx_body msg = Ret true
  /\ Auth.bitget_body msg = Ret true.
Proof.
  intros He. pose proof (ERROR_not_TEXT msg He) as Ht.
  unfold Auth.bybit_body, Auth.bitflyer_body, Auth.phemex_body,
    Auth.okx_body, Auth.bitget_body.
  rewrite Ht, He. repeat split; reflexivity.
Qed.

Lemma bodies_stop_at_success msg d :
  is_TEXT msg = true -> msg_json msg = JsonOk (PyDict d) ->
  (forall v, dict_get "success" d = Some v -> py_truthy v = true ->
             Auth.bybit_body msg = Ret true)
  /\ (dict_get "error" d = None -> dict_get "id" d = Some (PyStr "auth") ->
      Auth.bitflyer_body msg = Ret true)
  /\ (dict_get "error" d = None ->
      dict_get "result" d = Some (PyDict [("status", PyStr "success")]) ->
      Auth.phemex_body msg = Ret true)
  /\ (dict_get "event" d = Some (PyStr "login") ->
      Auth.okx_body msg = Ret true)
  /\ (dict_get "event" d = Some (PyStr "login") ->
      Auth.bitget_body msg = Ret true).
Proof.
  intros Ht Hj.
  unfold Auth.bybit_body, Auth.bitflyer_body, Auth.phemex_body,
    Auth.okx_body, Auth.bitget_body, Auth.json_or_raise, Auth.contains.
  rewrite Ht, Hj. cbn [mbind coro_bind cbind py_in py_getitem or_raise].
  repeat split.
  - intros v Hs Hv. rewrite Hs.
    cbn [mbind coro_bind cbind or_raise]. rewrite Hv. reflexivity.
  - intros He Hi. rewrite He, Hi. reflexivity.
  - intros He Hr. rewrite He, Hr. reflexivity.
  - intros He. rewrite He. reflexivity.
  - intros He. rewrite He. reflexivity.
Qed.

Lemma bodies_warn_at_failure msg d :
  is_TEXT msg = true -> msg_json msg = JsonOk (PyDict d) ->
  (forall v, dict_get "success" d = Some v -> py_truthy v = false ->
             Auth.bybit_body msg
             = (await_unit (Warn (PyDict d));; Ret false))
  /\ (forall v, dict_get "error" d = Some v -> dict_get "id" d = None ->
                Auth.bitflyer_body msg
                = (await_unit (Warn (PyDict d));; Ret false))
  /\ (dict_get "event" d = Some (PyStr "error") ->
      Auth.okx_body msg = (await_unit (Warn (PyDict d));; Ret false))
  /\ (dict_get "event" d = Some (PyStr "error") ->
      Auth.bitget_body msg = (await_unit (Warn (PyDict d));; Ret true)).
Proof.
  intros Ht Hj.
  unfold Auth.bybit_body, Auth.bitflyer_body,
    Auth.okx_body, Auth.bitget_body, Auth.json_or_raise, Auth.contains.
  rewrite Ht, Hj. cbn [mbind coro_bind cbind py_in py_getitem or_raise].
  repeat split.
  - intros v Hs Hv. rewrite Hs.
    cbn [mbind coro_bind cbind or_raise]. rewrite Hv. reflexivity.
  - intros v He Hi. rewrite He, Hi. reflexivity.
  - intros He. rewrite He. reflexivity.
  - intros He. rewrite He. reflexivity.
Qed.

End AuthFacts.

Section AuthTheorem.




End AuthTheorem.

(* ===================================================================== *)
(** * Part III.  Further properties                                       *)
(* ===================================================================== *)

(** ** The supervisor: how long it sleeps *)

Section SleepBounds.
Import WebSocketApp.

Lemma py_int_bounds (x : Q) :
  (0 <= x)%Q ->
  (0 <= inject_Z (py_int x))%Q /\ (inject_Z (py_int x) <= x)%Q.
Proof.
  destruct x as [n d]. unfold py_int, Qle, inject_Z. simpl. intros Hn.
  assert (0 <= n)%Z as Hn' by lia.
  rewrite Z.quot_div_nonneg by lia.
  pose proof (Z.div_pos n (Zpos d) Hn' ltac:(lia)).
  pose proof (Z.mul_div_le n (Zpos d) ltac:(lia)).
  split; lia.
Qed.

Section Bounded.
Variable bo : backoff.
Hypothesis min_nonneg : (0 <= BACKOFF_MIN bo)%Q.
Hypothesis max_nonneg : (0 <= BACKOFF_MAX bo)%Q.
Hypothesis factor_nonneg : (0 <= BACKOFF_FACTOR bo)%Q.
Hypothesis initial_nonneg : (0 <= BACKOFF_INITIAL bo)%Q.

Lemma bounded_step (st : loop_state) (x : turn) :
  Forall (fun r => (0 <= r)%Q /\ (r < 1)%Q) (draws [x]) ->
  delay_bounded bo st -> delay_bounded bo (step bo st x).
Proof.
  intros Hx (Hd & Hcap & Hs). destruct x as [[| r] | v].
  - split; [exact min_nonneg | split].
    + left. apply Qeq_bool_iff. reflexivity.
    + cbn [step trace]. rewrite sleeps_app, app_nil_r. exact Hs.
  - inversion Hx as [| r' l' [Hr0 Hr1] _]; subst.
    assert (0 <= backoff_delay st * BACKOFF_FACTOR bo)%Q as Hprod
      by (apply Qmult_le_0_compat; assumption).
    unfold step, on_failure.
    split; [| split]; cbn [backoff_delay trace].
    + destruct (py_min_cases (backoff_delay st * BACKOFF_FACTOR bo)
                             (BACKOFF_MAX bo)) as [[_ ->] | [_ ->]];
        assumption.
    + right.
      destruct (py_min_cases (backoff_delay st * BACKOFF_FACTOR bo)
                             (BACKOFF_MAX bo)) as [[_ ->] | [Hle ->]];
        [apply Qle_refl | exact Hle].
    + rewrite sleeps_app. apply Forall_app. split; [exact Hs |].
      cbn [sleeps flat_map app]. constructor; [| constructor].
      destruct Hcap as [E | Hle].
      * rewrite E. split.
        -- apply Qmult_le_0_compat; assumption.
        -- left.
           assert (0 <= (1 - r) * BACKOFF_INITIAL bo)%Q
             by (apply Qmult_le_0_compat; [lra | assumption]).
           lra.
      * destruct (py_int_bounds _ Hd) as [I0 I1].
        destruct (Qeq_bool (backoff_delay st) (BACKOFF_MIN bo)).
        -- split.
           ++ apply Qmult_le_0_compat; assumption.
           ++ left.
              assert (0 <= (1 - r) * BACKOFF_INITIAL bo)%Q
                by (apply Qmult_le_0_compat; [lra | assumption]).
              lra.
        -- split; [exact I0 | right; lra].
  - exact (conj Hd (conj Hcap Hs)).
Qed.

Lemma bounded_run (turns : list turn) (st : loop_state) :
  Forall (fun r => (0 <= r)%Q /\ (r < 1)%Q) (draws turns) ->
  delay_bounded bo st -> delay_bounded bo (fold_left (step bo) turns st).
Proof.
  revert st. induction turns as [| x turns IH]; intros st Hr Hb;
    [exact Hb |].
  change (x :: turns) with ([x] ++ turns) in Hr.
  unfold draws in Hr. rewrite flat_map_app in Hr.
  apply Forall_app in Hr as [Hx Hr].
  cbn [fold_left]. apply IH; [exact Hr |].
  apply bounded_step; assumption.
Qed.

End Bounded.

(** X1.  With a backoff configuration of non-negative numbers and draws
    of [random.random()] in [[0, 1)], whatever the attempts do and
    whenever the url is assigned, every sleep of the supervisor is
    non-negative and at most [BACKOFF_INITIAL] or at most [BACKOFF_MAX]. *)
Theorem sleeps_bounded
    (u : string) (kw : plans) (bo : backoff) (turns : list turn) :
  (0 <= BACKOFF_MIN bo)%Q -> (0 <= BACKOFF_MAX bo)%Q ->
  (0 <= BACKOFF_FACTOR bo)%Q -> (0 <= BACKOFF_INITIAL bo)%Q ->
  Forall (fun r => (0 <= r)%Q /\ (r < 1)%Q) (draws turns) ->
  Forall (fun d => (0 <= d)%Q
                   /\ ((d <= BACKOFF_INITIAL bo)%Q
                       \/ (d <= BACKOFF_MAX bo)%Q))
         (sleeps (trace (_run_forever (__init__ u kw bo) turns))).
Proof.
  intros Hmin Hmax Hf Hi Hr. unfold _run_forever. cbn [__init__ _task snd].
  refine (proj2 (proj2 (bounded_run bo Hmin Hmax Hf Hi turns _ Hr _))).
  split; [exact Hmin | split].
  - left. apply Qeq_bool_iff. reflexivity.
  - constructor.
Qed.

Lemma sleeps_bounded_witness :
  Forall (fun d => (0 <= d)%Q /\ ((d <= 5)%Q \/ (d <= 60)%Q))
         (sleeps (trace (_run_forever
                           (__init__ "wss://a" (Plans PyNone PyNone PyNone
                                                      PyNone PyNone PyNone)
                                     DEFAULT_BACKOFF)
                           [Attempt (CycleRaise (1 # 2));
                            Attempt (CycleRaise (1 # 2));
                            AssignUrl "wss://b";
                            Attempt CycleOk;
                            Attempt (CycleRaise (9 # 10))]))).
Proof.
  apply (sleeps_bounded "wss://a" _ DEFAULT_BACKOFF); try discriminate.
  repeat constructor; discriminate.
Defined.

End SleepBounds.

(** ** The supervisor: when it sleeps *)

Section SleepCount.
Import WebSocketApp.

Lemma sleeps_run (bo : backoff) (turns : list turn) (st st' : loop_state) :
  backoff_delay st = backoff_delay st' ->
  exists l,
    sleeps (trace (fold_left (step bo) turns st)) = sleeps (trace st) ++ l
    /\ sleeps (trace (fold_left (step bo) (attempts turns) st'))
       = sleeps (trace st') ++ l
    /\ length l = length (draws turns).
Proof.
  revert st st'. induction turns as [| x turns IH]; intros st st' Hd.
  - exists []. rewrite !app_nil_r. auto.
  - destruct x as [[| r] | v]; cbn [fold_left attempts flat_map app].
    + destruct (IH (step bo st (Attempt CycleOk))
                   (step bo st' (Attempt CycleOk)) eq_refl)
        as (l & E1 & E2 & E3).
      exists l. fold (attempts turns). rewrite E1, E2.
      cbn [step trace]. rewrite !sleeps_app, !app_nil_r. auto.
    + destruct (IH (step bo st (Attempt (CycleRaise r)))
                   (step bo st' (Attempt (CycleRaise r))))
        as (l & E1 & E2 & E3).
      { unfold step, on_failure. cbn [backoff_delay]. now rewrite Hd. }
      fold (attempts turns). rewrite E1, E2.
      rewrite !sleep_of_failure, Hd, <- !app_assoc.
      eexists. split; [reflexivity | split; [reflexivity |]].
      cbn [app length draws flat_map]. fold (draws turns). now rewrite E3.
    + destruct (IH (step bo st (AssignUrl v)) st' Hd) as (l & E1 & E2 & E3).
      exists l. fold (attempts turns). auto.
Qed.

Lemma clean_run (bo : backoff) (turns : list turn) (st : loop_state) :
  draws turns = [] ->
  Forall (fun e => exists u, e = EvConnect u) (trace st) ->
  Forall (fun e => exists u, e = EvConnect u)
         (trace (fold_left (step bo) turns st)).
Proof.
  revert st. induction turns as [| x turns IH]; intros st Hd Hst;
    [exact Hst |].
  destruct x as [[| r] | v]; cbn [fold_left]; [| discriminate Hd |].
  - apply IH; [exact Hd |]. cbn [step trace]. apply Forall_app.
    split; [exact Hst |]. constructor; [eauto | constructor].
  - apply IH; [exact Hd | exact Hst].
Qed.

(** X2.  The supervisor sleeps exactly once for each attempt that
    raised and never after a cycle that ended without an exception: a
    connection the server closes cleanly is reopened at once, however
    often that happens.  Assigning the url neither resets nor advances
    the backoff: the sleeps are those of the same attempts without the
    assignments. *)
Theorem sleeps_once_per_failure
    (u : string) (kw : plans) (bo : backoff) (turns : list turn) :
  let tr := trace (_run_forever (__init__ u kw bo) turns) in
  length (sleeps tr) = length (draws turns)
  /\ sleeps tr
     = sleeps (trace (_run_forever (__init__ u kw bo) (attempts turns)))
  /\ (draws turns = [] ->
      Forall (fun e => exists v, e = EvConnect v) tr).
Proof.
  intros tr. subst tr. unfold _run_forever.
  change (snd (_task (__init__ u kw bo))) with bo.
  set (st0 := Loop (__init__ u kw bo) (BACKOFF_MIN bo) []).
  destruct (sleeps_run bo turns st0 st0 eq_refl) as (l & E1 & E2 & E3).
  change (sleeps (trace st0)) with (@nil Q) in E1, E2.
  cbn [app] in E1, E2.
  split; [| split].
  - rewrite E1. exact E3.
  - rewrite E1, E2. reflexivity.
  - intros Hd. apply clean_run; [exact Hd | constructor].
Qed.

End SleepCount.

(** ** The dispatcher: the order of all handler calls, and the log *)

Section CallOrderFacts.
Import Dispatcher.

Variable msg_json : WSMessage -> json_result.
Variables hdlr_str hdlr_bytes hdlr_json : list handler.

Local Abbreviation onmessage :=
  (_onmessage msg_json hdlr_str hdlr_bytes hdlr_json).
Local Abbreviation lstep := (step msg_json hdlr_str hdlr_bytes hdlr_json).
Local Abbreviation lsteps := (steps msg_json hdlr_str hdlr_bytes hdlr_json).
Local Abbreviation called :=
  (calls_for msg_json hdlr_str hdlr_bytes hdlr_json).
Local Abbreviation undispatched :=
  (undispatched_calls msg_json hdlr_str hdlr_bytes hdlr_json).
Local Abbreviation receiving :=
  (_ws_receive msg_json hdlr_str hdlr_bytes hdlr_json).

Lemma queued_calls_app q1 q2 :
  queued_calls (q1 ++ q2) = queued_calls q1 ++ queued_calls q2.
Proof. apply flat_map_app. Qed.

Lemma undispatched_calls_app q1 q2 :
  undispatched (q1 ++ q2) = undispatched q1 ++ undispatched q2.
Proof. apply flat_map_app. Qed.

Lemma undispatched_calls_scheduled msg :
  undispatched (scheduled (onmessage msg)) = [].
Proof.
  generalize (scheduled_handlers msg_json hdlr_str hdlr_bytes hdlr_json msg).
  induction (scheduled (onmessage msg)) as [|cb q IH]; intros Hq;
    [reflexivity |].
  destruct (Hq cb (or_introl eq_refl)) as [k [h [d ->]]]. simpl.
  apply IH. intros cb' Hin. apply Hq. right. exact Hin.
Qed.

Lemma calls_accounted_step frames st st' :
  lstep st st' ->
  calls_accounted_for msg_json hdlr_str hdlr_bytes hdlr_json frames st ->
  calls_accounted_for msg_json hdlr_str hdlr_bytes hdlr_json frames st'.
Proof.
  unfold calls_accounted_for. intros Hs Hacc. rewrite <- Hacc. clear Hacc.
  destruct Hs as [st st' E | st st' E].
  - unfold receive_one in E. destruct (inbound st) as [|msg rest];
      [discriminate | injection E as <-]. simpl.
    rewrite queued_calls_app, undispatched_calls_app. simpl.
    rewrite !app_nil_r, <- !app_assoc. reflexivity.
  - unfold run_one in E. destruct (ready st) as [|[msg | k h d] q];
      [discriminate | |]; injection E as <-; simpl.
    + rewrite queued_calls_app, undispatched_calls_app,
        undispatched_calls_scheduled.
      fold (called msg). rewrite app_nil_r, <- !app_assoc. reflexivity.
    + rewrite <- !app_assoc. reflexivity.
Qed.

Lemma steps_calls_accounted frames st0 st :
  lsteps st0 st ->
  calls_accounted_for msg_json hdlr_str hdlr_bytes hdlr_json frames st0 ->
  calls_accounted_for msg_json hdlr_str hdlr_bytes hdlr_json frames st.
Proof.
  intros Hs H0. induction Hs as [| st1 st2 st3 _ IH Hst]; [exact H0 |].
  eapply calls_accounted_step; eauto.
Qed.

Lemma queued_calls_handlers k d (l : list handler) :
  queued_calls (map (fun h => CbHandler k h d) l)
  = map (fun h => (k, h, d)) l.
Proof. induction l as [|h l IH]; simpl; [| rewrite <- IH]; reflexivity. Qed.

(** The calls one frame gives rise to, spelled out. *)
Lemma calls_for_frame msg :
  called msg
  = (if is_TEXT msg
     then map (fun h => (KStr, h, msg_data msg)) hdlr_str else [])
    ++ (if is_BINARY msg
        then map (fun h => (KBytes, h, msg_data msg)) hdlr_bytes else [])
    ++ match hdlr_json, msg_json msg with
       | _ :: _, JsonOk data => map (fun h => (KJson, h, data)) hdlr_json
       | _, _ => []
       end.
Proof.
  unfold calls_for, _onmessage.
  destruct hdlr_json as [|h hj]; [| destruct (msg_json msg)];
    cbn [scheduled]; rewrite ?queued_calls_app;
    destruct (is_TEXT msg), (is_BINARY msg);
    rewrite ?queued_calls_handlers; cbn [queued_calls flat_map map app];
    rewrite ?app_nil_r; reflexivity.
Qed.

(** X3.  However frame arrivals and loop turns interleave, once the loop
    is at rest the handler calls made are, frame by frame in arrival
    order: the text handlers for a TEXT frame, the bytes handlers for a
    BINARY frame, then, when there are JSON handlers and [msg.json()]
    returned, the JSON handlers with what it returned, each list in
    registration order.  The calls of two frames never interleave, a
    frame of any type is offered to the JSON handlers, and a frame whose
    [msg.json()] raises still reaches the text or bytes handlers.  Such
    a run exists for every frame sequence. *)
Theorem handler_calls_in_order (frames : list WSMessage) :
  (forall st,
      lsteps (start frames) st -> quiescent st ->
      calls st
      = flat_map
          (fun msg =>
             (if is_TEXT msg
              then map (fun h => (KStr, h, msg_data msg)) hdlr_str else [])
             ++ (if is_BINARY msg
                 then map (fun h => (KBytes, h, msg_data msg)) hdlr_bytes
                 else [])
             ++ match hdlr_json, msg_json msg with
                | _ :: _, JsonOk data =>
                    map (fun h => (KJson, h, data)) hdlr_json
                | _, _ => []
                end)
          frames)
  /\ (lsteps (start frames) (receiving frames)
      /\ quiescent (receiving frames)).
Proof.
  split; [| apply ws_receive_runs].
  intros st Hs [Hin Hq].
  assert (calls_accounted_for msg_json hdlr_str hdlr_bytes hdlr_json
            frames st) as A
    by (apply (steps_calls_accounted frames _ _ Hs); reflexivity).
  unfold calls_accounted_for in A. rewrite Hin, Hq in A. simpl in A.
  rewrite app_nil_r in A. rewrite A.
  apply flat_map_ext. intros msg. apply calls_for_frame.
Qed.

(** What the dispatch of one frame writes to the log, spelled out. *)
Lemma log_of_frame msg :
  log_of msg_json hdlr_str hdlr_bytes hdlr_json msg
  = match hdlr_json, msg_json msg with
    | _ :: _, JSONDecodeError doc => [LogWarning doc]
    | _ :: _, JsonRaises => [LogLoopException]
    | _, _ => []
    end.
Proof.
  unfold log_of, _onmessage.
  destruct hdlr_json as [|h hj]; [| destruct (msg_json msg)]; reflexivity.
Qed.


End CallOrderFacts.

Section CallOrderExamples.
Import Dispatcher.

(** Two handlers of each kind; a text frame that decodes, a binary frame
    that [msg.json()] refuses and a text frame that fails to decode. *)
Lemma handler_calls_in_order_witness :
  calls (_ws_receive sample_json [1; 2]%nat [3]%nat [4; 5]%nat
           [Msg TEXT (PyStr "1"); Msg BINARY (PyBytes "b");
            Msg TEXT (PyStr "x")])
  = [(KStr, 1%nat, PyStr "1"); (KStr, 2%nat, PyStr "1");
     (KJson, 4%nat, PyInt 1); (KJson, 5%nat, PyInt 1);
     (KBytes, 3%nat, PyBytes "b");
     (KStr, 1%nat, PyStr "x"); (KStr, 2%nat, PyStr "x")].
Proof.
  destruct (handler_calls_in_order sample_json [1; 2]%nat [3]%nat [4; 5]%nat
              [Msg TEXT (PyStr "1"); Msg BINARY (PyBytes "b");
               Msg TEXT (PyStr "x")]) as [Hall [Hs Hq]].
  rewrite (Hall _ Hs Hq). reflexivity.
Defined.


End CallOrderExamples.

(** ** The heartbeats *)

Section HeartbeatSchedules.
Context `{Library}.
Variable fuel : nat.

Lemma while_not_closed_effects (P : eff -> Prop) (n : nat) (body : coro unit) :
  P IsClosed -> all_effects P body ->
  all_effects P (while_not_closed n body).
Proof.
  intros Hc Hb. induction n as [|n IH]; cbn [while_not_closed];
    [constructor |].
  apply all_effects_mbind; [apply all_effects_await_bool; exact Hc |].
  intros [|]; [constructor |].
  apply all_effects_mbind; [exact Hb | intros _; exact IH].
Qed.

(** What the registry says of a host it knows: the hook answers with a
    pong frame, or the host has no RateLimit hook. *)
Lemma HeartbeatHosts_cases (h : string)
    (hook : ClientWebSocketResponse -> coro unit) :
  HeartbeatHosts.items fuel !! h = Some hook ->
  hook = Heartbeat.binance fuel
  \/ (RequestLimitHosts.items fuel !! h = None
      /\ (hook = Heartbeat.bitbank fuel \/ hook = Heartbeat.bybit fuel
          \/ hook = Heartbeat.phemex fuel \/ hook = Heartbeat.okx fuel
          \/ hook = Heartbeat.bitget fuel \/ hook = Heartbeat.mexc fuel
          \/ hook = Heartbeat.kucoin fuel)).
Proof.
  unfold HeartbeatHosts.items. intros E.
  apply elem_of_list_to_map_2 in E.
  repeat (apply elem_of_cons in E as [E | E];
          [injection E as -> ->;
           first [left; reflexivity
                 | right; split; [vm_compute; reflexivity | tauto]] |]).
  inversion E.
Qed.

Lemma text_send_unlimited (ws : ClientWebSocketResponse) (text : string) :
  RequestLimitHosts.items fuel !! url_host ws = None ->
  send_str fuel ws text = await_unit (Transmit (FText text)).
Proof. intros E. unfold send_str. rewrite E. reflexivity. Qed.

Lemma heartbeat_all_effects (ws : ClientWebSocketResponse)
    (hook : ClientWebSocketResponse -> coro unit) :
  HeartbeatHosts.items fuel !! url_host ws = Some hook ->
  all_effects (fun e => is_heartbeat_effect e = true) (hook ws).
Proof.
  intros Hreg.
  assert (forall e, all_effects (fun e => is_heartbeat_effect e = true)
                                (await_unit (Sleep e))) as Hsleep
    by (intros e; apply all_effects_await_unit; reflexivity).
  destruct (HeartbeatHosts_cases _ _ Hreg)
    as [-> | [Hrl [-> | [-> | [-> | [-> | [-> | [-> | ->]]]]]]]];
    unfold Heartbeat.binance, Heartbeat.bitbank, Heartbeat.bybit,
      Heartbeat.phemex, Heartbeat.okx, Heartbeat.bitget, Heartbeat.mexc,
      Heartbeat.kucoin;
    (apply while_not_closed_effects; [reflexivity |]);
    rewrite ?(text_send_unlimited ws _ Hrl).
  1-7: apply all_effects_mbind;
    [apply all_effects_await_unit; reflexivity | intros _; apply Hsleep].
  apply all_effects_mbind; [apply all_effects_await_str; reflexivity |].
  intros u. rewrite (text_send_unlimited ws _ Hrl).
  apply all_effects_mbind;
    [apply all_effects_await_unit; reflexivity | intros _; apply Hsleep].
Qed.

(** X5.  The heartbeat a connection starts for its host only tests
    [ws.closed], sends, sleeps and (KuCoin) draws an identifier: it never
    waits for the Auth task, never takes [ws._lock], also on the one
    host that has both a heartbeat and a RateLimit hook, never reads an
    inbound frame and never polls a server clock. *)
Theorem heartbeat_effects (ws : ClientWebSocketResponse)
    (hook : ClientWebSocketResponse -> coro unit) :
  HeartbeatHosts.items fuel !! url_host ws = Some hook ->
  _pingtask (__init__ fuel ws) = Some (hook ws)
  /\ forall (S : Type) (env : S -> eff -> S * resp) (s0 : S),
       Forall (fun e => is_heartbeat_effect e = true)
              (effects (trace_of (run env s0 (hook ws)))).
Proof.
  intros Hreg. split.
  { unfold __init__. cbn [_pingtask]. rewrite Hreg. reflexivity. }
  intros S env s0. apply all_effects_run.
  apply heartbeat_all_effects. exact Hreg.
Qed.

(** One turn of a heartbeat loop whose body is one physical send and one
    sleep, woken on time, while the socket is open. *)
Lemma heartbeat_turn_on_time (closes : Q) (n : nat) (f : frame) (d t : Q) :
  (t < closes)%Q ->
  run (timed closes) (Clock t [])
      (while_not_closed (S n)
         (await_unit (Transmit f);; await_unit (Sleep d)))
  = let '(tr, s, res) :=
      run (timed closes) (Clock (t + d) [])
          (while_not_closed n
             (await_unit (Transmit f);; await_unit (Sleep d))) in
    ((Clock t [], IsClosed, RBool false)
       :: (Clock t [], Transmit f, RUnit)
       :: (Clock t [], Sleep d, RUnit) :: tr, s, res).
Proof.
  intros Hopen. cbn [while_not_closed].
  remember (while_not_closed n
              (await_unit (Transmit f);; await_unit (Sleep d)))
    as loop eqn:Eloop.
  cbn [run mbind coro_bind cbind await_bool await_unit timed now lateness].
  rewrite (Qle_bool_false _ _ Hopen).
  cbn [run mbind coro_bind cbind await_bool await_unit timed now lateness].
  rewrite (Qle_bool_false _ _ Hopen).
  cbn [run mbind coro_bind cbind await_bool await_unit timed now lateness].
  destruct (run (timed closes) (Clock (t + d) []) loop) as [[tr s] res].
  reflexivity.
Qed.

Lemma heartbeat_ticks (closes : Q) (f : frame) (d : Q) (n : nat) :
  (0 <= d)%Q ->
  forall (m : nat) (t : Q),
    (n < m)%nat ->
    (t + inject_Z (Z.of_nat n) * d - d < closes)%Q ->
    (closes <= t + inject_Z (Z.of_nat n) * d)%Q ->
    let r := run (timed closes) (Clock t [])
                 (while_not_closed m
                    (await_unit (Transmit f);; await_unit (Sleep d))) in
    sends (trace_of r) = map (fun t' => (t', f)) (ticks d t n)
    /\ outcome_of r = Returned tt.
Proof.
  intros Hd. induction n as [|n IH]; intros m t Hm Hlo Hhi;
    (destruct m as [|m]; [lia |]).
  - rewrite heartbeat_stop; [split; reflexivity |].
    cbn [now]. change (inject_Z (Z.of_nat 0)) with 0%Q in Hhi. lra.
  - assert (inject_Z (Z.of_nat (S n)) == inject_Z (Z.of_nat n) + 1)%Q as En
      by (rewrite Nat2Z.inj_succ; unfold Z.succ; rewrite inject_Z_plus;
          reflexivity).
    assert (0 <= inject_Z (Z.of_nat n))%Q as Hn
      by (change 0%Q with (inject_Z 0); rewrite <- Zle_Qle; lia).
    assert (0 <= inject_Z (Z.of_nat n) * d)%Q as Hnd
      by (apply Qmult_le_0_compat; assumption).
    rewrite En in Hlo, Hhi.
    rewrite heartbeat_turn_on_time by lra.
    specialize (IH m (t + d)%Q ltac:(lia) ltac:(lra) ltac:(lra)).
    cbv zeta in IH.
    destruct (run (timed closes) (Clock (t + d) []) _) as [[tr s] res].
    cbn [trace_of outcome_of fst snd sends flat_map app now ticks map] in *.
    destruct IH as [-> ->]. split; reflexivity.
Qed.

(** The heartbeat that answers with pong frames is none of those that
    send text. *)
Lemma binance_sends_no_text (ws : ClientWebSocketResponse)
    (text : string) (d : Q) (pre : string -> coro unit) :
  (0 < fuel)%nat ->
  (forall u, exists e k, pre u = Do e k /\ e <> Transmit FPong) ->
  Heartbeat.binance fuel ws
  <> while_not_closed fuel (pre text;; await_unit (Sleep d)).
Proof.
  intros Hf Hpre E. destruct fuel as [|n]; [lia |].
  unfold Heartbeat.binance in E. cbn [while_not_closed] in E.
  unfold await_bool in E. cbn [mbind coro_bind cbind] in E.
  injection E as E.
  apply (f_equal (fun k => k (RBool false))) in E.
  destruct (Hpre text) as (e & k & Ep & Hne).
  cbn [mbind coro_bind cbind] in E. rewrite Ep in E.
  unfold pong, await_unit in E. cbn [cbind] in E.
  injection E as E _. apply Hne. symmetry. exact E.
Qed.

Lemma send_str_starts (ws : ClientWebSocketResponse) (text : string) :
  exists e k, send_str fuel ws text = Do e k /\ e <> Transmit FPong.
Proof.
  unfold send_str.
  destruct (RequestLimitHosts.items fuel !! url_host ws) as [l|] eqn:E.
  - destruct (RequestLimitHosts_cases _ _ _ E) as [-> | ->];
      eexists _, _; (split; [reflexivity | discriminate]).
  - eexists _, _. split; [reflexivity | discriminate].
Qed.

(** The seven heartbeats that send a fixed frame, with the frame and
    the seconds slept after it. *)
Local Abbreviation fixed_heartbeats :=
  [ (Heartbeat.bybit fuel,
     FText ("{" +:+ quoted "op" +:+ ":" +:+ quoted "ping" +:+ "}"),
     30%Q);
    (Heartbeat.bitbank fuel, FText "2", 15%Q);
    (Heartbeat.binance fuel, FPong, 60%Q);
    (Heartbeat.phemex fuel,
     FText ("{" +:+ quoted "method" +:+ ":" +:+ quoted "server.ping"
                +:+ "," +:+ quoted "params" +:+ ":[],"
                +:+ quoted "id" +:+ ":123}"),
     10%Q);
    (Heartbeat.okx fuel, FText "ping", 15%Q);
    (Heartbeat.bitget fuel, FText "ping", 25%Q);
    (Heartbeat.mexc fuel,
     FText ("{" +:+ quoted "method" +:+ ":" +:+ quoted "ping" +:+ "}"),
     10%Q) ].

(** On its host each of them is a loop of one physical send and one
    sleep: the hosts of those that send text have no RateLimit hook. *)
Lemma fixed_heartbeat_loop (ws : ClientWebSocketResponse)
    (hook : ClientWebSocketResponse -> coro unit) (f : frame) (d : Q) :
  (0 < fuel)%nat ->
  HeartbeatHosts.items fuel !! url_host ws = Some hook ->
  In (hook, f, d) fixed_heartbeats ->
  hook ws
  = while_not_closed fuel (await_unit (Transmit f);; await_unit (Sleep d))
  /\ (0 <= d)%Q.
Proof.
  intros Hfuel Hreg Hin.
  assert (forall text d',
             hook = (fun ws => while_not_closed fuel
                                 (send_str fuel ws text;;
                                  await_unit (Sleep d'))) ->
             RequestLimitHosts.items fuel !! url_host ws = None) as Hrl.
  { intros text d' Eh.
    destruct (HeartbeatHosts_cases _ _ Hreg) as [Eb | [Hrl _]];
      [| exact Hrl].
    exfalso. rewrite Eh in Eb.
    apply (f_equal (fun g => g ws)) in Eb. symmetry in Eb. revert Eb.
    apply (binance_sends_no_text ws text d'
             (fun text => send_str fuel ws text)); [exact Hfuel |].
    intros u. apply send_str_starts. }
  assert (forall text d',
             (0 <= d')%Q -> f = FText text -> d = d' ->
             hook = (fun ws => while_not_closed fuel
                                 (send_str fuel ws text;;
                                  await_unit (Sleep d'))) ->
             hook ws
             = while_not_closed fuel
                 (await_unit (Transmit f);; await_unit (Sleep d))
             /\ (0 <= d)%Q) as Htext.
  { intros text d' Hd' -> -> Eh.
    pose proof (Hrl text d' Eh) as Hnone. rewrite Eh.
    rewrite (text_send_unlimited ws text Hnone). auto. }
  cbn [In] in Hin.
  destruct Hin as [E | [E | [E | [E | [E | [E | [E | []]]]]]]];
    injection E as Eh Ef Ed; symmetry in Eh, Ef, Ed.
  3: { subst hook f d. split; [reflexivity | discriminate]. }
  all: eapply Htext; [| exact Ef | exact Ed | exact Eh]; discriminate.
Qed.

(** X6.  On a host whose heartbeat is one of the seven that send a
    fixed frame, with wake-ups on time and the socket closing at
    [closes], the heartbeat sends its frame at once and then every
    period: Bybit every 30 s, bitbank and OKX every 15 s, Binance a pong
    every 60 s, Phemex and MEXC every 10 s, Bitget every 25 s; the [n]
    frames at 0, d, 2d, ... are all those before [closes], and the
    heartbeat then returns. *)
Theorem heartbeat_schedule (ws : ClientWebSocketResponse)
    (hook : ClientWebSocketResponse -> coro unit)
    (f : frame) (d : Q) (n : nat) (closes : Q) :
  HeartbeatHosts.items fuel !! url_host ws = Some hook ->
  In (hook, f, d) fixed_heartbeats ->
  (n < fuel)%nat ->
  (inject_Z (Z.of_nat n) * d - d < closes)%Q ->
  (closes <= inject_Z (Z.of_nat n) * d)%Q ->
  let r := run (timed closes) (Clock 0 []) (hook ws) in
  sends (trace_of r) = map (fun t => (t, f)) (ticks d 0 n)
  /\ outcome_of r = Returned tt.
Proof.
  intros Hreg Hin Hn Hlo Hhi.
  destruct (fixed_heartbeat_loop ws hook f d ltac:(lia) Hreg Hin)
    as [-> Hd].
  apply heartbeat_ticks; [exact Hd | exact Hn | lra | lra].
Qed.

(** [n] turns of such a loop that go well, and then one whose send
    fails. *)
Lemma heartbeat_turns_then_failure (f : frame) (d : Q) (x : exn)
    (n m : nat) :
  (n < m)%nat ->
  let r := run scripted
               (concat (repeat [RBool false; RUnit; RUnit] n)
                  ++ [RBool false; RRaise x])
               (while_not_closed m
                  (await_unit (Transmit f);; await_unit (Sleep d))) in
  exchanges (trace_of r)
  = concat (repeat [(IsClosed, RBool false); (Transmit f, RUnit);
                    (Sleep d, RUnit)] n)
      ++ [(IsClosed, RBool false); (Transmit f, RRaise x)]
  /\ outcome_of r = Raised x.
Proof.
  revert m. induction n as [|n IH]; intros m Hm;
    (destruct m as [|m]; [lia |]).
  - split; reflexivity.
  - specialize (IH m ltac:(lia)). cbv zeta in IH.
    cbn [repeat concat app while_not_closed].
    remember (while_not_closed m
                (await_unit (Transmit f);; await_unit (Sleep d)))
      as loop eqn:Eloop.
    cbn [run mbind coro_bind cbind await_bool await_unit scripted].
    destruct (run scripted _ loop) as [[tr s] res].
    cbn [trace_of outcome_of fst snd exchanges map] in *.
    destruct IH as [-> ->]. split; reflexivity.
Qed.

(** X7.  A heartbeat has no handler for a send that fails: after any
    number of turns that went well, a send that raises ends the
    heartbeat with that exception.  It tests [ws.closed] and sends no
    more, and nothing starts it again. *)
Theorem heartbeat_ends_with_failed_send (ws : ClientWebSocketResponse)
    (hook : ClientWebSocketResponse -> coro unit)
    (f : frame) (d : Q) (n : nat) (x : exn) :
  HeartbeatHosts.items fuel !! url_host ws = Some hook ->
  In (hook, f, d) fixed_heartbeats ->
  (n < fuel)%nat ->
  let r := run scripted
               (concat (repeat [RBool false; RUnit; RUnit] n)
                  ++ [RBool false; RRaise x])
               (hook ws) in
  exchanges (trace_of r)
  = concat (repeat [(IsClosed, RBool false); (Transmit f, RUnit);
                    (Sleep d, RUnit)] n)
      ++ [(IsClosed, RBool false); (Transmit f, RRaise x)]
  /\ outcome_of r = Raised x.
Proof.
  intros Hreg Hin Hn.
  destruct (fixed_heartbeat_loop ws hook f d ltac:(lia) Hreg Hin)
    as [-> _].
  apply heartbeat_turns_then_failure. exact Hn.
Qed.

End HeartbeatSchedules.

Section HeartbeatScheduleExamples.

(** A Bitget connection open for 60 seconds: pings at 0, 25 and 50. *)
Lemma heartbeat_schedule_witness :
  sends (trace_of (run (timed 60) (Clock 0 [])
                     (Heartbeat.bitget 4
                        (WS "ws.bitget.com" "/mix/v1/stream" false ∅))))
  = [(0, FText "ping"); (0 + 25, FText "ping");
     (0 + 25 + 25, FText "ping")]%Q.
Proof.
  refine (proj1 (heartbeat_schedule 4
                   (WS "ws.bitget.com" "/mix/v1/stream" false ∅)
                   (Heartbeat.bitget 4)
                   (FText "ping") 25 3 60 _ _ _ _ _)).
  - vm_compute. reflexivity.
  - do 5 right. left. reflexivity.
  - lia.
  - reflexivity.
  - discriminate.
Defined.

Lemma heartbeat_effects_witness :
  Forall (fun e => is_heartbeat_effect e = true)
         (effects (trace_of (run (timed 60) (Clock 0 [])
                               (Heartbeat.binance 4
                                  sample_binance)))).
Proof.
  refine (proj2 (heartbeat_effects (H := sample_library) 4 sample_binance
                   (Heartbeat.binance 4) _) _ _ _).
  vm_compute. reflexivity.
Defined.

Lemma heartbeat_ends_with_failed_send_witness :
  exchanges (trace_of (run scripted
                         (concat (repeat [RBool false; RUnit; RUnit] 1)
                            ++ [RBool false; RRaise ConnectionResetError])
                         (Heartbeat.binance 4 sample_binance)))
  = concat (repeat [(IsClosed, RBool false); (Transmit FPong, RUnit);
                    (Sleep 60, RUnit)] 1)
      ++ [(IsClosed, RBool false);
          (Transmit FPong, RRaise ConnectionResetError)].
Proof.
  refine (proj1 (heartbeat_ends_with_failed_send 4 sample_binance
                   (Heartbeat.binance 4) FPong 60 1 ConnectionResetError
                   _ _ _)).
  - vm_compute. reflexivity.
  - do 2 right. left. reflexivity.
  - lia.
Defined.

End HeartbeatScheduleExamples.

(** ** The Auth hooks: how the read loop treats a frame *)

Section ReadLoop.
Variable t : Q.
Variable nonce : string.

Local Abbreviation env := (inbound_frames t nonce).

Lemma summary_clock {R : Type} (f : Q -> coro R) (s : list WSMessage) :
  summary (run env s (await_num TimeNow ≫= f)) = summary (run env s (f t)).
Proof.
  unfold summary. cbn [mbind coro_bind cbind await_num run inbound_frames].
  destruct (run env s (f t)) as [[tr s'] res]. reflexivity.
Qed.

Lemma summary_nonce {R : Type} (n : nat) (f : string -> coro R)
    (s : list WSMessage) :
  summary (run env s (await_str (TokenHex n) ≫= f))
  = summary (run env s (f nonce)).
Proof.
  unfold summary. cbn [mbind coro_bind cbind await_str run inbound_frames].
  destruct (run env s (f nonce)) as [[tr s'] res]. reflexivity.
Qed.

Lemma summary_send {R : Type} (x : string) (f : unit -> coro R)
    (s : list WSMessage) :
  summary (run env s (super_send_str x ≫= f)) = summary (run env s (f tt)).
Proof.
  unfold summary, super_send_str.
  cbn [mbind coro_bind cbind await_unit run inbound_frames].
  destruct (run env s (f tt)) as [[tr s'] res]. reflexivity.
Qed.

(** One turn of [async for msg in ws] with a frame at hand. *)
Lemma read_loop_next (body : WSMessage -> coro bool) (n : nat)
    (m : WSMessage) (later : list WSMessage) :
  summary (run env (m :: later) (async_for (S n) body))
  = let '(tr1, s1, res1) := run env later (body m) in
    match res1 with
    | Returned true => (warnings tr1, s1, Returned tt)
    | Returned false =>
        let '(w, s2, res2) := summary (run env s1 (async_for n body)) in
        (warnings tr1 ++ w, s2, res2)
    | Raised x => (warnings tr1, s1, Raised x)
    | Spinning => (warnings tr1, s1, Spinning)
    end.
Proof.
  unfold summary. cbn [async_for].
  remember (async_for n body) as loop.
  cbn [mbind coro_bind cbind await_msg run inbound_frames].
  change (cbind (body m) (fun b : bool => if b then Ret tt else loop))
    with (body m ≫= (fun b : bool => if b then Ret tt else loop)).
  rewrite run_bind.
  destruct (run env later (body m)) as [[tr1 s1] [[|] | x |]];
    try reflexivity.
  - cbn [run]. rewrite app_nil_r. reflexivity.
  - destruct (run env s1 loop) as [[tr2 s2] res2].
    cbn [trace_of outcome_of fst snd].
    unfold warnings at 1. cbn [flat_map fst snd app].
    fold (warnings (tr1 ++ tr2)). unfold warnings.
    rewrite flat_map_app. reflexivity.
Qed.

Lemma read_loop_end (body : WSMessage -> coro bool) (n : nat) :
  summary (run env [] (async_for (S n) body)) = ([], [], Returned tt).
Proof. reflexivity. Qed.

Lemma read_loop_skip (body : WSMessage -> coro bool) (n : nat)
    (m : WSMessage) (later : list WSMessage) :
  body m = Ret false ->
  summary (run env (m :: later) (async_for (S n) body))
  = summary (run env later (async_for n body)).
Proof.
  intros E. rewrite read_loop_next, E. cbn [run].
  destruct (summary (run env later (async_for n body))) as [[w s2] res2].
  reflexivity.
Qed.

Lemma read_loop_skips (body : WSMessage -> coro bool) (n : nat)
    (skipped later : list WSMessage) :
  Forall (fun m => body m = Ret false) skipped ->
  summary (run env (skipped ++ later)
               (async_for (length skipped + n) body))
  = summary (run env later (async_for n body)).
Proof.
  induction 1 as [| m skipped Hm _ IH]; [reflexivity |].
  cbn [length Nat.add app]. rewrite read_loop_skip by exact Hm. exact IH.
Qed.

Lemma read_loop_raise (body : WSMessage -> coro bool) (n : nat)
    (m : WSMessage) (later : list WSMessage) (x : exn) :
  body m = Raise x ->
  summary (run env (m :: later) (async_for (S n) body))
  = ([], later, Raised x).
Proof. intros E. rewrite read_loop_next, E. reflexivity. Qed.

Lemma read_loop_warn_raise (body : WSMessage -> coro bool) (n : nat)
    (m : WSMessage) (later : list WSMessage) (d : pyval) (x : exn) :
  body m = (await_unit (Warn d);; Raise x) ->
  summary (run env (m :: later) (async_for (S n) body))
  = ([d], later, Raised x).
Proof. intros E. rewrite read_loop_next, E. reflexivity. Qed.

End ReadLoop.

Section AuthReadLoop.
Context `{Library}.
Variable fuel : nat.

(** *** What the loop bodies do with a frame *)

Lemma bodies_pass_other msg :
  is_TEXT msg = false -> is_ERROR msg = false ->
  Auth.bybit_body msg = Ret false
  /\ Auth.bitflyer_body msg = Ret false
  /\ Auth.phemex_body msg = Ret false
  /\ Auth.okx_body msg = Ret false
  /\ Auth.bitget_body msg = Ret false.
Proof.
  intros Ht He.
  unfold Auth.bybit_body, Auth.bitflyer_body, Auth.phemex_body,
    Auth.okx_body, Auth.bitget_body.
  rewrite Ht, He. repeat split; reflexivity.
Qed.

Lemma bodies_pass_undecodable msg doc :
  is_TEXT msg = true -> msg_json msg = JSONDecodeError doc ->
  Auth.okx_body msg = Ret false /\ Auth.bitget_body msg = Ret false.
Proof.
  intros Ht Hj. unfold Auth.okx_body, Auth.bitget_body.
  rewrite Ht, Hj. split; reflexivity.
Qed.

Lemma bodies_raise_undecodable msg doc :
  is_TEXT msg = true -> msg_json msg = JSONDecodeError doc ->
  Auth.bybit_body msg = Raise JSONDecodeErr
  /\ Auth.bitflyer_body msg = Raise JSONDecodeErr
  /\ Auth.phemex_body msg = Raise JSONDecodeErr.
Proof.
  intros Ht Hj.
  unfold Auth.bybit_body, Auth.bitflyer_body, Auth.phemex_body,
    Auth.json_or_raise.
  rewrite Ht, Hj. repeat split; reflexivity.
Qed.

Ltac decode Ht Hj :=
  unfold Auth.bybit_body, Auth.bitflyer_body, Auth.phemex_body,
    Auth.okx_body, Auth.bitget_body, Auth.json_or_raise, Auth.contains,
    Auth.break, Auth.continue;
  rewrite Ht, Hj;
  cbn [mbind coro_bind cbind or_raise py_in py_getitem].

Lemma bybit_body_passes msg d :
  is_TEXT msg = true -> msg_json msg = JsonOk (PyDict d) ->
  dict_get "success" d = None -> dict_get "auth" d = None ->
  dict_get "code" d = None ->
  Auth.bybit_body msg = Ret false.
Proof.
  intros Ht Hj Hs Ha Hc. decode Ht Hj. rewrite Hs.
  cbn [mbind coro_bind cbind or_raise py_in]. rewrite Ha.
  cbn [mbind coro_bind cbind or_raise py_in]. rewrite Hc. reflexivity.
Qed.

Lemma bitflyer_body_passes msg d :
  is_TEXT msg = true -> msg_json msg = JsonOk (PyDict d) ->
  dict_get "error" d = None -> dict_get "id" d = None ->
  Auth.bitflyer_body msg = Ret false.
Proof.
  intros Ht Hj He Hi. decode Ht Hj. rewrite He.
  cbn [mbind coro_bind cbind or_raise py_in]. rewrite Hi. reflexivity.
Qed.

Lemma phemex_body_passes msg d r :
  is_TEXT msg = true -> msg_json msg = JsonOk (PyDict d) ->
  dict_get "error" d = None \/ dict_get "error" d = Some PyNone ->
  dict_get "result" d = Some r -> Auth.is_status_success r = false ->
  Auth.phemex_body msg = Ret false.
Proof.
  intros Ht Hj [He | He] Hr Hs; decode Ht Hj; rewrite He;
    cbn [mbind coro_bind cbind or_raise py_in py_getitem is_None negb];
    rewrite Hr; cbn [mbind coro_bind cbind or_raise]; rewrite Hs;
    reflexivity.
Qed.

Lemma okx_body_passes msg d ev :
  is_TEXT msg = true -> msg_json msg = JsonOk (PyDict d) ->
  dict_get "event" d = Some ev ->
  py_eq_str ev "error" = false -> py_eq_str ev "login" = false ->
  Auth.okx_body msg = Ret false.
Proof.
  intros Ht Hj He Hx Hl. decode Ht Hj. rewrite He.
  cbn [mbind coro_bind cbind or_raise]. rewrite Hx, Hl. reflexivity.
Qed.

Lemma bitget_body_passes msg d :
  is_TEXT msg = true -> msg_json msg = JsonOk (PyDict d) ->
  dict_get "event" d = None
  \/ (exists ev, dict_get "event" d = Some ev
                 /\ py_eq_str ev "error" = false
                 /\ py_eq_str ev "login" = false) ->
  Auth.bitget_body msg = Ret false.
Proof.
  intros Ht Hj [He | (ev & He & Hx & Hl)]; decode Ht Hj; rewrite He;
    cbn [mbind coro_bind cbind or_raise]; rewrite ?Hx, ?Hl; reflexivity.
Qed.

Lemma phemex_body_no_result msg d :
  is_TEXT msg = true -> msg_json msg = JsonOk (PyDict d) ->
  dict_get "result" d = None ->
  Auth.phemex_body msg
  = match dict_get "error" d with
    | Some e => if is_None e then Raise KeyError
                else await_unit (Warn (PyDict d));; Raise KeyError
    | None => Raise KeyError
    end.
Proof.
  intros Ht Hj Hr. decode Ht Hj.
  destruct (dict_get "error" d) as [e|];
    cbn [mbind coro_bind cbind or_raise]; [destruct (is_None e) |];
    cbn [negb mbind coro_bind cbind or_raise await_unit]; rewrite Hr.
  - reflexivity.
  - cbn [or_raise cbind]. f_equal.
  - reflexivity.
Qed.

Lemma okx_body_no_event msg d :
  is_TEXT msg = true -> msg_json msg = JsonOk (PyDict d) ->
  dict_get "event" d = None ->
  Auth.okx_body msg = Raise KeyError.
Proof. intros Ht Hj He. decode Ht Hj. rewrite He. reflexivity. Qed.

Lemma bodies_raise_scalar msg v :
  is_TEXT msg = true -> msg_json msg = JsonOk v ->
  (exists z, v = PyInt z) \/ (exists b, v = PyBool b) \/ v = PyNone ->
  Auth.bybit_body msg = Raise TypeError
  /\ Auth.bitflyer_body msg = Raise TypeError
  /\ Auth.phemex_body msg = Raise TypeError
  /\ Auth.okx_body msg = Raise TypeError
  /\ Auth.bitget_body msg = Raise TypeError.
Proof.
  intros Ht Hj [[z ->] | [[b ->] | ->]]; decode Ht Hj;
    repeat split; reflexivity.
Qed.

(** *** The hooks over a list of inbound frames *)

Section Registered.
Variable ws : ClientWebSocketResponse.
Variable it : Item (ClientWebSocketResponse -> coro unit).
Variables key secret : string.
Variable more : list string.
Hypothesis registered : AuthHosts.items fuel !! url_host ws = Some it.
Hypothesis on_file : _apis ws !! name it = Some (key :: secret :: more).
Variable t : Q.
Variable nonce : string.

Local Abbreviation reading hook frames :=
  (summary (run (inbound_frames t nonce) frames (hook fuel ws))).

(** Past the handshake every reading hook is its read loop. *)
Lemma bybit_reads frames :
  str_contains "public" (url_path ws)
  || startswith (url_path ws) "/spot/quote" = false ->
  reading Auth.bybit frames
  = summary (run (inbound_frames t nonce) frames
                 (async_for fuel Auth.bybit_body)).
Proof.
  intros Hg.
  rewrite (bybit_resolved fuel ws it registered key secret _ on_file), Hg.
  rewrite summary_clock, summary_send. reflexivity.
Qed.

Lemma bitflyer_reads frames :
  reading Auth.bitflyer frames
  = summary (run (inbound_frames t nonce) frames
                 (async_for fuel Auth.bitflyer_body)).
Proof.
  rewrite (bitflyer_resolved fuel ws it registered key secret _ on_file).
  rewrite summary_clock, summary_nonce, summary_send. reflexivity.
Qed.

Lemma phemex_reads frames :
  reading Auth.phemex frames
  = summary (run (inbound_frames t nonce) frames
                 (async_for fuel Auth.phemex_body)).
Proof.
  rewrite (phemex_resolved fuel ws it registered key secret _ on_file).
  rewrite summary_clock, summary_send. reflexivity.
Qed.

Lemma okx_reads passphrase more' frames :
  more = passphrase :: more' ->
  endswith (url_path ws) "public" = false ->
  reading Auth.okx frames
  = summary (run (inbound_frames t nonce) frames
                 (async_for fuel Auth.okx_body)).
Proof.
  intros Hm Hg.
  rewrite (okx_resolved fuel ws it registered key secret _ on_file
             passphrase more' Hm), Hg.
  rewrite summary_clock, summary_send. reflexivity.
Qed.

Lemma bitget_reads passphrase more' frames :
  more = passphrase :: more' ->
  reading Auth.bitget frames
  = summary (run (inbound_frames t nonce) frames
                 (async_for fuel Auth.bitget_body)).
Proof.
  intros Hm.
  rewrite (bitget_resolved fuel ws it registered key secret _ on_file
             passphrase more' Hm).
  rewrite summary_clock, summary_send. reflexivity.
Qed.

Lemma reads_to_the_end (body : WSMessage -> coro bool)
    (frames : list WSMessage) :
  (length frames < fuel)%nat ->
  Forall (fun m => body m = Ret false) frames ->
  summary (run (inbound_frames t nonce) frames (async_for fuel body))
  = ([], [], Returned tt).
Proof.
  intros Hf Hall.
  replace fuel with (length frames + S (fuel - S (length frames)))%nat
    by lia.
  rewrite <- (app_nil_r frames) at 1.
  rewrite read_loop_skips by exact Hall. apply read_loop_end.
Qed.

Lemma reads_until_raise (body : WSMessage -> coro bool)
    (skipped : list WSMessage) (bad : WSMessage)
    (later : list WSMessage) (w : list pyval) (x : exn) :
  (length skipped < fuel)%nat ->
  Forall (fun m => body m = Ret false) skipped ->
  (forall n, summary (run (inbound_frames t nonce) (bad :: later)
                          (async_for (S n) body))
             = (w, later, Raised x)) ->
  summary (run (inbound_frames t nonce) (skipped ++ bad :: later)
               (async_for fuel body))
  = (w, later, Raised x).
Proof.
  intros Hf Hall Hbad.
  replace fuel with (length skipped + S (fuel - S (length skipped)))%nat
    by lia.
  rewrite read_loop_skips by exact Hall. apply Hbad.
Qed.

End Registered.

End AuthReadLoop.

Section AuthReadLoopTheorems.
Context `{Library}.

(** X8.  The frames an Auth hook passes over.  With credentials on
    file, past its handshake, a hook reads on without a warning over:
    any frame that is neither TEXT nor ERROR (all five); a TEXT frame
    that fails to decode (OKX and Bitget only); and a decoded object
    without the keys the hook looks for (Bybit: [success], [auth],
    [code]; bitFlyer: [error], [id]; Bitget: [event]), or whose [event]
    is neither [error] nor [login] (OKX, Bitget), or, for Phemex, with
    no error and a [result] other than the success status.  When only
    such frames arrive and the stream ends, the hook returns: the Auth
    task is over although no login was confirmed. *)
Theorem frames_passed_over
    (fuel : nat) (ws : ClientWebSocketResponse)
    (it : Item (ClientWebSocketResponse -> coro unit))
    (key secret : string) (more : list string)
    (t : Q) (nonce : string) (frames : list WSMessage) :
  AuthHosts.items fuel !! url_host ws = Some it ->
  _apis ws !! name it = Some (key :: secret :: more) ->
  (length frames < fuel)%nat ->
  let other m := is_TEXT m = false /\ is_ERROR m = false in
  let undecodable m :=
    is_TEXT m = true /\ exists doc, msg_json m = JSONDecodeError doc in
  let object m (P : list (string * pyval) -> Prop) :=
    is_TEXT m = true /\ exists d, msg_json m = JsonOk (PyDict d) /\ P d in
  let unanswered (hook : nat -> ClientWebSocketResponse -> coro unit) :=
    summary (run (inbound_frames t nonce) frames (hook fuel ws))
    = ([], [], Returned tt) in
  let has_passphrase :=
    exists passphrase more', more = passphrase :: more' in
  (str_contains "public" (url_path ws)
   || startswith (url_path ws) "/spot/quote" = false ->
   Forall (fun m =>
             other m
             \/ object m (fun d => dict_get "success" d = None
                                   /\ dict_get "auth" d = None
                                   /\ dict_get "code" d = None)) frames ->
   unanswered Auth.bybit)
  /\ (Forall (fun m =>
                other m
                \/ object m (fun d => dict_get "error" d = None
                                      /\ dict_get "id" d = None)) frames ->
      unanswered Auth.bitflyer)
  /\ (Forall (fun m =>
                other m
                \/ object m
                     (fun d =>
                        (dict_get "error" d = None
                         \/ dict_get "error" d = Some PyNone)
                        /\ exists r, dict_get "result" d = Some r
                                     /\ Auth.is_status_success r = false))
             frames ->
      unanswered Auth.phemex)
  /\ (has_passphrase ->
      endswith (url_path ws) "public" = false ->
      Forall (fun m =>
                other m \/ undecodable m
                \/ object m
                     (fun d => exists ev,
                          dict_get "event" d = Some ev
                          /\ py_eq_str ev "error" = false
                          /\ py_eq_str ev "login" = false)) frames ->
      unanswered Auth.okx)
  /\ (has_passphrase ->
      Forall (fun m =>
                other m \/ undecodable m
                \/ object m
                     (fun d =>
                        dict_get "event" d = None
                        \/ exists ev,
                             dict_get "event" d = Some ev
                             /\ py_eq_str ev "error" = false
                             /\ py_eq_str ev "login" = false)) frames ->
      unanswered Auth.bitget).
Proof.
  intros Hreg Hc Hf other undecodable object unanswered has_passphrase.
  subst unanswered has_passphrase. cbv beta.
  split; [| split; [| split; [| split]]].
  - intros Hg Hall.
    rewrite (bybit_reads fuel ws it key secret more Hreg Hc)
      by exact Hg.
    apply reads_to_the_end; [exact Hf |].
    eapply Forall_impl; [exact Hall |]. cbv beta.
    intros m [[Ht He] | (Ht & d & Hj & Hs & Ha & Hk)].
    + apply (bodies_pass_other m Ht He).
    + exact (bybit_body_passes m d Ht Hj Hs Ha Hk).
  - intros Hall.
    rewrite (bitflyer_reads fuel ws it key secret more Hreg Hc).
    apply reads_to_the_end; [exact Hf |].
    eapply Forall_impl; [exact Hall |]. cbv beta.
    intros m [[Ht He] | (Ht & d & Hj & Hs & Ha)].
    + apply (bodies_pass_other m Ht He).
    + exact (bitflyer_body_passes m d Ht Hj Hs Ha).
  - intros Hall.
    rewrite (phemex_reads fuel ws it key secret more Hreg Hc).
    apply reads_to_the_end; [exact Hf |].
    eapply Forall_impl; [exact Hall |]. cbv beta.
    intros m [[Ht He] | (Ht & d & Hj & Hs & r & Hr & Hn)].
    + apply (bodies_pass_other m Ht He).
    + exact (phemex_body_passes m d r Ht Hj Hs Hr Hn).
  - intros (passphrase & more' & Hm) Hg Hall.
    rewrite (okx_reads fuel ws it key secret more Hreg Hc _ _ passphrase
               more' _ Hm Hg).
    apply reads_to_the_end; [exact Hf |].
    eapply Forall_impl; [exact Hall |]. cbv beta.
    intros m [[Ht He] | [(Ht & doc & Hj)
                        | (Ht & d & Hj & ev & Hev & Hx & Hl)]].
    + apply (bodies_pass_other m Ht He).
    + apply (bodies_pass_undecodable m doc Ht Hj).
    + exact (okx_body_passes m d ev Ht Hj Hev Hx Hl).
  - intros (passphrase & more' & Hm) Hall.
    rewrite (bitget_reads fuel ws it key secret more Hreg Hc _ _ passphrase
               more' _ Hm).
    apply reads_to_the_end; [exact Hf |].
    eapply Forall_impl; [exact Hall |]. cbv beta.
    intros m [[Ht He] | [(Ht & doc & Hj) | (Ht & d & Hj & Hev)]].
    + apply (bodies_pass_other m Ht He).
    + apply (bodies_pass_undecodable m doc Ht Hj).
    + exact (bitget_body_passes m d Ht Hj Hev).
Qed.

(** X9.  A TEXT frame that fails to decode, arriving after any number
    of frames that are neither TEXT nor ERROR, ends the Bybit, bitFlyer
    and Phemex hooks with [json.JSONDecodeError]: the Auth task fails
    there, without a warning, and the frames after it are left unread.
    (OKX and Bitget catch the error and read on.) *)
Theorem undecodable_frame_ends_login
    (fuel : nat) (ws : ClientWebSocketResponse)
    (it : Item (ClientWebSocketResponse -> coro unit))
    (key secret : string) (more : list string)
    (t : Q) (nonce : string)
    (skipped : list WSMessage) (bad : WSMessage) (doc : string)
    (later : list WSMessage) :
  AuthHosts.items fuel !! url_host ws = Some it ->
  _apis ws !! name it = Some (key :: secret :: more) ->
  (length skipped < fuel)%nat ->
  Forall (fun m => is_TEXT m = false /\ is_ERROR m = false) skipped ->
  is_TEXT bad = true -> msg_json bad = JSONDecodeError doc ->
  let ends (hook : nat -> ClientWebSocketResponse -> coro unit) :=
    summary (run (inbound_frames t nonce) (skipped ++ bad :: later)
                 (hook fuel ws))
    = ([], later, Raised JSONDecodeErr) in
  (str_contains "public" (url_path ws)
   || startswith (url_path ws) "/spot/quote" = false -> ends Auth.bybit)
  /\ ends Auth.bitflyer
  /\ ends Auth.phemex.
Proof.
  intros Hreg Hc Hf Hsk Ht Hj ends. subst ends. cbv beta.
  destruct (bodies_raise_undecodable bad doc Ht Hj) as (B1 & B2 & B3).
  assert (forall body,
             (forall m, is_TEXT m = false -> is_ERROR m = false ->
                        body m = Ret false) ->
             Forall (fun m => body m = Ret false) skipped) as Hpass.
  { intros body Hb. eapply Forall_impl; [exact Hsk |].
    intros m [T E]. exact (Hb m T E). }
  split; [| split].
  - intros Hg.
    rewrite (bybit_reads fuel ws it key secret more Hreg Hc)
      by exact Hg.
    apply reads_until_raise; [exact Hf | |].
    + apply Hpass. intros m T E. apply (bodies_pass_other m T E).
    + intros n. apply read_loop_raise. exact B1.
  - rewrite (bitflyer_reads fuel ws it key secret more Hreg Hc).
    apply reads_until_raise; [exact Hf | |].
    + apply Hpass. intros m T E. apply (bodies_pass_other m T E).
    + intros n. apply read_loop_raise. exact B2.
  - rewrite (phemex_reads fuel ws it key secret more Hreg Hc).
    apply reads_until_raise; [exact Hf | |].
    + apply Hpass. intros m T E. apply (bodies_pass_other m T E).
    + intros n. apply read_loop_raise. exact B3.
Qed.

(** X10.  A decoded TEXT frame a hook cannot index ends it with the
    exception of the failed lookup, the frames after it left unread:
    an object without [result] ends the Phemex hook with [KeyError]
    (after the warning, if the object has an [error] that is not
    [None]); an object without [event] ends the OKX hook with
    [KeyError]; a number, a boolean or [null] ends every hook with
    [TypeError]. *)
Theorem unindexable_frame_ends_login
    (fuel : nat) (ws : ClientWebSocketResponse)
    (it : Item (ClientWebSocketResponse -> coro unit))
    (key secret : string) (more : list string)
    (t : Q) (nonce : string)
    (skipped : list WSMessage) (bad : WSMessage) (later : list WSMessage) :
  AuthHosts.items fuel !! url_host ws = Some it ->
  _apis ws !! name it = Some (key :: secret :: more) ->
  (length skipped < fuel)%nat ->
  Forall (fun m => is_TEXT m = false /\ is_ERROR m = false) skipped ->
  is_TEXT bad = true ->
  let ends (hook : nat -> ClientWebSocketResponse -> coro unit)
           (w : list pyval) (x : exn) :=
    summary (run (inbound_frames t nonce) (skipped ++ bad :: later)
                 (hook fuel ws))
    = (w, later, Raised x) in
  let bybit_private :=
    str_contains "public" (url_path ws)
    || startswith (url_path ws) "/spot/quote" = false in
  let okx_private :=
    endswith (url_path ws) "public" = false
    /\ exists passphrase more', more = passphrase :: more' in
  let has_passphrase :=
    exists passphrase more', more = passphrase :: more' in
  (forall d,
      msg_json bad = JsonOk (PyDict d) ->
      (dict_get "result" d = None ->
       ends Auth.phemex
            match dict_get "error" d with
            | Some e => if is_None e then [] else [PyDict d]
            | None => []
            end
            KeyError)
      /\ (okx_private -> dict_get "event" d = None ->
          ends Auth.okx [] KeyError))
  /\ (forall v,
         msg_json bad = JsonOk v ->
         (exists z, v = PyInt z) \/ (exists b, v = PyBool b) \/ v = PyNone ->
         (bybit_private -> ends Auth.bybit [] TypeError)
         /\ ends Auth.bitflyer [] TypeError
         /\ ends Auth.phemex [] TypeError
         /\ (okx_private -> ends Auth.okx [] TypeError)
         /\ (has_passphrase -> ends Auth.bitget [] TypeError)).
Proof.
  intros Hreg Hc Hf Hsk Ht ends bybit_on okx_on with_pass.
  subst ends bybit_on okx_on with_pass. cbv beta.
  assert (forall body,
             (forall m, is_TEXT m = false -> is_ERROR m = false ->
                        body m = Ret false) ->
             Forall (fun m => body m = Ret false) skipped) as Hpass.
  { intros body Hb. eapply Forall_impl; [exact Hsk |].
    intros m [T E]. exact (Hb m T E). }
  assert (forall m, is_TEXT m = false -> is_ERROR m = false ->
                    Auth.bybit_body m = Ret false) as P1
    by (intros m T E; apply (bodies_pass_other m T E)).
  assert (forall m, is_TEXT m = false -> is_ERROR m = false ->
                    Auth.bitflyer_body m = Ret false) as P2
    by (intros m T E; apply (bodies_pass_other m T E)).
  assert (forall m, is_TEXT m = false -> is_ERROR m = false ->
                    Auth.phemex_body m = Ret false) as P3
    by (intros m T E; apply (bodies_pass_other m T E)).
  assert (forall m, is_TEXT m = false -> is_ERROR m = false ->
                    Auth.okx_body m = Ret false) as P4
    by (intros m T E; apply (bodies_pass_other m T E)).
  assert (forall m, is_TEXT m = false -> is_ERROR m = false ->
                    Auth.bitget_body m = Ret false) as P5
    by (intros m T E; apply (bodies_pass_other m T E)).
  split.
  - intros d Hj. split.
    + intros Hr.
      rewrite (phemex_reads fuel ws it key secret more Hreg Hc).
      apply reads_until_raise; [exact Hf | exact (Hpass _ P3) |].
      intros n. pose proof (phemex_body_no_result bad d Ht Hj Hr) as Eb.
      destruct (dict_get "error" d) as [e|]; [destruct (is_None e) |].
      * apply read_loop_raise. exact Eb.
      * apply read_loop_warn_raise. exact Eb.
      * apply read_loop_raise. exact Eb.
    + intros (Hg & passphrase & more' & Hm) He.
      rewrite (okx_reads fuel ws it key secret more Hreg Hc _ _ passphrase
                 more' _ Hm Hg).
      apply reads_until_raise; [exact Hf | exact (Hpass _ P4) |].
      intros n. apply read_loop_raise.
      exact (okx_body_no_event bad d Ht Hj He).
  - intros v Hj Hv.
    destruct (bodies_raise_scalar bad v Ht Hj Hv)
      as (B1 & B2 & B3 & B4 & B5).
    split; [| split; [| split; [| split]]].
    + intros Hg.
      rewrite (bybit_reads fuel ws it key secret more Hreg Hc)
        by exact Hg.
      apply reads_until_raise; [exact Hf | exact (Hpass _ P1) |].
      intros n. apply read_loop_raise. exact B1.
    + rewrite (bitflyer_reads fuel ws it key secret more Hreg Hc).
      apply reads_until_raise; [exact Hf | exact (Hpass _ P2) |].
      intros n. apply read_loop_raise. exact B2.
    + rewrite (phemex_reads fuel ws it key secret more Hreg Hc).
      apply reads_until_raise; [exact Hf | exact (Hpass _ P3) |].
      intros n. apply read_loop_raise. exact B3.
    + intros (Hg & passphrase & more' & Hm).
      rewrite (okx_reads fuel ws it key secret more Hreg Hc _ _ passphrase
                 more' _ Hm Hg).
      apply reads_until_raise; [exact Hf | exact (Hpass _ P4) |].
      intros n. apply read_loop_raise. exact B4.
    + intros (passphrase & more' & Hm).
      rewrite (bitget_reads fuel ws it key secret more Hreg Hc _ _ passphrase
                 more' _ Hm).
      apply reads_until_raise; [exact Hf | exact (Hpass _ P5) |].
      intros n. apply read_loop_raise. exact B5.
Qed.

End AuthReadLoopTheorems.

(** ** The Auth hooks: the answer to the handshake *)

Section AuthAnswers.
Context `{Library}.

Lemma read_loop_stop (t : Q) (nonce : string)
    (body : WSMessage -> coro bool) (n : nat)
    (m : WSMessage) (later : list WSMessage) :
  body m = Ret true ->
  summary (run (inbound_frames t nonce) (m :: later) (async_for (S n) body))
  = ([], later, Returned tt).
Proof. intros E. rewrite read_loop_next, E. reflexivity. Qed.

Lemma read_loop_warn_stop (t : Q) (nonce : string)
    (body : WSMessage -> coro bool) (n : nat)
    (m : WSMessage) (later : list WSMessage) (d : pyval) :
  body m = (await_unit (Warn d);; Ret true) ->
  summary (run (inbound_frames t nonce) (m :: later) (async_for (S n) body))
  = ([d], later, Returned tt).
Proof. intros E. rewrite read_loop_next, E. reflexivity. Qed.

Lemma read_loop_warn_on (t : Q) (nonce : string)
    (body : WSMessage -> coro bool) (n : nat)
    (m : WSMessage) (later : list WSMessage) (d : pyval) :
  body m = (await_unit (Warn d);; Ret false) ->
  (length later < n)%nat ->
  Forall (fun m' => body m' = Ret false) later ->
  summary (run (inbound_frames t nonce) (m :: later) (async_for (S n) body))
  = ([d], [], Returned tt).
Proof.
  intros E Hn Hl. rewrite read_loop_next, E.
  cbn [run mbind coro_bind cbind await_unit inbound_frames].
  rewrite (reads_to_the_end n t nonce body later Hn Hl). reflexivity.
Qed.

(** The frames before an answer are passed over. *)
Lemma reads_until (fuel : nat) (t : Q) (nonce : string)
    (body : WSMessage -> coro bool)
    (skipped : list WSMessage) (answer : WSMessage)
    (later : list WSMessage)
    (r : list pyval * list WSMessage * result unit) :
  (length (skipped ++ answer :: later) < fuel)%nat ->
  Forall (fun m => body m = Ret false) skipped ->
  (forall n, (length later < n)%nat ->
             summary (run (inbound_frames t nonce) (answer :: later)
                          (async_for (S n) body)) = r) ->
  summary (run (inbound_frames t nonce) (skipped ++ answer :: later)
               (async_for fuel body))
  = r.
Proof.
  intros Hf Hall Hans. rewrite length_app in Hf. cbn [length] in Hf.
  replace fuel with (length skipped + S (fuel - S (length skipped)))%nat
    by lia.
  rewrite read_loop_skips by exact Hall. apply Hans. lia.
Qed.

Lemma bitflyer_body_rejected msg d e :
  is_TEXT msg = true -> msg_json msg = JsonOk (PyDict d) ->
  dict_get "error" d = Some e -> dict_get "id" d = Some (PyStr "auth") ->
  Auth.bitflyer_body msg = (await_unit (Warn (PyDict d));; Ret true).
Proof.
  intros Ht Hj He Hi.
  unfold Auth.bitflyer_body, Auth.json_or_raise, Auth.contains,
    Auth.break, Auth.continue.
  rewrite Ht, Hj. cbn [mbind coro_bind cbind or_raise py_in py_getitem].
  rewrite He, Hi. reflexivity.
Qed.

Lemma phemex_body_rejected msg d e r :
  is_TEXT msg = true -> msg_json msg = JsonOk (PyDict d) ->
  dict_get "error" d = Some e -> is_None e = false ->
  dict_get "result" d = Some r -> Auth.is_status_success r = false ->
  Auth.phemex_body msg = (await_unit (Warn (PyDict d));; Ret false).
Proof.
  intros Ht Hj He Hn Hr Hs.
  unfold Auth.phemex_body, Auth.json_or_raise, Auth.contains,
    Auth.break, Auth.continue.
  rewrite Ht, Hj. cbn [mbind coro_bind cbind or_raise py_in py_getitem].
  rewrite He. cbn [mbind coro_bind cbind or_raise]. rewrite Hn, Hr.
  cbn [negb mbind coro_bind cbind or_raise]. rewrite Hs. reflexivity.
Qed.

(** X11.  A confirmed login.  With credentials on file, past its
    handshake and after any number of frames that are neither TEXT nor
    ERROR, the frame that confirms the login (Bybit: a truthy
    [success], or without [success] the key [auth]; bitFlyer: the id
    [auth] and no [error]; Phemex: no [error] and the success status as
    [result]; OKX and Bitget: the event [login]) and equally an ERROR
    frame end the hook normally and without a warning; the frames after
    it are left unread. *)
Theorem login_confirmed
    (fuel : nat) (ws : ClientWebSocketResponse)
    (it : Item (ClientWebSocketResponse -> coro unit))
    (key secret : string) (more : list string)
    (t : Q) (nonce : string)
    (skipped : list WSMessage) (answer : WSMessage)
    (later : list WSMessage) :
  AuthHosts.items fuel !! url_host ws = Some it ->
  _apis ws !! name it = Some (key :: secret :: more) ->
  (length (skipped ++ answer :: later) < fuel)%nat ->
  Forall (fun m => is_TEXT m = false /\ is_ERROR m = false) skipped ->
  let ends (hook : nat -> ClientWebSocketResponse -> coro unit) :=
    summary (run (inbound_frames t nonce) (skipped ++ answer :: later)
                 (hook fuel ws))
    = ([], later, Returned tt) in
  let bybit_private :=
    str_contains "public" (url_path ws)
    || startswith (url_path ws) "/spot/quote" = false in
  let okx_private :=
    endswith (url_path ws) "public" = false
    /\ exists passphrase more', more = passphrase :: more' in
  let has_passphrase :=
    exists passphrase more', more = passphrase :: more' in
  (is_ERROR answer = true ->
   (bybit_private -> ends Auth.bybit)
   /\ ends Auth.bitflyer
   /\ ends Auth.phemex
   /\ (okx_private -> ends Auth.okx)
   /\ (has_passphrase -> ends Auth.bitget))
  /\ (forall d,
         is_TEXT answer = true -> msg_json answer = JsonOk (PyDict d) ->
         (bybit_private ->
          (exists v, dict_get "success" d = Some v /\ py_truthy v = true)
          \/ (dict_get "success" d = None
              /\ exists v, dict_get "auth" d = Some v) ->
          ends Auth.bybit)
         /\ (dict_get "error" d = None ->
             dict_get "id" d = Some (PyStr "auth") ->
             ends Auth.bitflyer)
         /\ (dict_get "error" d = None ->
             dict_get "result" d
             = Some (PyDict [("status", PyStr "success")]) ->
             ends Auth.phemex)
         /\ (okx_private -> dict_get "event" d = Some (PyStr "login") ->
             ends Auth.okx)
         /\ (has_passphrase ->
             dict_get "event" d = Some (PyStr "login") ->
             ends Auth.bitget)).
Proof.
  intros Hreg Hc Hf Hsk ends bybit_on okx_on with_pass.
  subst ends bybit_on okx_on with_pass. cbv beta.
  assert (forall body,
             (forall m, is_TEXT m = false -> is_ERROR m = false ->
                        body m = Ret false) ->
             Forall (fun m => body m = Ret false) skipped) as Hpass.
  { intros body Hb. eapply Forall_impl; [exact Hsk |].
    intros m [T E]. exact (Hb m T E). }
  assert (forall body,
             (forall m, is_TEXT m = false -> is_ERROR m = false ->
                        body m = Ret false) ->
             body answer = Ret true ->
             summary (run (inbound_frames t nonce)
                          (skipped ++ answer :: later)
                          (async_for fuel body))
             = ([], later, Returned tt)) as Hstop.
  { intros body Hb Ha. apply reads_until; [exact Hf | exact (Hpass _ Hb) |].
    intros n _. apply read_loop_stop. exact Ha. }
  assert (forall m, is_TEXT m = false -> is_ERROR m = false ->
                    Auth.bybit_body m = Ret false) as P1
    by (intros m T E; apply (bodies_pass_other m T E)).
  assert (forall m, is_TEXT m = false -> is_ERROR m = false ->
                    Auth.bitflyer_body m = Ret false) as P2
    by (intros m T E; apply (bodies_pass_other m T E)).
  assert (forall m, is_TEXT m = false -> is_ERROR m = false ->
                    Auth.phemex_body m = Ret false) as P3
    by (intros m T E; apply (bodies_pass_other m T E)).
  assert (forall m, is_TEXT m = false -> is_ERROR m = false ->
                    Auth.okx_body m = Ret false) as P4
    by (intros m T E; apply (bodies_pass_other m T E)).
  assert (forall m, is_TEXT m = false -> is_ERROR m = false ->
                    Auth.bitget_body m = Ret false) as P5
    by (intros m T E; apply (bodies_pass_other m T E)).
  split.
  - intros He.
    destruct (bodies_stop_at_ERROR answer He) as (B1 & B2 & B3 & B4 & B5).
    split; [| split; [| split; [| split]]].
    + intros Hg. rewrite (bybit_reads fuel ws it key secret more Hreg Hc)
        by exact Hg.
      exact (Hstop _ P1 B1).
    + rewrite (bitflyer_reads fuel ws it key secret more Hreg Hc).
      exact (Hstop _ P2 B2).
    + rewrite (phemex_reads fuel ws it key secret more Hreg Hc).
      exact (Hstop _ P3 B3).
    + intros (Hg & passphrase & more' & Hm).
      rewrite (okx_reads fuel ws it key secret more Hreg Hc _ _ passphrase
                 more' _ Hm Hg).
      exact (Hstop _ P4 B4).
    + intros (passphrase & more' & Hm).
      rewrite (bitget_reads fuel ws it key secret more Hreg Hc _ _
                 passphrase more' _ Hm).
      exact (Hstop _ P5 B5).
  - intros d Ht Hj.
    destruct (bodies_stop_at_success answer d Ht Hj)
      as (B1 & B2 & B3 & B4 & B5).
    split; [| split; [| split; [| split]]].
    + intros Hg Hans.
      rewrite (bybit_reads fuel ws it key secret more Hreg Hc) by exact Hg.
      apply (Hstop _ P1).
      destruct Hans as [(v & Hs & Hv) | (Hs & v & Ha)];
        [exact (B1 v Hs Hv) |].
      unfold Auth.bybit_body, Auth.json_or_raise, Auth.contains, Auth.break.
      rewrite Ht, Hj. cbn [mbind coro_bind cbind or_raise py_in].
      rewrite Hs. cbn [mbind coro_bind cbind or_raise py_in].
      rewrite Ha. reflexivity.
    + intros He Hi.
      rewrite (bitflyer_reads fuel ws it key secret more Hreg Hc).
      exact (Hstop _ P2 (B2 He Hi)).
    + intros He Hr.
      rewrite (phemex_reads fuel ws it key secret more Hreg Hc).
      exact (Hstop _ P3 (B3 He Hr)).
    + intros (Hg & passphrase & more' & Hm) He.
      rewrite (okx_reads fuel ws it key secret more Hreg Hc _ _ passphrase
                 more' _ Hm Hg).
      exact (Hstop _ P4 (B4 He)).
    + intros (passphrase & more' & Hm) He.
      rewrite (bitget_reads fuel ws it key secret more Hreg Hc _ _
                 passphrase more' _ Hm).
      exact (Hstop _ P5 (B5 He)).
Qed.

(** X12.  A rejected login.  The frame that reports the failure is
    logged as a warning by every hook, but what follows differs.  Bitget
    (the event [error]) and bitFlyer (an [error] under the id [auth])
    leave the read loop: the hook returns, the Auth task is over as
    after a confirmed login, and the frames after the report are left
    unread.  Bybit (a falsy [success]), OKX (the event [error]) and
    Phemex (an [error] that is not [None] beside a [result] that is not
    the success status) read on: with only frames they pass over
    behind it, they return when the stream ends. *)
Theorem login_rejected
    (fuel : nat) (ws : ClientWebSocketResponse)
    (it : Item (ClientWebSocketResponse -> coro unit))
    (key secret : string) (more : list string)
    (t : Q) (nonce : string)
    (skipped : list WSMessage) (report : WSMessage)
    (d : list (string * pyval)) (later : list WSMessage) :
  AuthHosts.items fuel !! url_host ws = Some it ->
  _apis ws !! name it = Some (key :: secret :: more) ->
  (length (skipped ++ report :: later) < fuel)%nat ->
  Forall (fun m => is_TEXT m = false /\ is_ERROR m = false) skipped ->
  is_TEXT report = true -> msg_json report = JsonOk (PyDict d) ->
  let reading (hook : nat -> ClientWebSocketResponse -> coro unit) :=
    summary (run (inbound_frames t nonce) (skipped ++ report :: later)
                 (hook fuel ws)) in
  let quiet := Forall (fun m => is_TEXT m = false /\ is_ERROR m = false)
                      later in
  let bybit_private :=
    str_contains "public" (url_path ws)
    || startswith (url_path ws) "/spot/quote" = false in
  let okx_private :=
    endswith (url_path ws) "public" = false
    /\ exists passphrase more', more = passphrase :: more' in
  let has_passphrase :=
    exists passphrase more', more = passphrase :: more' in
  (has_passphrase -> dict_get "event" d = Some (PyStr "error") ->
   reading Auth.bitget = ([PyDict d], later, Returned tt))
  /\ (forall e, dict_get "error" d = Some e ->
                dict_get "id" d = Some (PyStr "auth") ->
                reading Auth.bitflyer = ([PyDict d], later, Returned tt))
  /\ (bybit_private -> quiet ->
      forall v, dict_get "success" d = Some v -> py_truthy v = false ->
                reading Auth.bybit = ([PyDict d], [], Returned tt))
  /\ (okx_private -> quiet ->
      dict_get "event" d = Some (PyStr "error") ->
      reading Auth.okx = ([PyDict d], [], Returned tt))
  /\ (quiet ->
      forall e r, dict_get "error" d = Some e -> is_None e = false ->
                  dict_get "result" d = Some r ->
                  Auth.is_status_success r = false ->
                  reading Auth.phemex = ([PyDict d], [], Returned tt)).
Proof.
  intros Hreg Hc Hf Hsk Ht Hj reading quiet bybit_on okx_on with_pass.
  subst reading quiet bybit_on okx_on with_pass. cbv beta.
  assert (forall body (l : list WSMessage),
             Forall (fun m => is_TEXT m = false /\ is_ERROR m = false) l ->
             (forall m, is_TEXT m = false -> is_ERROR m = false ->
                        body m = Ret false) ->
             Forall (fun m => body m = Ret false) l) as Hpass.
  { intros body l Hl Hb. eapply Forall_impl; [exact Hl |].
    intros m [T E]. exact (Hb m T E). }
  assert (forall m, is_TEXT m = false -> is_ERROR m = false ->
                    Auth.bybit_body m = Ret false) as P1
    by (intros m T E; apply (bodies_pass_other m T E)).
  assert (forall m, is_TEXT m = false -> is_ERROR m = false ->
                    Auth.bitflyer_body m = Ret false) as P2
    by (intros m T E; apply (bodies_pass_other m T E)).
  assert (forall m, is_TEXT m = false -> is_ERROR m = false ->
                    Auth.phemex_body m = Ret false) as P3
    by (intros m T E; apply (bodies_pass_other m T E)).
  assert (forall m, is_TEXT m = false -> is_ERROR m = false ->
                    Auth.okx_body m = Ret false) as P4
    by (intros m T E; apply (bodies_pass_other m T E)).
  assert (forall m, is_TEXT m = false -> is_ERROR m = false ->
                    Auth.bitget_body m = Ret false) as P5
    by (intros m T E; apply (bodies_pass_other m T E)).
  destruct (bodies_warn_at_failure report d Ht Hj) as (W1 & _ & W4 & W5).
  split; [| split; [| split; [| split]]].
  - intros (passphrase & more' & Hm) He.
    rewrite (bitget_reads fuel ws it key secret more Hreg Hc _ _
               passphrase more' _ Hm).
    apply reads_until; [exact Hf | exact (Hpass _ _ Hsk P5) |].
    intros n _. apply read_loop_warn_stop. exact (W5 He).
  - intros e He Hi.
    rewrite (bitflyer_reads fuel ws it key secret more Hreg Hc).
    apply reads_until; [exact Hf | exact (Hpass _ _ Hsk P2) |].
    intros n _. apply read_loop_warn_stop.
    exact (bitflyer_body_rejected report d e Ht Hj He Hi).
  - intros Hg Hq v Hs Hv.
    rewrite (bybit_reads fuel ws it key secret more Hreg Hc) by exact Hg.
    apply reads_until; [exact Hf | exact (Hpass _ _ Hsk P1) |].
    intros n Hn. apply read_loop_warn_on;
      [exact (W1 v Hs Hv) | exact Hn | exact (Hpass _ _ Hq P1)].
  - intros (Hg & passphrase & more' & Hm) Hq He.
    rewrite (okx_reads fuel ws it key secret more Hreg Hc _ _ passphrase
               more' _ Hm Hg).
    apply reads_until; [exact Hf | exact (Hpass _ _ Hsk P4) |].
    intros n Hn. apply read_loop_warn_on;
      [exact (W4 He) | exact Hn | exact (Hpass _ _ Hq P4)].
  - intros Hq e r He Hn Hr Hs.
    rewrite (phemex_reads fuel ws it key secret more Hreg Hc).
    apply reads_until; [exact Hf | exact (Hpass _ _ Hsk P3) |].
    intros n Hlt. apply read_loop_warn_on;
      [exact (phemex_body_rejected report d e r Ht Hj He Hn Hr Hs)
      | exact Hlt | exact (Hpass _ _ Hq P3)].
Qed.

End AuthAnswers.

Section AuthReadLoopExamples.

Lemma frames_passed_over_witness :
  summary (run (inbound_frames 0 "00") [sample_binary; sample_pong]
               (Auth.okx (H := sample_library) 3 sample_okx_private))
  = ([], [], Returned tt).
Proof.
  assert (AuthHosts.items (H := sample_library) 3
            !! url_host sample_okx_private
          = Some (MkItem "okx" (Auth.okx (H := sample_library) 3))) as Hreg
    by reflexivity.
  assert (_apis sample_okx_private !! "okx"
          = Some ["key"; "secret"; "pass"]) as Hc by reflexivity.
  refine (proj1 (proj2 (proj2 (proj2
            (frames_passed_over (H := sample_library) 3 sample_okx_private
               _ "key" "secret" ["pass"] 0 "00"
               [sample_binary; sample_pong] Hreg Hc _)))) _ _ _).
  - simpl. lia.
  - exists "pass", []. reflexivity.
  - reflexivity.
  - constructor; [left; split; reflexivity |].
    constructor; [| constructor].
    right. left. split; [reflexivity |]. exists "pong". reflexivity.
Defined.

Lemma undecodable_frame_ends_login_witness :
  summary (run (inbound_frames 0 "00")
               ([sample_binary] ++ sample_pong :: [sample_empty_object])
               (Auth.bybit (H := sample_library) 3 sample_bybit_private))
  = ([], [sample_empty_object], Raised JSONDecodeErr).
Proof.
  assert (AuthHosts.items (H := sample_library) 3
            !! url_host sample_bybit_private
          = Some (MkItem "bybit" (Auth.bybit (H := sample_library) 3)))
    as Hreg by reflexivity.
  assert (_apis sample_bybit_private !! "bybit"
          = Some ["key"; "secret"; "pass"]) as Hc by reflexivity.
  refine (proj1 (undecodable_frame_ends_login (H := sample_library) 3
                   sample_bybit_private _ "key" "secret" ["pass"] 0 "00"
                   [sample_binary] sample_pong "pong" [sample_empty_object]
                   Hreg Hc _ _ _ _) _).
  - simpl. lia.
  - constructor; [split; reflexivity | constructor].
  - reflexivity.
  - reflexivity.
  - reflexivity.
Defined.

Lemma unindexable_frame_ends_login_witness :
  summary (run (inbound_frames 0 "00")
               ([sample_binary] ++ sample_empty_object :: [sample_pong])
               (Auth.phemex (H := sample_library) 3 sample_phemex))
  = ([], [sample_pong], Raised KeyError).
Proof.
  assert (AuthHosts.items (H := sample_library) 3 !! url_host sample_phemex
          = Some (MkItem "phemex" (Auth.phemex (H := sample_library) 3)))
    as Hreg by reflexivity.
  assert (_apis sample_phemex !! "phemex"
          = Some ["key"; "secret"; "pass"]) as Hc by reflexivity.
  refine (proj1 (proj1 (unindexable_frame_ends_login (H := sample_library) 3
                   sample_phemex _ "key" "secret" ["pass"] 0 "00"
                   [sample_binary] sample_empty_object [sample_pong]
                   Hreg Hc _ _ _) [] _) _).
  - simpl. lia.
  - constructor; [split; reflexivity | constructor].
  - reflexivity.
  - reflexivity.
  - reflexivity.
Defined.

Lemma login_confirmed_witness :
  summary (run (inbound_frames 0 "00")
               ([sample_binary] ++ sample_error :: [sample_pong])
               (Auth.bitflyer (H := sample_library) 4 sample_bitflyer))
  = ([], [sample_pong], Returned tt).
Proof.
  assert (AuthHosts.items (H := sample_library) 4
            !! url_host sample_bitflyer
          = Some (MkItem "bitflyer" (Auth.bitflyer (H := sample_library) 4)))
    as Hreg by reflexivity.
  assert (_apis sample_bitflyer !! "bitflyer" = Some ["key"; "secret"])
    as Hc by reflexivity.
  refine (proj1 (proj2 (proj1 (login_confirmed (H := sample_library) 4
                   sample_bitflyer _ "key" "secret" [] 0 "00"
                   [sample_binary] sample_error [sample_pong]
                   Hreg Hc _ _) _))).
  - simpl. lia.
  - constructor; [split; reflexivity | constructor].
  - reflexivity.
Defined.

Lemma login_rejected_witness :
  summary (run (inbound_frames 0 "00")
               ([sample_binary] ++ sample_rejection :: [sample_pong])
               (Auth.bitget (H := sample_exchange) 4 sample_bitget))
  = ([PyDict [("event", PyStr "error")]], [sample_pong], Returned tt).
Proof.
  assert (AuthHosts.items (H := sample_exchange) 4 !! url_host sample_bitget
          = Some (MkItem "bitget" (Auth.bitget (H := sample_exchange) 4)))
    as Hreg by reflexivity.
  assert (_apis sample_bitget !! "bitget" = Some ["key"; "secret"; "pass"])
    as Hc by reflexivity.
  refine (proj1 (login_rejected (H := sample_exchange) 4 sample_bitget _
                   "key" "secret" ["pass"] 0 "00"
                   [sample_binary] sample_rejection
                   [("event", PyStr "error")] [sample_pong]
                   Hreg Hc _ _ _ _) _ _).
  - simpl. lia.
  - constructor; [split; reflexivity | constructor].
  - reflexivity.
  - reflexivity.
  - exists "pass", []. reflexivity.
  - reflexivity.
Defined.

End AuthReadLoopExamples.

(** ** The Auth hooks: credentials that are too short *)

Section AuthCredentials.
Context `{Library}.

Lemma credential_missing (fuel : nat) (ws : ClientWebSocketResponse)
    (it : Item (ClientWebSocketResponse -> coro unit))
    (creds : list string) (i : nat) :
  AuthHosts.items fuel !! url_host ws = Some it ->
  _apis ws !! name it = Some creds -> creds !! i = None ->
  Auth.credential ws i = Raise IndexError.
Proof.
  intros Hreg Hc Hi.
  destruct (AuthHosts_cases _ _ _ Hreg) as (Hnm & _).
  unfold Auth.credential. rewrite Hnm.
  cbn [or_raise mbind coro_bind cbind]. rewrite Hc.
  cbn [or_raise mbind coro_bind cbind]. rewrite Hi. reflexivity.
Qed.

(** X13.  An Auth hook reads its credentials before it reads the clock
    or sends anything: with fewer than two entries on file for the
    account (three for OKX and Bitget, which index a passphrase) the
    hook raises [IndexError] at once and nothing goes out.  Only the
    tests of the url path that Bybit and OKX make come first. *)
Theorem short_credentials_raise
    (fuel : nat) (ws : ClientWebSocketResponse)
    (it : Item (ClientWebSocketResponse -> coro unit))
    (creds : list string) :
  AuthHosts.items fuel !! url_host ws = Some it ->
  _apis ws !! name it = Some creds ->
  ((length creds < 2)%nat ->
   Auth.bybit fuel ws
   = (if str_contains "public" (url_path ws)
         || startswith (url_path ws) "/spot/quote"
      then Ret tt else Raise IndexError)
   /\ Auth.bitflyer fuel ws = Raise IndexError
   /\ Auth.phemex fuel ws = Raise IndexError
   /\ Auth.mexc fuel ws = Raise IndexError)
  /\ ((length creds < 3)%nat ->
      Auth.okx fuel ws
      = (if endswith (url_path ws) "public"
         then Ret tt else Raise IndexError)
      /\ Auth.bitget fuel ws = Raise IndexError).
Proof.
  intros Hreg Hc.
  assert (forall i x, creds !! i = Some x ->
                      Auth.credential ws i = Ret x) as Hsome
    by (intros i x; apply (credential_resolved fuel ws it Hreg creds i x Hc)).
  assert (forall i, creds !! i = None ->
                    Auth.credential ws i = Raise IndexError) as Hnone
    by (intros i; apply (credential_missing fuel ws it creds i Hreg Hc)).
  split; intros Hlen;
    unfold Auth.bybit, Auth.bitflyer, Auth.phemex, Auth.mexc, Auth.okx,
      Auth.bitget.
  - destruct creds as [| k [| s more]]; [| | simpl in Hlen; lia].
    + rewrite (Hnone 0%nat eq_refl). cbn [mbind coro_bind cbind].
      destruct (_ || _); repeat split; reflexivity.
    + rewrite (Hsome 0%nat k eq_refl), (Hnone 1%nat eq_refl).
      cbn [mbind coro_bind cbind].
      destruct (_ || _); repeat split; reflexivity.
  - destruct creds as [| k [| s [| p more]]]; [| | | simpl in Hlen; lia].
    + rewrite (Hnone 0%nat eq_refl). cbn [mbind coro_bind cbind].
      destruct (endswith _ _); split; reflexivity.
    + rewrite (Hsome 0%nat k eq_refl), (Hnone 1%nat eq_refl).
      cbn [mbind coro_bind cbind].
      destruct (endswith _ _); split; reflexivity.
    + rewrite (Hsome 0%nat k eq_refl), (Hsome 1%nat s eq_refl),
        (Hnone 2%nat eq_refl).
      cbn [mbind coro_bind cbind].
      destruct (endswith _ _); split; reflexivity.
Qed.

End AuthCredentials.

Section AuthCredentialsExamples.

Lemma short_credentials_raise_witness :
  Auth.bitget (H := sample_library) 3 sample_bitget_short
  = Raise IndexError.
Proof.
  assert (AuthHosts.items (H := sample_library) 3
            !! url_host sample_bitget_short
          = Some (MkItem "bitget" (Auth.bitget (H := sample_library) 3)))
    as Hreg by reflexivity.
  assert (_apis sample_bitget_short !! "bitget" = Some ["key"; "secret"])
    as Hc by reflexivity.
  refine (proj2 (proj2 (short_credentials_raise (H := sample_library) 3
                          sample_bitget_short _ ["key"; "secret"] Hreg Hc)
                   _)).
  simpl. lia.
Defined.

End AuthCredentialsExamples.

(** ** The Auth gate when the Auth task fails *)

Section ClosedGateFacts.
Context `{Library}.
Variable fuel : nat.
Variable ws : ClientWebSocketResponse.
Import Tasks.

(** A task that has returned takes no step, so once the Auth task has
    returned it stays so. *)
Lemma auth_returned_task_step st i t c p w :
  pool st !! i = Some t -> done (rest t) = false ->
  auth_returned st = true ->
  auth_returned (Sys (<[i := Task (origin t) c]> (pool st)) (authtask st)
                     p (closed st) w) = true.
Proof.
  unfold auth_returned. simpl. intros Hi Hnd Hret.
  destruct (authtask st) as [a|]; [| reflexivity].
  destruct (decide (a = i)) as [-> | Hne].
  - rewrite Hi in Hret. destruct (rest t); discriminate.
  - rewrite list_lookup_insert_ne by congruence. exact Hret.
Qed.

Lemma auth_returned_spawn st c :
  auth_returned st = true ->
  auth_returned (with_pool st (pool st ++ [Task c c])) = true.
Proof.
  unfold auth_returned. simpl. intros Hret.
  destruct (authtask st) as [a|]; [| reflexivity].
  destruct (pool st !! a) as [ta|] eqn:Ea; [| discriminate Hret].
  rewrite lookup_app_l by (eapply lookup_lt_Some; eauto).
  rewrite Ea. exact Hret.
Qed.

(** Waiting for an Auth task that has not returned ends in an
    exception. *)
Lemma answers_wait_closed st i r st' :
  answers st i WaitAuthtask r st' -> auth_returned st = false ->
  exists x, r = RRaise x.
Proof.
  unfold auth_returned. inversion 1; subst; intros Hret.
  - rewrite H1 in Hret. discriminate Hret.
  - rewrite H1, H2, H3 in Hret. discriminate Hret.
  - eauto.
  - eauto.
Qed.

Lemma closed_task_step st i t e k r st' :
  pool st !! i = Some t -> rest t = Do e k -> answers st i e r st' ->
  gate_closed fuel ws st ->
  gate_closed fuel ws
    (with_pool st' (<[i := Task (origin t) (k r)]> (pool st'))).
Proof.
  intros Hi Hr Ha Hinv Hret'.
  destruct (answers_frame _ _ _ _ _ Ha) as [Hp Hau].
  assert (done (rest t) = false) as Hnd by (rewrite Hr; reflexivity).
  assert (i < length (pool st))%nat as Hlt by (eapply lookup_lt_Some; eauto).
  assert (auth_returned st = false) as Hret.
  { destruct (auth_returned st) eqn:E; [| reflexivity].
    rewrite <- Hret'. symmetry.
    rewrite <- (auth_returned_task_step st i t (k r) (lock st')
                  (wire st') Hi Hnd E).
    unfold auth_returned. simpl. rewrite Hp, Hau. reflexivity. }
  destruct (Hinv Hret) as [A B].
  (* a gated task [i] taking this step is at its wait and is refused *)
  assert (gated_send fuel ws (origin t) ->
          e = WaitAuthtask /\ exists x, k r = Raise x) as Hi_gated.
  { intros Hg. destruct (A i t Hi Hg) as [Ho | [x Hx]].
    - destruct (gated_send_starts _ _ _ Hg) as [k0 [E Hk0]].
      rewrite <- Ho, Hr in E. injection E as -> ->. split; [reflexivity |].
      destruct (answers_wait_closed _ _ _ _ Ha Hret) as [x ->].
      exists x. apply Hk0.
    - rewrite Hx in Hr. discriminate Hr. }
  simpl. rewrite Hp. split.
  - intros j tj Hj Hg. destruct (decide (j = i)) as [-> | Hne].
    + rewrite list_lookup_insert_eq in Hj by exact Hlt.
      injection Hj as <-. simpl in *.
      destruct (Hi_gated Hg) as [_ [x Hx]]. right. eauto.
    + rewrite list_lookup_insert_ne in Hj by congruence. eauto.
  - intros s ts Hs Hj Hg.
    assert (exists t0, pool st !! by_task s = Some t0
                       /\ origin t0 = origin ts) as [t0 [Hj0 Ho0]].
    { destruct (decide (by_task s = i)) as [E | Hne].
      - rewrite E in Hj. rewrite list_lookup_insert_eq in Hj by exact Hlt.
        injection Hj as <-. exists t. rewrite E. auto.
      - rewrite list_lookup_insert_ne in Hj by congruence. eauto. }
    rewrite <- Ho0 in Hg.
    destruct (answers_wire _ _ _ _ _ Ha) as [Ew | [f [Ee Ew]]];
      rewrite Ew in Hs; [eapply B; eauto |].
    apply in_app_or in Hs as [Hs | [<- | []]]; [eapply B; eauto |].
    simpl in *. rewrite Hi in Hj0. injection Hj0 as <-.
    destruct (Hi_gated Hg) as [Ee' _].
    rewrite Ee in Ee'. discriminate Ee'.
Qed.

Lemma closed_step st st' :
  step st st' ->
  gate_invariant fuel ws st /\ gate_closed fuel ws st ->
  gate_invariant fuel ws st' /\ gate_closed fuel ws st'.
Proof.
  intros Hs [Hg Hc]. split; [eapply gate_step; eauto |].
  destruct Hs as [st i t e k r st' Hi Hr Ha | st c | st].
  - eapply closed_task_step; eauto.
  - intros Hret'.
    assert (auth_returned st = false) as Hret.
    { destruct (auth_returned st) eqn:E; [| reflexivity].
      rewrite <- Hret'. symmetry. apply auth_returned_spawn. exact E. }
    destruct (Hc Hret) as [A B]. destruct Hg as (_ & W2 & _).
    simpl. split.
    + intros j tj Hj Hgs.
      destruct (decide (j < length (pool st))%nat) as [Hlt | Hge].
      * rewrite lookup_app_l in Hj by exact Hlt. eauto.
      * rewrite lookup_app_r in Hj by lia.
        destruct (j - length (pool st))%nat as [|n]; simpl in Hj;
          [injection Hj as <-; left; reflexivity | discriminate Hj].
    + intros s ts Hs Hj.
      rewrite lookup_app_l in Hj by (apply W2; exact Hs). eauto.
  - exact Hc.
Qed.

Lemma closed_opened (auth0 : option (coro unit)) :
  gate_closed fuel ws (opened auth0).
Proof.
  destruct auth0 as [c|]; intros Hret; [| discriminate Hret].
  simpl. split.
  - intros [|j] tj Hj Hg; simpl in Hj; [| discriminate Hj].
    injection Hj as <-. left. reflexivity.
  - intros s ts [].
Qed.

(** X14.  On a connection as opened, however its tasks interleave and
    whatever new tasks arrive: as long as the Auth task has not
    returned normally, be it still running, failed or cancelled, every
    [send_json] call not marked as the hook's own has either not begun
    or has ended by raising, and nothing on the wire came from such a
    call.  A failed Auth task takes no further step, so after a failed
    login no gated [send_json] ever goes out: each one raises. *)
Theorem gate_stays_closed (auth0 : option (coro unit)) (st : sys) :
  steps (opened auth0) st ->
  auth_returned st = false ->
  (forall i t, pool st !! i = Some t -> gated_send fuel ws (origin t) ->
               rest t = origin t \/ exists x, rest t = Raise x)
  /\ (forall s t, In s (wire st) -> pool st !! by_task s = Some t ->
                  ~ gated_send fuel ws (origin t)).
Proof.
  intros Hs.
  assert (gate_invariant fuel ws st /\ gate_closed fuel ws st) as [_ Hc].
  { assert (gate_invariant fuel ws (opened auth0)
            /\ gate_closed fuel ws (opened auth0)) as H0
      by (split; [apply gate_opened | apply closed_opened]).
    revert Hs H0. generalize (opened auth0). intros st0 Hs H0.
    induction Hs as [| st1 st2 st3 _ IH Hst]; [exact H0 |].
    eapply closed_step; eauto. }
  exact Hc.
Qed.

End ClosedGateFacts.

Section ClosedGateExamples.
Import Tasks.

Lemma gate_stays_closed_witness :
  steps (opened (Some sample_failed_login)) sample_refused
  /\ auth_returned sample_refused = false
  /\ (forall i t,
         pool sample_refused !! i = Some t ->
         gated_send (H := sample_library) 3 sample_bitget_short (origin t) ->
         rest t = origin t \/ exists x, rest t = Raise x).
Proof.
  assert (steps (opened (Some sample_failed_login)) sample_refused) as Hs.
  { eapply steps_more;
      [eapply steps_more;
         [apply steps_refl | apply (step_spawn _ sample_gated_send)] |].
    pose (Sys [Task sample_failed_login sample_failed_login;
               Task sample_gated_send sample_gated_send]
              (Some 0%nat) None false []) as st1.
    change (step st1 sample_refused).
    exact (step_task st1 1%nat (Task sample_gated_send sample_gated_send)
             WaitAuthtask _ (RRaise IndexError) st1 eq_refl eq_refl
             (ans_wait_failed st1 1%nat 0%nat
                (Task sample_failed_login sample_failed_login) IndexError
                eq_refl eq_refl eq_refl)). }
  assert (auth_returned sample_refused = false) as Hr by reflexivity.
  split; [exact Hs | split; [exact Hr |]].
  exact (proj1 (gate_stays_closed (H := sample_library) 3
                  sample_bitget_short _ _ Hs Hr)).
Defined.

End ClosedGateExamples.

(** ** The lock is never left held *)

Section LockLeaks.
Context `{Library}.
Variable fuel : nat.
Variable ws : ClientWebSocketResponse.
Import Tasks.

(** A coroutine that never touches the lock keeps to its discipline. *)
Lemma lock_free_bracketed (c : coro unit) :
  all_effects (fun e => is_Lock e = false) c -> bracketed false false c.
Proof.
  induction 1 as [a | x | | e k He _ IH];
    [constructor | constructor | constructor |].
  destruct e; try discriminate He;
    try (apply br_other; [reflexivity | reflexivity | exact IH]).
  apply br_transmit; [discriminate | exact IH].
Qed.

Lemma all_effects_weaken {R : Type} (P Q : eff -> Prop) (c : coro R) :
  (forall e, P e -> Q e) -> all_effects P c -> all_effects Q c.
Proof. intros HPQ. induction 1; constructor; auto. Qed.

Lemma phased_lock_free (p : phase) (c : coro unit) :
  phased p c -> all_effects (fun e => is_Lock e = false) c.
Proof.
  induction 1 as [| | | p p' e k Hn _ IH];
    [constructor | constructor | constructor |].
  constructor; [| exact IH].
  destruct e; try reflexivity; destruct p; discriminate Hn.
Qed.

Lemma of_connection_bracketed (c : coro unit) :
  of_connection fuel ws c -> bracketed false false c.
Proof.
  intros [[s ->] | [[b ->] | [(data & itself & auth & ->) | [Hp | Ha]]]].
  - apply send_str_bracketed.
  - apply send_bytes_bracketed.
  - apply send_json_prefix. intros text. apply send_str_bracketed.
  - unfold __init__ in Hp. cbn [_pingtask] in Hp.
    destruct (HeartbeatHosts.items fuel !! url_host ws) as [hook|] eqn:E;
      [| discriminate Hp].
    injection Hp as <-. apply lock_free_bracketed.
    eapply all_effects_weaken;
      [| apply (heartbeat_all_effects fuel ws hook E)].
    intros e He. destruct e; try reflexivity; discriminate He.
  - unfold __init__ in Ha. cbn [_authtask] in Ha.
    destruct (_auth ws); [| discriminate Ha].
    destruct (AuthHosts.items fuel !! url_host ws) as [it|] eqn:E;
      [| discriminate Ha].
    destruct (_apis ws !! name it); [| discriminate Ha].
    injection Ha as <-. apply lock_free_bracketed.
    eapply phased_lock_free. apply (registered_phased fuel ws it E).
Qed.

(** X15.  On a connection as [__init__] leaves it, with tasks that are
    calls of its send methods, its heartbeat and its Auth hook, however
    they interleave and whether sends fail, tasks are cancelled or the
    socket closes: [ws._lock] is held only by a task that exists and is
    not over.  A send that raised or was cancelled inside the rate
    limiter has given the lock back. *)
Theorem lock_never_leaked (st : sys) :
  steps (opened (_authtask (__init__ fuel ws))) st ->
  (forall i t, pool st !! i = Some t -> of_connection fuel ws (origin t)) ->
  (forall i t, pool st !! i = Some t -> done (rest t) = true ->
               lock st <> Some i)
  /\ (forall i, lock st = Some i ->
                exists t, pool st !! i = Some t /\ done (rest t) = false).
Proof.
  intros Hs Hown.
  assert (well_behaved st) as Hwb
    by (intros i t Hi; apply of_connection_bracketed; eauto).
  assert (well_behaved (opened (_authtask (__init__ fuel ws)))) as Hwb0.
  { clear -Hs Hwb. induction Hs as [| st1 st2 st3 _ IH Hst]; [exact Hwb |].
    apply IH. eapply well_behaved_back; eauto. }
  pose proof (lock_reachable _ _ Hs Hwb (lock_opened _ Hwb0))
    as (L0 & _ & L2 & _).
  assert (forall i t, pool st !! i = Some t -> done (rest t) = true ->
                      lock st <> Some i) as Hdone.
  { intros i t Hi Hd Hl. destruct (L2 i t Hi) as (h & Hb & _ & Hh).
    pose proof (bracketed_done _ _ _ Hb Hd) as ->.
    apply Hh in Hl. discriminate Hl. }
  split; [exact Hdone |].
  intros i Hl. pose proof (L0 i Hl) as Hlt.
  apply lookup_lt_is_Some_2 in Hlt as [t Hi]. exists t. split; [exact Hi |].
  destruct (done (rest t)) eqn:Hd; [| reflexivity].
  exfalso. exact (Hdone i t Hi Hd Hl).
Qed.

End LockLeaks.

Section LockLeakExamples.
Import Tasks.

Lemma lock_never_leaked_witness :
  match exec sample_failing_schedule
             (opened (_authtask (__init__ (H := sample_library) 2
                                   sample_binance)))
  with
  | Some st =>
      steps (opened (_authtask (__init__ (H := sample_library) 2
                                  sample_binance))) st
      /\ (forall i t, pool st !! i = Some t ->
                      of_connection (H := sample_library) 2 sample_binance
                        (origin t))
      /\ map rest (pool st) = [Raise ConnectionResetError]
      /\ (forall i t, pool st !! i = Some t -> done (rest t) = true ->
                      lock st <> Some i)
  | None => False
  end.
Proof.
  destruct (exec sample_failing_schedule _) as [st|] eqn:E.
  - pose proof (exec_steps _ _ _ E) as Hs.
    assert (forall i t, pool st !! i = Some t ->
                        of_connection (H := sample_library) 2 sample_binance
                          (origin t)) as Hown.
    { vm_compute in E. injection E as <-.
      intros [|i] t Hi; [| discriminate Hi].
      injection Hi as <-. left. exists "t". reflexivity. }
    split; [exact Hs | split; [exact Hown | split]].
    + vm_compute in E. injection E as <-. reflexivity.
    + exact (proj1 (lock_never_leaked (H := sample_library) 2
                      sample_binance st Hs Hown)).
  - vm_compute in E. discriminate E.
Defined.

End LockLeakExamples.

(** ** Signing: what can go wrong, and what is signed *)

Section SignErrors.
Context `{Library}.
Variable fuel : nat.

(** X16.  On a host with a sign hook and credentials on file, a
    [send_json] call that leaves [auth] alone hands every truthy payload
    to the hook, which reads the key and the secret before it looks at
    the path or at the payload.  So with fewer than two entries on file
    the call raises [IndexError], on any path and for any payload, and
    with a payload that is not a dict on a [/ws-api] path it raises
    [AttributeError]; in both cases after the wait for the Auth task, if
    it is due, and without sending anything.  A falsy payload never
    reaches the hook and is sent as it came. *)
Theorem sign_hook_errors
    (ws : ClientWebSocketResponse)
    (it : Item (ClientWebSocketResponse -> pyval -> coro pyval))
    (creds : list string) (data : pyval) (itself : bool) :
  MessageSignHosts.items !! url_host ws = Some it ->
  _apis ws !! name it = Some creds ->
  (py_truthy data = true -> (length creds < 2)%nat ->
   send_json fuel ws data itself true
   = ((if negb itself then _wait_authtask else Ret tt);;
      Raise IndexError))
  /\ (py_truthy data = true -> (2 <= length creds)%nat ->
      startswith (url_path ws) "/ws-api" = true ->
      isinstance_dict data = false ->
      send_json fuel ws data itself true
      = ((if negb itself then _wait_authtask else Ret tt);;
         Raise AttributeError))
  /\ (py_truthy data = false ->
      send_json fuel ws data itself true = send_plain fuel ws data itself).
Proof.
  intros Hit Hc.
  pose proof (sign_hook_some ws it creds Hit Hc) as Hhook.
  destruct (MessageSignHosts_cases _ _ Hit) as [_ Hnm].
  split; [| split].
  - intros Ht Hlen. unfold send_json. rewrite Hhook, Ht.
    unfold MessageSign.binance. rewrite Hnm.
    cbn [or_raise mbind coro_bind cbind]. rewrite Hc.
    destruct creds as [| k [| s more]]; [| | simpl in Hlen; lia];
      destruct itself; reflexivity.
  - intros Ht Hlen Hpath Hd. unfold send_json. rewrite Hhook, Ht.
    unfold MessageSign.binance. rewrite Hnm.
    cbn [or_raise mbind coro_bind cbind]. rewrite Hc.
    destruct creds as [| k [| s more]]; [simpl in Hlen; lia ..|].
    cbn [or_raise mbind coro_bind cbind lookup list_lookup].
    rewrite Hpath. cbn [negb].
    destruct data; try discriminate Hd; destruct itself; reflexivity.
  - intros Hf. apply send_json_unsigned. right. exact Hf.
Qed.

End SignErrors.

Section SignErrorsExamples.

Lemma sign_hook_errors_witness :
  send_json (H := sample_library) 2 sample_wsapi_short
    (PyDict sample_order) true true
  = Raise IndexError.
Proof.
  assert (MessageSignHosts.items (H := sample_library)
            !! url_host sample_wsapi_short
          = Some (MkItem "binance" (MessageSign.binance (H := sample_library))))
    as Hit by reflexivity.
  assert (_apis sample_wsapi_short !! "binance" = Some ["key"]) as Hc
    by reflexivity.
  refine (proj1 (sign_hook_errors (H := sample_library) 2 sample_wsapi_short
                   _ ["key"] (PyDict sample_order) true Hit Hc) _ _).
  - reflexivity.
  - simpl. lia.
Defined.

End SignErrorsExamples.

Section SignedEntries.
Context `{Library}.

Lemma dict_get_In (k : string) (v : pyval) (d : list (string * pyval)) :
  dict_get k d = Some v -> In (k, v) d.
Proof.
  induction d as [|[k' v'] d IH]; simpl; [discriminate |].
  destruct (String.eqb k k') eqn:E.
  - apply String.eqb_eq in E. subst k'. intros [= ->]. left. reflexivity.
  - intros Hg. right. apply IH. exact Hg.
Qed.

Lemma dict_set_keys (k : string) (v : pyval) (d : list (string * pyval)) :
  map fst (dict_set k v d)
  = map fst d ++ match dict_get k d with Some _ => [] | None => [k] end.
Proof.
  induction d as [|[k' v'] d IH]; simpl; [reflexivity |].
  destruct (String.eqb k k') eqn:E; simpl.
  - now rewrite app_nil_r.
  - now rewrite IH.
Qed.

Lemma eqb_ne (a b : string) : a <> b -> String.eqb a b = false.
Proof. intros Hne. apply String.eqb_neq. exact Hne. Qed.

(** X17.  What signing does to [params] besides the three entries it
    writes: every other entry keeps its value and all entries keep their
    place, a new key going to the end; and the string that is signed
    covers every entry [params] had at the call other than [apiKey] and
    [timestamp], a [signature] left there by an earlier signing
    included, which the new signature then replaces. *)
Theorem signing_keeps_and_covers
    (key secret : string) (ts : Z) (params : list (string * pyval)) :
  let entries :=
    dict_set "timestamp" (PyInt ts)
      (dict_set "apiKey" (PyStr key) params) in
  let signed := MessageSign.sign_params key secret ts params in
  (forall k, k <> "apiKey" -> k <> "timestamp" -> k <> "signature" ->
             dict_get k signed = dict_get k params)
  /\ map fst signed
     = map fst params
         ++ List.filter (fun k => match dict_get k params with
                                  | Some _ => false
                                  | None => true
                                  end)
                        ["apiKey"; "timestamp"; "signature"]
  /\ (forall k v, dict_get k params = Some v ->
                  k <> "apiKey" -> k <> "timestamp" ->
                  In (k, v) (sorted_items entries))
  /\ (forall old, dict_get "signature" params = Some old ->
                  In ("signature", old) (sorted_items entries)
                  /\ dict_get "signature" signed
                     = Some (PyStr
                               (hmac_sha256_hex secret
                                  (str_join "&"
                                     (map (fun '(param, value) =>
                                             param +:+ "=" +:+ py_str value)
                                          (sorted_items entries)))))).
Proof.
  intros entries signed.
  assert (forall k v, dict_get k params = Some v ->
                      k <> "apiKey" -> k <> "timestamp" ->
                      In (k, v) (sorted_items entries)) as Hcover.
  { intros k v Hg Ha Ht.
    eapply Permutation_in; [symmetry; apply sorted_items_perm |].
    apply dict_get_In. subst entries.
    rewrite !dict_get_set_ne by (apply eqb_ne; assumption). exact Hg. }
  split; [| split; [| split]].
  - intros k Ha Ht Hs. subst signed. unfold MessageSign.sign_params.
    rewrite !dict_get_set_ne by (apply eqb_ne; assumption). reflexivity.
  - subst signed. unfold MessageSign.sign_params.
    rewrite !dict_set_keys, <- !app_assoc. f_equal.
    rewrite !dict_get_set_ne by reflexivity.
    cbn [List.filter].
    destruct (dict_get "apiKey" params), (dict_get "timestamp" params),
      (dict_get "signature" params); reflexivity.
  - exact Hcover.
  - intros old Hold. split.
    + apply Hcover; [exact Hold | discriminate | discriminate].
    + subst signed. unfold MessageSign.sign_params. apply dict_get_set_eq.
Qed.

End SignedEntries.

(** ** The rate limiter when something fails *)

Section LimitedSendFailures.
Variable fuel : nat.

(** X18.  On a host with a RateLimit hook, an exception inside the
    limiter reaches the caller of [send_str] after the lock has been
    given back.  When it is the send itself that fails nothing went out;
    when it is the request for the server time that fails, the frame has
    already gone out. *)
Theorem limited_send_failures
    (ws : ClientWebSocketResponse) (text : string) (x : exn) :
  is_Some (RequestLimitHosts.items fuel !! url_host ws) ->
  (let r := run scripted [RUnit; RRaise x; RUnit] (send_str fuel ws text) in
   exchanges (trace_of r)
   = [(LockAcquire, RUnit); (Transmit (FText text), RRaise x);
      (LockRelease, RUnit)]
   /\ outcome_of r = Raised x)
  /\ (let r := run scripted [RUnit; RUnit; RRaise x; RUnit]
                   (send_str fuel ws text) in
      exists url,
        exchanges (trace_of r)
        = [(LockAcquire, RUnit); (Transmit (FText text), RUnit);
           (HttpTime url, RRaise x); (LockRelease, RUnit)]
        /\ outcome_of r = Raised x).
Proof.
  intros [l E]. destruct (send_str_limited fuel ws text l E) as [-> Hl].
  destruct Hl as [[-> _] | [-> _]]; split; try (split; reflexivity);
    eexists; split; reflexivity.
Qed.

End LimitedSendFailures.

Section LimitedSendFailuresExamples.

Lemma limited_send_failures_witness :
  exchanges (trace_of (run scripted [RUnit; RRaise ConnectionResetError; RUnit]
                         (send_str 2 sample_binance "t")))
  = [(LockAcquire, RUnit);
     (Transmit (FText "t"), RRaise ConnectionResetError);
     (LockRelease, RUnit)].
Proof.
  refine (proj1 (proj1 (limited_send_failures 2 sample_binance "t"
                          ConnectionResetError _))).
  vm_compute. eauto.
Defined.

End LimitedSendFailuresExamples.

(** ** WebSocketQueue as a handler *)

Section QueueFacts.
Import Dispatcher WebSocketQueue.

Variable msg_json : WSMessage -> json_result.
Variables hdlr_str hdlr_bytes : list handler.
Variable h : handler.
Variable ws : ClientWebSocketResponse.

Local Abbreviation lsteps := (steps msg_json hdlr_str hdlr_bytes [h]).

Lemma deliver_app q cs1 cs2 :
  deliver h ws q (cs1 ++ cs2) = deliver h ws (deliver h ws q cs1) cs2.
Proof. apply fold_left_app. Qed.

Lemma deliver_others q k d (l : list handler) :
  ~ In h l -> deliver h ws q (map (fun h' => (k, h', d)) l) = q.
Proof.
  induction l as [|h' l IH]; intros Hn; [reflexivity |].
  cbn [map deliver fold_left fst snd].
  destruct (Nat.eqb_spec h' h) as [-> | _];
    [exfalso; apply Hn; left; reflexivity |].
  apply IH. intros Hin. apply Hn. right. exact Hin.
Qed.

Lemma deliver_cons q k x cs :
  deliver h ws q ((k, h, x) :: cs)
  = deliver h ws (match put_nowait q x with Some q' => q' | None => q end)
      cs.
Proof.
  unfold deliver. cbn [fold_left fst snd]. rewrite Nat.eqb_refl.
  reflexivity.
Qed.

Lemma deliver_puts q xs :
  (maxsize q <= 0)%Z \/ (Z.of_nat (qsize q) <= maxsize q)%Z ->
  maxsize (deliver h ws q (map (fun x => (KJson, h, x)) xs)) = maxsize q
  /\ _queue (deliver h ws q (map (fun x => (KJson, h, x)) xs)) = kept q xs.
Proof.
  revert q. induction xs as [|x xs IH]; intros q Hq.
  - split; [reflexivity |]. unfold kept. cbn [map deliver fold_left].
    rewrite app_nil_r. destruct (maxsize q <=? 0)%Z eqn:E; [reflexivity |].
    apply Z.leb_gt in E. unfold qsize in Hq.
    rewrite firstn_all2; [reflexivity | lia].
  - cbn [map]. rewrite deliver_cons. unfold put_nowait, full, kept, qsize in *.
    destruct (maxsize q <=? 0)%Z eqn:E; cbv beta iota.
    + destruct (IH (Queue (maxsize q) (_queue q ++ [x]))) as [I1 I2];
        [left; apply Z.leb_le in E; exact E |].
      rewrite I1, I2. split; [reflexivity |].
      cbn [maxsize _queue]. rewrite E, <- app_assoc. reflexivity.
    + pose proof E as E'. apply Z.leb_gt in E'.
      destruct (maxsize q <=? Z.of_nat (length (_queue q)))%Z eqn:F;
        cbv beta iota.
      * apply Z.leb_le in F.
        destruct (IH q) as [I1 I2]; [right; lia |].
        rewrite I1, I2, E. split; [reflexivity |].
        rewrite !firstn_app.
        replace (Z.to_nat (maxsize q) - length (_queue q))%nat with 0%nat
          by lia.
        reflexivity.
      * apply Z.leb_gt in F.
        destruct (IH (Queue (maxsize q) (_queue q ++ [x]))) as [I1 I2].
        { right. cbn [maxsize _queue]. rewrite length_app. simpl. lia. }
        rewrite I1, I2. split; [reflexivity |].
        cbn [maxsize _queue]. rewrite E, <- app_assoc. reflexivity.
Qed.

Lemma deliver_frames q frames :
  ~ In h hdlr_str -> ~ In h hdlr_bytes ->
  deliver h ws q
    (flat_map (calls_for msg_json hdlr_str hdlr_bytes [h]) frames)
  = deliver h ws q
      (map (fun x => (KJson, h, x)) (decoded msg_json frames)).
Proof.
  intros Hs Hb. revert q. induction frames as [|msg frames IH]; intros q;
    [reflexivity |].
  cbn [flat_map decoded]. fold (decoded msg_json frames).
  rewrite map_app, !deliver_app, calls_for_frame, !deliver_app.
  assert (forall (c : bool) k l,
             ~ In h l ->
             deliver h ws q
               (if c then map (fun h' => (k, h', msg_data msg)) l else [])
             = q) as Hskip
    by (intros [|] k l Hl; [apply deliver_others; exact Hl | reflexivity]).
  rewrite (Hskip _ KStr _ Hs), (Hskip _ KBytes _ Hb).
  destruct (msg_json msg); apply IH.
Qed.

Lemma aiter_drains (m : Z) (items : list pyval) (n : nat) :
  __aiter__ (length items + n) (Queue m items) = (items, Queue m []).
Proof.
  induction items as [|x items IH]; cbn [length Nat.add __aiter__ get _queue].
  - destruct n; reflexivity.
  - cbn [maxsize]. rewrite IH. reflexivity.
Qed.

(** X19.  A [WebSocketQueue] whose [onmessage] is the one JSON handler
    (and no text or bytes handler): however frame arrivals and loop
    turns interleave, once the loop is at rest the queue has been
    offered what the frames decoded to, in arrival order, each once.
    Without a bound it holds them all behind what it held; with a bound
    and nobody taking items it holds those that fit, the puts beyond
    having raised [QueueFull] into the loop's exception handler.
    Iterating the queue then yields its items oldest first and waits
    once it is empty. *)
Theorem queue_receives_in_order
    (q0 : t) (frames : list WSMessage) (st : loop) :
  ~ In h hdlr_str -> ~ In h hdlr_bytes ->
  (maxsize q0 <= 0)%Z \/ (Z.of_nat (qsize q0) <= maxsize q0)%Z ->
  lsteps (start frames) st -> quiescent st ->
  let q := deliver h ws q0 (calls st) in
  maxsize q = maxsize q0
  /\ _queue q = kept q0 (decoded msg_json frames)
  /\ forall n, __aiter__ (qsize q + n) q
               = (_queue q, Queue (maxsize q0) []).
Proof.
  intros Hs Hb Hq0 Hsteps [Hin Hq] q.
  assert (calls_accounted_for msg_json hdlr_str hdlr_bytes [h] frames st)
    as A by (apply (steps_calls_accounted _ _ _ _ frames _ _ Hsteps);
             reflexivity).
  unfold calls_accounted_for in A. rewrite Hin, Hq in A. simpl in A.
  rewrite app_nil_r in A.
  assert (q = deliver h ws q0
                (map (fun x => (KJson, h, x)) (decoded msg_json frames)))
    as Eq by (subst q; rewrite A; apply deliver_frames; assumption).
  destruct (deliver_puts q0 (decoded msg_json frames) Hq0) as [D1 D2].
  rewrite <- Eq in D1, D2. split; [exact D1 | split; [exact D2 |]].
  intros n. destruct q as [m items]. cbn [maxsize _queue qsize] in *.
  subst m. apply aiter_drains.
Qed.

End QueueFacts.

Section QueueExamples.
Import Dispatcher WebSocketQueue.

(** An unbounded queue behind three text frames, the second of which
    does not decode. *)
Lemma queue_receives_in_order_witness :
  _queue (deliver 2 sample_okx (Queue 0 [])
            (calls (_ws_receive sample_json [1%nat] [] [2%nat]
                      [Msg TEXT (PyStr "1"); sample_pong;
                       sample_empty_object])))
  = [PyInt 1; PyDict []].
Proof.
  destruct (ws_receive_runs sample_json [1%nat] [] [2%nat]
              [Msg TEXT (PyStr "1"); sample_pong; sample_empty_object])
    as [Hs Hq].
  refine (proj1 (proj2 (queue_receives_in_order sample_json [1%nat] []
                          2%nat sample_okx (Queue 0 []) _ _ _ _ _ Hs Hq))).
  - intros [E | []]. discriminate E.
  - intros [].
  - left. reflexivity.
Defined.

End QueueExamples.
